(** * gosmee web UI backend: quota gate, event store, log hub, supervisor

    A shallow embedding of the Go backend of lazycatapps/gosmee:
    - [models/quota.go] and [ClientService.Create],
    - [models/event.go] (tolerant event decoding) and the file event
      repository (filter, sort, paginate, delete),
    - [models/process.go] (log fan-out) and [ProcessService]
      (start / stop / exit monitor),
    - the services around them: quota checks and the cached quota
      repository, batch start and stop, the retention sweep, event replay,
      log files and live log streams, log collection and shutdown.

    Go's [int] is kept as [Z]; where the source multiplies or adds request
    integers the 64-bit wrap-around is written out.  Instants of
    [time.Time] are integers counted from Go's zero instant, so that
    [IsZero] is the test against [0]. *)

From Stdlib Require Import ZArith QArith Lia List Sorted Bool Ascii String.
From stdpp Require Import base option list gmap strings fin_maps.

Local Open Scope string_scope.
Local Open Scope Z_scope.
Local Open Scope list_scope.

(** ** Results of fallible Go calls: [(value, error)] pairs. *)

Inductive result (E A : Type) : Type :=
| Ok (a : A)
| Err (e : E).
Arguments Ok {E A} a.
Arguments Err {E A} e.

(** ** models/quota.go *)

Module Quota.

(** The [Percentage] field is a [float64]; it is read here as an exact
    rational.  No statement below depends on rounding: the percentage is
    only ever compared with the constants 80 and 100. *)
Record Quota := mkQuota {
  UserID : string;
  TotalBytes : Z;
  UsedBytes : Z;
  Percentage : Q;
  ClientsCount : Z;
  MaxClients : Z
}.

Definition NewQuota (userID : string) (totalBytes maxClients : Z) : Quota :=
  {| UserID := userID; TotalBytes := totalBytes; UsedBytes := 0;
     Percentage := 0%Q; ClientsCount := 0; MaxClients := maxClients |}.

Definition UpdateUsage (q : Quota) (usedBytes clientsCount : Z) : Quota :=
  {| UserID := UserID q;
     TotalBytes := TotalBytes q;
     UsedBytes := usedBytes;
     Percentage :=
       if 0 <? TotalBytes q
       then (inject_Z usedBytes / inject_Z (TotalBytes q) * 100)%Q
       else Percentage q;
     ClientsCount := clientsCount;
     MaxClients := MaxClients q |}.

Definition IsStorageFull (q : Quota) : bool := Qle_bool 100 (Percentage q).

Definition IsStorageWarning (q : Quota) : bool := Qle_bool 80 (Percentage q).

Definition IsClientsLimitReached (q : Quota) : bool :=
  MaxClients q <=? ClientsCount q.

Definition CanCreateClient (q : Quota) : bool :=
  negb (IsClientsLimitReached q).

End Quota.

(** ** models/client.go and ClientService.Create *)

Module ClientService.
Import Quota.

Inductive ClientStatus := ClientStatusRunning | ClientStatusStopped | ClientStatusError.

Record ClientRequest := mkClientRequest {
  rq_Name : string;
  rq_Description : string;
  rq_SmeeURL : string;
  rq_TargetURL : string;
  rq_TargetTimeout : Z;
  rq_HTTPie : bool;
  rq_IgnoreEvents : list string;
  rq_NoReplay : bool;
  rq_SSEBufferSize : Z
}.

Record Client := mkClient {
  ID : string;
  OwnerID : string;
  Name : string;
  Description : string;
  Status : ClientStatus;
  SmeeURL : string;
  TargetURL : string;
  TargetTimeout : Z;
  HTTPie : bool;
  IgnoreEvents : list string;
  NoReplay : bool;
  SSEBufferSize : Z;
  RestartCount : Z;
  TodayEvents : Z;
  TotalEvents : Z;
  CreatedAt : Z;
  UpdatedAt : Z
}.

Definition NewClient (now : Z) (id userID name description smeeURL targetURL : string)
  : Client :=
  {| ID := id; OwnerID := userID; Name := name; Description := description;
     Status := ClientStatusStopped; SmeeURL := smeeURL; TargetURL := targetURL;
     TargetTimeout := 60; HTTPie := false; IgnoreEvents := [];
     NoReplay := false; SSEBufferSize := 1048576; RestartCount := 0;
     TodayEvents := 0; TotalEvents := 0; CreatedAt := now; UpdatedAt := now |}.

(** The errors [Create] can return, one per [fmt.Errorf] of the source. *)
Inductive CreateError :=
| FailedToCheckQuota (cause : string)
| ClientLimitReached (count max : Z)
| FailedToCreateClient (cause : string).

(** What [Create] does to its collaborators, in program order. *)
Inductive Effect :=
| RepoCreate (c : Client)
| InvalidateCache (userID : string).

(** The collaborators of the service: the quota repository's answer for a
    user, the UUID generator, the clock, and the client repository's
    verdict on a save ([None] is a nil error). *)
Record Env := mkEnv {
  GetQuota : string -> result string Quota;
  newUUID : string;
  now : Z;
  repoCreate : Client -> option string
}.

Definition applyRequest (c : Client) (req : ClientRequest) : Client :=
  {| ID := ID c; OwnerID := OwnerID c; Name := Name c;
     Description := Description c; Status := Status c;
     SmeeURL := SmeeURL c; TargetURL := TargetURL c;
     TargetTimeout :=
       if 0 <? rq_TargetTimeout req then rq_TargetTimeout req else TargetTimeout c;
     HTTPie := rq_HTTPie req;
     IgnoreEvents := rq_IgnoreEvents req;
     NoReplay := rq_NoReplay req;
     SSEBufferSize :=
       if 0 <? rq_SSEBufferSize req then rq_SSEBufferSize req else SSEBufferSize c;
     RestartCount := RestartCount c; TodayEvents := TodayEvents c;
     TotalEvents := TotalEvents c; CreatedAt := CreatedAt c;
     UpdatedAt := UpdatedAt c |}.

Definition Create (env : Env) (userID : string) (req : ClientRequest)
  : result CreateError Client * list Effect :=
  match GetQuota env userID with
  | Err e => (Err (FailedToCheckQuota e), [])
  | Ok quota =>
    if negb (CanCreateClient quota)
    then (Err (ClientLimitReached (ClientsCount quota) (MaxClients quota)), [])
    else
      let client :=
        applyRequest
          (NewClient (now env) (newUUID env) userID (rq_Name req)
             (rq_Description req) (rq_SmeeURL req) (rq_TargetURL req))
          req in
      match repoCreate env client with
      | Some e => (Err (FailedToCreateClient e), [RepoCreate client])
      | None => (Ok client, [RepoCreate client; InvalidateCache userID])
      end
  end.

End ClientService.

(** ** Go library functions used by the decoder *)

Module GoStrings.

(** [strings.TrimSpace] on the bytes of a string.  White space is what
    [unicode.IsSpace] accepts: the ASCII bytes tab, line feed, vertical
    tab, form feed, carriage return and space, and the runes U+0085,
    U+00A0, U+1680, U+2000 to U+200A, U+2028, U+2029, U+202F, U+205F and
    U+3000 in their UTF-8 encoding.  Bytes that are no valid encoding
    decode to U+FFFD, which is not white space, so a white space rune
    stands at an end of the string exactly when its encoding does. *)
Definition isSpace (c : ascii) : bool :=
  let n := nat_of_ascii c in
  ((9 <=? n)%nat && (n <=? 13)%nat) || (n =? 32)%nat.

Definition byteIs (c : ascii) (n : nat) : bool := (nat_of_ascii c =? n)%nat.

(** U+0085 is C2 85 and U+00A0 is C2 A0. *)
Definition isSpace2 (c1 c2 : ascii) : bool :=
  byteIs c1 194 && (byteIs c2 133 || byteIs c2 160).

(** U+1680 is E1 9A 80; U+2000 to U+200A are E2 80 80 to E2 80 8A;
    U+2028, U+2029 and U+202F are E2 80 A8, E2 80 A9 and E2 80 AF;
    U+205F is E2 81 9F; U+3000 is E3 80 80. *)
Definition isSpace3 (c1 c2 c3 : ascii) : bool :=
  let n := nat_of_ascii c3 in
  (byteIs c1 225 && byteIs c2 154 && byteIs c3 128)
  || (byteIs c1 226 && byteIs c2 128
      && (((128 <=? n)%nat && (n <=? 138)%nat)
          || (n =? 168)%nat || (n =? 169)%nat || (n =? 175)%nat))
  || (byteIs c1 226 && byteIs c2 129 && byteIs c3 159)
  || (byteIs c1 227 && byteIs c2 128 && byteIs c3 128).

(** Whether the string is the encoding of one white space rune. *)
Definition isSpaceRune (s : string) : bool :=
  match s with
  | String c1 EmptyString => isSpace c1
  | String c1 (String c2 EmptyString) => isSpace2 c1 c2
  | String c1 (String c2 (String c3 EmptyString)) => isSpace3 c1 c2 c3
  | _ => false
  end.

(** Drops the leading white space runes. *)
Fixpoint trimLeft (s : string) : string :=
  match s with
  | EmptyString => EmptyString
  | String c1 s1 =>
    if isSpace c1 then trimLeft s1
    else
      match s1 with
      | EmptyString => s
      | String c2 s2 =>
        if isSpace2 c1 c2 then trimLeft s2
        else
          match s2 with
          | EmptyString => s
          | String c3 s3 => if isSpace3 c1 c2 c3 then trimLeft s3 else s
          end
      end
  end.

(** Drops the trailing white space runes: once what follows a byte has
    been trimmed, that byte goes too exactly when it and the trimmed rest
    are together one white space rune. *)
Fixpoint trimRight (s : string) : string :=
  match s with
  | EmptyString => EmptyString
  | String c s' =>
    let t := trimRight s' in
    if isSpaceRune (String c t) then EmptyString else String c t
  end.

Definition TrimSpace (s : string) : string := trimRight (trimLeft s).

(** [strings.Contains s sub]. *)
Fixpoint Contains (s sub : string) : bool :=
  String.prefix sub s ||
  match s with
  | EmptyString => false
  | String _ s' => Contains s' sub
  end.

(** [strconv.Atoi]: an optional sign and at least one decimal digit; a
    value outside the 64-bit range is an error. *)
Definition digitOf (c : ascii) : option Z :=
  let n := nat_of_ascii c in
  if ((48 <=? n)%nat && (n <=? 57)%nat) then Some (Z.of_nat n - 48) else None.

Fixpoint parseDigits (acc : Z) (s : string) : option Z :=
  match s with
  | EmptyString => Some acc
  | String c s' =>
    match digitOf c with
    | Some d => parseDigits (10 * acc + d) s'
    | None => None
    end
  end.

Definition minInt64 : Z := - 2 ^ 63.
Definition maxInt64 : Z := 2 ^ 63 - 1.

Definition inInt64 (z : Z) : bool := (minInt64 <=? z) && (z <=? maxInt64).

Definition Atoi (s : string) : option Z :=
  let '(neg, body) :=
    match s with
    | String "-"%char r => (true, r)
    | String "+"%char r => (false, r)
    | _ => (false, s)
    end in
  match body with
  | EmptyString => None
  | _ =>
    match parseDigits 0 body with
    | Some v =>
      let z := if neg then - v else v in
      if inInt64 z then Some z else None
    | None => None
    end
  end.

(** Arithmetic of Go's [int] on a 64-bit platform. *)
Definition wrap64 (z : Z) : Z := (z + 2 ^ 63) mod 2 ^ 64 - 2 ^ 63.

End GoStrings.

(** ** Decoded JSON: what [json.Unmarshal] stores in an [interface{}] *)

Module Json.

(** A number is the [float64] the decoder produced, given by its exact
    rational value. *)
#[local] Unset Elimination Schemes.
Inductive json :=
| JNull
| JBool (b : bool)
| JNum (v : Q)
| JStr (s : string)
| JArr (l : list json)
| JObj (m : gmap string json).
#[local] Set Elimination Schemes.

(** [json.Unmarshal(data, &raw)] with [raw : map[string]interface{}]
    accepts an object, and also the literal null (leaving the nil map);
    any other document is an error. *)
Definition asRawMap (j : json) : option (gmap string json) :=
  match j with
  | JObj m => Some m
  | JNull => Some ∅
  | _ => None
  end.

End Json.

(** ** models/event.go *)

Module Event.
Import GoStrings Json.

(** [EventStatus] is a string type with three named constants. *)
Definition EventStatusSuccess : string := "success".
Definition EventStatusFailed : string := "failed".
Definition EventStatusNotReplayed : string := "not_replayed".

(** A nil header map and an empty one are both [∅]: the code only takes
    the length of the map and ranges over it. *)
Record Event := mkEvent {
  ID : string;
  ClientID : string;
  Timestamp : Z;
  EventType : string;
  Source : string;
  Status : string;
  StatusCode : Z;
  LatencyMs : Z;
  Headers : gmap string string;
  Payload : string;
  Response : string;
  ErrorMessage : string
}.

(** The zero value [var event models.Event]. *)
Definition zeroEvent : Event :=
  {| ID := ""; ClientID := ""; Timestamp := 0; EventType := ""; Source := "";
     Status := ""; StatusCode := 0; LatencyMs := 0; Headers := ∅;
     Payload := ""; Response := ""; ErrorMessage := "" |}.

Record EventSummary := mkEventSummary {
  s_ID : string;
  s_Timestamp : Z;
  s_EventType : string;
  s_Source : string;
  s_Status : string;
  s_StatusCode : Z;
  s_LatencyMs : Z
}.

Definition ToSummary (e : Event) : EventSummary :=
  {| s_ID := ID e; s_Timestamp := Timestamp e; s_EventType := EventType e;
     s_Source := Source e; s_Status := Status e;
     s_StatusCode := StatusCode e; s_LatencyMs := LatencyMs e |}.

Definition nonEmpty (s : string) : bool := negb (String.eqb s "").

(** [int(v)] for a [float64]: truncation toward zero; outside the 64-bit
    range the conversion yields the smallest integer (amd64). *)
Definition truncQ (v : Q) : Z :=
  let t := Z.quot (Qnum v) (Zpos (Qden v)) in
  if inInt64 t then t else minInt64.

(** [toInt]: of the dynamic types a decoded document can hold, numbers are
    truncated, strings go through [strconv.Atoi], everything else is 0. *)
Definition toInt (value : json) : Z :=
  match value with
  | JNum v => truncQ v
  | JStr s => match Atoi (TrimSpace s) with Some i => i | None => 0 end
  | _ => 0
  end.

Fixpoint firstNonZeroInt (data : gmap string json) (keys : list string) : Z :=
  match keys with
  | [] => 0
  | key :: keys' =>
    match data !! key with
    | Some value =>
      if toInt value =? 0 then firstNonZeroInt data keys' else toInt value
    | None => firstNonZeroInt data keys'
    end
  end.

(** [toMap]: only an object is a map; a missing key or another value
    gives the nil map. *)
Definition toMap (value : json) : gmap string json :=
  match value with
  | JObj m => m
  | _ => ∅
  end.

Definition extractMap (data : gmap string json) (key : string) : gmap string json :=
  match data !! key with
  | Some value => toMap value
  | None => ∅
  end.

Section Decoding.

(** Go library behaviour the decoder relies on and this development does
    not fix: [fmt.Sprint] and [json.Marshal] on a decoded value, and
    [time.Parse] with the RFC 3339 layout. *)
Variable Sprint : json -> string.
Variable Marshal : json -> string.
Variable parseRFC3339 : string -> option Z.

Definition toString (value : json) : string :=
  match value with
  | JNull => ""
  | JStr s => TrimSpace s
  | v => TrimSpace (Sprint v)
  end.

Definition extractString (data : gmap string json) (key : string) : string :=
  match data !! key with
  | Some value => toString value
  | None => ""
  end.

Fixpoint firstNonEmptyString (data : gmap string json) (keys : list string) : string :=
  match keys with
  | [] => ""
  | key :: keys' =>
    let value := extractString data key in
    if nonEmpty value then value else firstNonEmptyString data keys'
  end.

Definition extractStringMap (data : gmap string json) (key : string)
  : gmap string string :=
  toString <$> extractMap data key.

(** [stringifyValue] applied to [raw[key]]: an absent key reads as nil. *)
Definition stringifyValue (value : option json) : string :=
  match value with
  | None => ""
  | Some JNull => ""
  | Some (JStr s) => TrimSpace s
  | Some v => Marshal v
  end.

(** The status switch of [UnmarshalJSON]: reached only when no status
    string was found. *)
Definition inferStatus (status : string) (statusCode : Z) : string :=
  if nonEmpty status then status
  else if (200 <=? statusCode) && (statusCode <? 300) then EventStatusSuccess
  else if 0 <? statusCode then EventStatusFailed
  else status.

(** [Event.UnmarshalJSON] after the document has been decoded into
    [raw]; the receiver [e] keeps every field the body does not assign. *)
Definition UnmarshalJSON (e : Event) (raw : gmap string json) : Event :=
  let id := extractString raw "id" in
  let clientID := firstNonEmptyString raw ["clientId"; "client_id"] in
  let eventType := firstNonEmptyString raw ["eventType"; "event_type"] in
  let source := extractString raw "source" in
  let status := firstNonEmptyString raw ["status"; "forward_status"] in
  let ts := firstNonEmptyString raw ["timestamp"; "time"; "created_at"] in
  let timestamp :=
    if nonEmpty ts
    then match parseRFC3339 ts with Some parsed => parsed | None => Timestamp e end
    else Timestamp e in
  let statusCode := firstNonZeroInt raw ["statusCode"; "status_code"] in
  let latencyMs := firstNonZeroInt raw ["latencyMs"; "latency_ms"] in
  let resp := extractMap raw "response" in
  let hasResp := (0 <? size resp)%nat in
  let statusCode :=
    if hasResp && (statusCode =? 0) then firstNonZeroInt resp ["status_code"]
    else statusCode in
  let latencyMs :=
    if hasResp && (latencyMs =? 0) then firstNonZeroInt resp ["latency_ms"]
    else latencyMs in
  let response :=
    if hasResp && negb (nonEmpty (Response e)) then stringifyValue (Some (JObj resp))
    else Response e in
  let errorMessage :=
    if hasResp && negb (nonEmpty (ErrorMessage e)) then extractString resp "error"
    else ErrorMessage e in
  let status := inferStatus status statusCode in
  let headers := extractStringMap raw "headers" in
  let payload := stringifyValue (raw !! "payload") in
  let payload := if nonEmpty payload then payload else Payload e in
  let response' := stringifyValue (raw !! "response") in
  let response :=
    if nonEmpty response' && negb (nonEmpty response) then response' else response in
  let errMsg := firstNonEmptyString raw ["errorMessage"; "error_message"] in
  let errorMessage := if nonEmpty errMsg then errMsg else errorMessage in
  {| ID := id; ClientID := clientID; Timestamp := timestamp;
     EventType := eventType; Source := source; Status := status;
     StatusCode := statusCode; LatencyMs := latencyMs; Headers := headers;
     Payload := payload; Response := response; ErrorMessage := errorMessage |}.

End Decoding.

End Event.

(** ** repository: the file event repository *)

Module EventRepo.
Import GoStrings Json Event.

(** *** Reading one event file *)

(** What the repository learns about an event file from the file system:
    the file stem ([TrimSuffix(Base(path), Ext(path))]), the base name of
    the grandparent directory ([inferClientIDFromPath]), the modification
    time when [os.Stat] succeeds, the bytes, the JSON document when the
    bytes are valid JSON, and the headers [loadHeadersFromShellScript]
    recovers from the companion script. *)
Record FileFacts := mkFileFacts {
  f_stem : string;
  f_clientDir : string;
  f_modTime : option Z;
  f_data : string;
  f_doc : option json;
  f_scriptHeaders : gmap string string
}.

Definition IsZero (t : Z) : bool := t =? 0.

Section Reading.

Variable Sprint : json -> string.
Variable Marshal : json -> string.
Variable parseRFC3339 : string -> option Z.
(** [parseTimestampFromEventID]: the four layouts tried on the identifier. *)
Variable parseTimestampFromEventID : string -> option Z.

Definition enrichEventFromPath (event : Event) (f : FileFacts) : Event :=
  let id := if nonEmpty (ID event) then ID event else f_stem f in
  let clientID :=
    if nonEmpty (ClientID event) then ClientID event else f_clientDir f in
  let timestamp :=
    if IsZero (Timestamp event)
    then match parseTimestampFromEventID id with
         | Some ts => ts
         | None => Timestamp event
         end
    else Timestamp event in
  let timestamp :=
    if IsZero timestamp
    then match f_modTime f with Some mt => mt | None => timestamp end
    else timestamp in
  let payload :=
    if nonEmpty (Payload event) then Payload event else TrimSpace (f_data f) in
  let headers :=
    if (size (Headers event) =? 0)%nat then f_scriptHeaders f else Headers event in
  let status :=
    if nonEmpty (Status event) then Status event else EventStatusNotReplayed in
  {| ID := id; ClientID := clientID; Timestamp := timestamp;
     EventType := EventType event; Source := Source event; Status := status;
     StatusCode := StatusCode event; LatencyMs := LatencyMs event;
     Headers := headers; Payload := payload; Response := Response event;
     ErrorMessage := ErrorMessage event |}.

Definition buildEventFromRaw (f : FileFacts) : Event :=
  enrichEventFromPath
    {| ID := ""; ClientID := ""; Timestamp := 0; EventType := ""; Source := "";
       Status := EventStatusNotReplayed; StatusCode := 0; LatencyMs := 0;
       Headers := ∅; Payload := TrimSpace (f_data f); Response := "";
       ErrorMessage := "" |}
    f.

(** [readEventFile]: [None] for the file is a failed [os.ReadFile]. *)
Definition readEventFile (file : option FileFacts) : result string Event :=
  match file with
  | None => Err "read failed"
  | Some f =>
    match f_doc f ≫= asRawMap with
    | None => Ok (buildEventFromRaw f)
    | Some raw =>
      Ok (enrichEventFromPath
            (UnmarshalJSON Sprint Marshal parseRFC3339 zeroEvent raw) f)
    end
  end.

End Reading.

(** *** Listing: filter, sort, paginate *)

Record EventListRequest := mkEventListRequest {
  Page : Z;
  PageSize : Z;
  q_EventType : string;
  q_Status : string;
  Search : string;
  DateFrom : Z;
  DateTo : Z;
  SortBy : string;
  SortOrder : string
}.

Record EventListResponse := mkEventListResponse {
  Total : Z;
  r_Page : Z;
  r_PageSize : Z;
  Events : list EventSummary
}.

Section Filtering.

(** [strings.ToLower]: the lower-casing of the Go library, over every
    Unicode letter, is left open. *)
Variable ToLower : string -> string.

(** The loop body of [filterEvents]: [true] when the event is appended. *)
Definition keepEvent (req : EventListRequest) (event : Event) : bool :=
  if nonEmpty (q_EventType req) && negb (String.eqb (EventType event) (q_EventType req))
  then false
  else if nonEmpty (q_Status req) && negb (String.eqb (Status event) (q_Status req))
  then false
  else if nonEmpty (Search req)
          && negb (Contains (ToLower (Source event)) (ToLower (Search req)))
  then false
  else if negb (IsZero (DateFrom req)) && (Timestamp event <? DateFrom req)
  then false
  else if negb (IsZero (DateTo req)) && (DateTo req <? Timestamp event)
  then false
  else true.

Fixpoint filterEvents (events : list Event) (req : EventListRequest) : list Event :=
  match events with
  | [] => []
  | event :: rest =>
    if keepEvent req event then event :: filterEvents rest req
    else filterEvents rest req
  end.

End Filtering.

(** The comparison closure handed to [sort.Slice]. *)
Definition fieldLess (sortBy : string) (a b : Event) : bool :=
  if String.eqb sortBy "eventType" then String.ltb (EventType a) (EventType b)
  else if String.eqb sortBy "status" then String.ltb (Status a) (Status b)
  else Timestamp a <? Timestamp b.

Definition sortLess (sortBy sortOrder : string) (a b : Event) : bool :=
  let less := fieldLess sortBy a b in
  if String.eqb sortOrder "asc" then less else negb less.

(** [sort.Slice] hands the slice to [pdqsort_func], which on a range of
    at most [maxInsertion] elements runs [insertionSortLessFunc]:
<<
    for i := a + 1; i < b; i++ {
        for j := i; j > a && less(j, j-1); j-- { swap(j, j-1) }
    }
>>
    [insertLeft less x rp] is the inner loop: [rp] is the already sorted
    prefix read from index [i-1] down to [a], and [x] travels left as long
    as it is less than its left neighbour. *)
Fixpoint insertLeft {A} (less : A -> A -> bool) (x : A) (rp : list A) : list A :=
  match rp with
  | [] => [x]
  | y :: rp' => if less x y then y :: insertLeft less x rp' else x :: rp
  end.

Definition insertionSortLessFunc {A} (less : A -> A -> bool) (data : list A) : list A :=
  rev (fold_left (fun rp x => insertLeft less x rp) data []).

Definition maxInsertion : nat := 12.

(** The slice expression [s[lo:hi]]: a run-time panic unless
    [0 <= lo <= hi <= len(s)]. *)
Definition sliceRange {A} (s : list A) (lo hi : Z) : option (list A) :=
  if (0 <=? lo) && (lo <=? hi) && (hi <=? Z.of_nat (length s))
  then Some (firstn (Z.to_nat (hi - lo)) (skipn (Z.to_nat lo) s))
  else None.

(** What the events directory of a client looks like to [GetByClientID]. *)
Inductive DirRead :=
| NoEventsDir
| WalkFailed (cause : string)
| Walked (events : list Event).

Inductive ListOutcome :=
| ListPanic
| ListError (cause : string)
| ListOk (resp : EventListResponse).

Section Listing.

(** [strings.ToLower], as for [filterEvents]. *)
Variable ToLower : string -> string.

(** What [pdqsort_func] does with more than [maxInsertion] elements
    (quick sort, heap sort and pattern breaking) is left open. *)
Variable pdqsortLong : (Event -> Event -> bool) -> list Event -> list Event.

Definition sortSlice (data : list Event) (less : Event -> Event -> bool) : list Event :=
  if (length data <=? maxInsertion)%nat then insertionSortLessFunc less data
  else pdqsortLong less data.

Definition sortEvents (events : list Event) (sortBy sortOrder : string) : list Event :=
  sortSlice events (sortLess sortBy sortOrder).

Definition GetByClientID (dir : DirRead) (req : EventListRequest) : ListOutcome :=
  match dir with
  | NoEventsDir =>
    ListOk {| Total := 0; r_Page := Page req; r_PageSize := PageSize req; Events := [] |}
  | WalkFailed cause => ListError cause
  | Walked events =>
    let filtered :=
      sortEvents (filterEvents ToLower events req) (SortBy req) (SortOrder req) in
    let total := Z.of_nat (length filtered) in
    let start := wrap64 ((Page req - 1) * PageSize req) in
    let end_ := wrap64 (start + PageSize req) in
    let '(start, end_) := if total <=? start then (0, 0) else (start, end_) in
    let end_ := if total <? end_ then total else end_ in
    match sliceRange filtered start end_ with
    | None => ListPanic
    | Some paged =>
      ListOk {| Total := total; r_Page := Page req; r_PageSize := PageSize req;
                Events := map ToSummary paged |}
    end
  end.

(** [EventHandler.List] after query binding: the defaults, then the
    repository through [EventService.List]. *)
Definition withDefaults (req : EventListRequest) : EventListRequest :=
  let page := if Page req =? 0 then 1 else Page req in
  let pageSize := if PageSize req =? 0 then 20 else PageSize req in
  let pageSize := if 100 <? pageSize then 100 else pageSize in
  {| Page := page; PageSize := pageSize; q_EventType := q_EventType req;
     q_Status := q_Status req; Search := Search req; DateFrom := DateFrom req;
     DateTo := DateTo req; SortBy := SortBy req; SortOrder := SortOrder req |}.

Definition List (dir : DirRead) (req : EventListRequest) : ListOutcome :=
  GetByClientID dir (withDefaults req).

End Listing.

(** *** Deleting *)

(** A directory of event files: the stems that have a [.json] record and
    the stems that have a [.sh] companion script.  Event identifiers are
    file stems; they hold no path separator. *)
Record Dir := mkDir {
  jsons : gset string;
  scripts : gset string
}.

(** The events directory of one client: the files directly under it and
    its sub-directories in [os.ReadDir] order (sorted by name). *)
Record EventsDir := mkEventsDir {
  flat : Dir;
  dateDirs : list (string * Dir)
}.

(** The repository's view of the disk: the events directory
    [getEventsDir] finds for a client, if any. *)
Abbreviation Store := (gmap string EventsDir).

Inductive DeleteError :=
| ErrNotExist
| EventNotFound (eventID : string).

(** [os.Remove] of the record and of the script; a missing script is not
    an error the code looks at. *)
Definition removeEvent (d : Dir) (eventID : string) : Dir :=
  {| jsons := jsons d ∖ {[eventID]}; scripts := scripts d ∖ {[eventID]} |}.

(** The loop over the date directories: the first one that holds the
    record loses it, and the search stops there. *)
Fixpoint deleteFromDateDirs (dirs : list (string * Dir)) (eventID : string)
  : option (list (string * Dir)) :=
  match dirs with
  | [] => None
  | (name, d) :: rest =>
    if decide (eventID ∈ jsons d)
    then Some ((name, removeEvent d eventID) :: rest)
    else cons (name, d) <$> deleteFromDateDirs rest eventID
  end.

Definition Delete (fs : Store) (clientID eventID : string)
  : Store * option DeleteError :=
  match fs !! clientID with
  | None => (fs, Some ErrNotExist)
  | Some dir =>
    if decide (eventID ∈ jsons (flat dir))
    then (<[clientID := {| flat := removeEvent (flat dir) eventID;
                           dateDirs := dateDirs dir |}]> fs, None)
    else
      match deleteFromDateDirs (dateDirs dir) eventID with
      | Some dirs' =>
        (<[clientID := {| flat := flat dir; dateDirs := dirs' |}]> fs, None)
      | None => (fs, Some (EventNotFound eventID))
      end
  end.

(** [DeleteBatch]: the error of each [Delete] is dropped by [continue],
    and the function returns nil. *)
Fixpoint DeleteBatch (fs : Store) (clientID : string) (eventIDs : list string)
  : Store * option DeleteError :=
  match eventIDs with
  | [] => (fs, None)
  | eventID :: rest =>
    let '(fs', _) := Delete fs clientID eventID in
    DeleteBatch fs' clientID rest
  end.

End EventRepo.

(** ** models/process.go: the log hub of a process *)

(** What a goroutine's call can come to. *)
Inductive Outcome (A : Type) : Type :=
| Done (a : A)
| Blocked
| Panicked.
Arguments Done {A} a.
Arguments Blocked {A}.
Arguments Panicked {A}.

#[global] Instance Outcome_ret : MRet Outcome := fun A a => Done a.

#[global] Instance Outcome_bind : MBind Outcome := fun A B k o =>
  match o with
  | Done a => k a
  | Blocked => Blocked
  | Panicked => Panicked
  end.

Module LogHub.

(** A buffered channel of strings: the queued lines, oldest first, the
    capacity given to [make], and whether [close] has been called. *)
Record Chan := mkChan {
  buf : list string;
  cap : nat;
  closed : bool
}.

(** Channels are shared objects: the hub and its consumers hold the same
    channel, so channels live in a store and are named by their address. *)
Abbreviation Chans := (gmap nat Chan).

Record ProcessInfo := mkProcessInfo {
  ClientID : string;
  PID : Z;
  Status : ClientService.ClientStatus;
  StartedAt : Z;
  RestartCount : Z;
  LastError : string;
  LogLines : list string;
  LogListeners : list nat
}.

Definition NewProcessInfo (now : Z) (clientID : string) (pid : Z) : ProcessInfo :=
  {| ClientID := clientID; PID := pid; Status := ClientService.ClientStatusRunning;
     StartedAt := now; RestartCount := 0; LastError := "";
     LogLines := []; LogListeners := [] |}.

Definition pushLine (c : Chan) (line : string) : Chan :=
  {| buf := buf c ++ [line]; cap := cap c; closed := closed c |}.

Definition closeChan (c : Chan) : Chan :=
  {| buf := buf c; cap := cap c; closed := true |}.

(** The outcome of the runtime's [chansend(c, elem, block)]: the line was
    queued, or the send gave up (only when [block] is false), or the
    goroutine parks, or the send panics (closed channel).  A receiver is
    parked only on an empty buffer, so with a positive capacity the send
    succeeds exactly when the buffer has room. *)
Inductive SendResult :=
| Sent (c : Chan)
| NotSent
| Parked
| SendPanic.

Definition chansend (c : option Chan) (line : string) (block : bool) : SendResult :=
  match c with
  | None => if block then Parked else NotSent
  | Some c =>
    if closed c then SendPanic
    else if (length (buf c) <? cap c)%nat then Sent (pushLine c line)
    else if block then Parked else NotSent
  end.

(** [select { case ch <- line: default: }] is the non-blocking send. *)
Definition trySend (chans : Chans) (ch : nat) (line : string) : Outcome Chans :=
  match chansend (chans !! ch) line false with
  | Sent c => Done (<[ch := c]> chans)
  | NotSent => Done chans
  | Parked => Blocked
  | SendPanic => Panicked
  end.

Fixpoint broadcast (chans : Chans) (listeners : list nat) (line : string)
  : Outcome Chans :=
  match listeners with
  | [] => Done chans
  | ch :: rest => chans' ← trySend chans ch line; broadcast chans' rest line
  end.

Definition withLogLines (p : ProcessInfo) (lines : list string) : ProcessInfo :=
  {| ClientID := ClientID p; PID := PID p; Status := Status p;
     StartedAt := StartedAt p; RestartCount := RestartCount p;
     LastError := LastError p; LogLines := lines;
     LogListeners := LogListeners p |}.

Definition withLogListeners (p : ProcessInfo) (ls : list nat) : ProcessInfo :=
  {| ClientID := ClientID p; PID := PID p; Status := Status p;
     StartedAt := StartedAt p; RestartCount := RestartCount p;
     LastError := LastError p; LogLines := LogLines p;
     LogListeners := ls |}.

Definition AddLog (chans : Chans) (p : ProcessInfo) (line : string)
  : Outcome (Chans * ProcessInfo) :=
  let p' := withLogLines p (LogLines p ++ [line]) in
  chans' ← broadcast chans (LogListeners p') line;
  Done (chans', p').

(** [AddLogListener]: [make(chan string, 100)] is a channel at an address
    not in use. *)
Definition AddLogListener (chans : Chans) (p : ProcessInfo)
  : Chans * ProcessInfo * nat :=
  let ch := fresh (dom chans) in
  (<[ch := {| buf := []; cap := 100; closed := false |}]> chans,
   withLogListeners p (LogListeners p ++ [ch]),
   ch).

(** [close(ch)]: closing a nil or an already closed channel panics. *)
Definition closeAt (chans : Chans) (ch : nat) : Outcome Chans :=
  match chans !! ch with
  | None => Panicked
  | Some c => if closed c then Panicked else Done (<[ch := closeChan c]> chans)
  end.

(** The first occurrence of [ch] is cut out of the listener list. *)
Fixpoint removeFirst (ch : nat) (ls : list nat) : option (list nat) :=
  match ls with
  | [] => None
  | l :: rest =>
    if decide (l = ch) then Some rest else cons l <$> removeFirst ch rest
  end.

Definition RemoveLogListener (chans : Chans) (p : ProcessInfo) (ch : nat)
  : Outcome (Chans * ProcessInfo) :=
  match removeFirst ch (LogListeners p) with
  | None => Done (chans, p)
  | Some ls => chans' ← closeAt chans ch; Done (chans', withLogListeners p ls)
  end.

Fixpoint closeEach (chans : Chans) (ls : list nat) : Outcome Chans :=
  match ls with
  | [] => Done chans
  | ch :: rest => chans' ← closeAt chans ch; closeEach chans' rest
  end.

Definition CloseAllLogListeners (chans : Chans) (p : ProcessInfo)
  : Outcome (Chans * ProcessInfo) :=
  chans' ← closeEach chans (LogListeners p);
  Done (chans', withLogListeners p []).

(** The hub's listeners are distinct channels of the store, all open. *)
Definition listenersOpen (chans : Chans) (p : ProcessInfo) : Prop :=
  NoDup (LogListeners p) ∧
  ∀ ch, ch ∈ LogListeners p → ∃ c, chans !! ch = Some c ∧ closed c = false.

(** Whether a send on the channel finds room. *)
Definition hasRoom (c : Chan) : bool := (length (buf c) <? cap c)%nat.

End LogHub.

(** ** service: the process supervisor *)

Module ProcessService.
Import LogHub.

(** A [processContext].  [cmd_Process] is the [Process] field of the
    [exec.Cmd]: nil until [cmd.Start] succeeds, and never reset.
    [stopChan_closed] tells whether [close(ctx.stopChan)] has run. *)
Record processContext := mkProcessContext {
  client : string;
  cmd_Process : option Z;
  processInfo : ProcessInfo;
  stopChan_closed : bool;
  restartCount : Z
}.

(** The service: the registry maps a client to the address of its
    context; the exit monitor of a process holds that address too.  The
    contexts and the subscriber channels live in stores. *)
Record ProcessService := mkProcessService {
  processes : gmap string nat;
  ctxs : gmap nat processContext;
  chans : Chans;
  autoRestart : bool;
  maxRestartCount : Z
}.

Definition NewProcessService (autoRestart : bool) (maxRestartCount : Z) : ProcessService :=
  {| processes := ∅; ctxs := ∅; chans := ∅;
     autoRestart := autoRestart; maxRestartCount := maxRestartCount |}.

Inductive ServiceError :=
| AlreadyRunning (clientID : string)
| NotRunning (clientID : string)
| PipeFailed (cause : string)
| StartFailed (cause : string).

(** What the operating system answers to the spawn: a pipe could not be
    created, [cmd.Start] failed, or the process runs with a pid. *)
Inductive Spawn :=
| SpawnPipeError (cause : string)
| SpawnStartError (cause : string)
| Spawned (pid : Z).

Definition lookupCtx (s : ProcessService) (clientID : string) : option processContext :=
  r ← processes s !! clientID; ctxs s !! r.

Definition withRegistry (s : ProcessService) (ps : gmap string nat)
  (cs : gmap nat processContext) (chs : Chans) : ProcessService :=
  {| processes := ps; ctxs := cs; chans := chs;
     autoRestart := autoRestart s; maxRestartCount := maxRestartCount s |}.

Definition alreadyRunning (s : ProcessService) (clientID : string) : bool :=
  match lookupCtx s clientID with
  | Some ctx => bool_decide (is_Some (cmd_Process ctx))
  | None => false
  end.

Definition Start (s : ProcessService) (now : Z) (clientID : string) (os : Spawn)
  : ProcessService * option ServiceError :=
  if alreadyRunning s clientID then (s, Some (AlreadyRunning clientID))
  else
    match os with
    | SpawnPipeError cause => (s, Some (PipeFailed cause))
    | SpawnStartError cause => (s, Some (StartFailed cause))
    | Spawned pid =>
      let r := fresh (dom (ctxs s)) in
      let ctx :=
        {| client := clientID; cmd_Process := Some pid;
           processInfo := NewProcessInfo now clientID pid;
           stopChan_closed := false; restartCount := 0 |} in
      (withRegistry s (<[clientID := r]> (processes s)) (<[r := ctx]> (ctxs s)) (chans s),
       None)
    end.

Definition IsRunning (s : ProcessService) (clientID : string) : bool :=
  alreadyRunning s clientID.

Definition GetProcessInfo (s : ProcessService) (clientID : string)
  : result ServiceError ProcessInfo :=
  match lookupCtx s clientID with
  | Some ctx => Ok (processInfo ctx)
  | None => Err (NotRunning clientID)
  end.

(** [Stop]: the stop channel is closed first, the process is signalled
    and waited for (nothing of it is kept), the subscribers' channels are
    closed, and the handle leaves the registry. *)
Definition Stop (s : ProcessService) (clientID : string)
  : Outcome (ProcessService * option ServiceError) :=
  match processes s !! clientID with
  | None => Done (s, Some (NotRunning clientID))
  | Some r =>
    match ctxs s !! r with
    | None => Panicked
    | Some ctx =>
      if stopChan_closed ctx then Panicked
      else
        '(chans', info') ← CloseAllLogListeners (chans s) (processInfo ctx);
        let ctx' :=
          {| client := client ctx; cmd_Process := cmd_Process ctx;
             processInfo := info'; stopChan_closed := true;
             restartCount := restartCount ctx |} in
        Done (withRegistry s (delete clientID (processes s))
                (<[r := ctx']> (ctxs s)) chans',
              None)
    end
  end.

Definition Restart (s : ProcessService) (now : Z) (clientID : string) (os : Spawn)
  : Outcome (ProcessService * option ServiceError) :=
  '(s', _) ← Stop s clientID;
  Done (Start s' now clientID os).

Definition withError (p : ProcessInfo) (msg : string) : ProcessInfo :=
  {| ClientID := ClientID p; PID := PID p;
     Status := ClientService.ClientStatusError;
     StartedAt := StartedAt p; RestartCount := RestartCount p;
     LastError := msg; LogLines := LogLines p;
     LogListeners := LogListeners p |}.

(** [monitorProcess] from the moment [ctx.cmd.Wait()] returns [err]:
    [r] is the address of the context the monitor was started with. *)
Definition monitorCtx (s : ProcessService) (ctx : processContext) (err : option string)
  : processContext :=
  if stopChan_closed ctx then ctx
  else
    let info :=
      match err with
      | Some msg => withError (processInfo ctx) msg
      | None => processInfo ctx
      end in
    let count :=
      if autoRestart s && (restartCount ctx <? maxRestartCount s)
      then restartCount ctx + 1 else restartCount ctx in
    {| client := client ctx; cmd_Process := cmd_Process ctx;
       processInfo := info; stopChan_closed := stopChan_closed ctx;
       restartCount := count |}.

Definition monitorProcess (s : ProcessService) (r : nat) (err : option string)
  : ProcessService :=
  match ctxs s !! r with
  | None => s
  | Some ctx =>
    withRegistry s (processes s) (<[r := monitorCtx s ctx err]> (ctxs s)) (chans s)
  end.

End ProcessService.

(** ** service: quota checks *)

Module QuotaService.
Import Quota.

(** The errors of the service, one per [fmt.Errorf] of the source. *)
Inductive QuotaError :=
| FailedToGetQuota (cause : string)
| ClientLimit (count max : Z)
| StorageQuotaExceeded (percentage : Q).

Section Service.

(** The quota repository behind the service, and the two-decimal
    rendering [%.2f] of a percentage. *)
Variable quotaRepo : string -> result string Quota.
Variable formatPercent : Q -> string.

Definition GetQuota (userID : string) : result QuotaError Quota :=
  match quotaRepo userID with
  | Ok quota => Ok quota
  | Err e => Err (FailedToGetQuota e)
  end.

(** [None] is the nil error. *)
Definition CheckCanCreateClient (userID : string) : option QuotaError :=
  match GetQuota userID with
  | Err e => Some e
  | Ok quota =>
    if negb (CanCreateClient quota)
    then Some (ClientLimit (ClientsCount quota) (MaxClients quota))
    else None
  end.

Definition CheckStorageQuota (userID : string) : option QuotaError :=
  match GetQuota userID with
  | Err e => Some e
  | Ok quota =>
    if IsStorageFull quota then Some (StorageQuotaExceeded (Percentage quota))
    else None
  end.

Definition GetStorageWarning (userID : string) : result QuotaError string :=
  match GetQuota userID with
  | Err e => Err e
  | Ok quota =>
    if IsStorageWarning quota
    then Ok ("Warning: Storage usage is at " ++ formatPercent (Percentage quota)
             ++ "% - consider cleaning up old events and logs")%string
    else Ok ""
  end.

End Service.

End QuotaService.

(** ** repository: the cached file quota repository *)

Module QuotaRepo.
Import GoStrings Quota.

Record quotaCache := mkQuotaCache {
  quota : Quota;
  expiresAt : Z
}.

Record FileQuotaRepository := mkFileQuotaRepository {
  maxStoragePerUser : Z;
  maxClientsPerUser : Z;
  cache : gmap string quotaCache;
  cacheTTL : Z
}.

(** One hour, in the unit of the clock. *)
Definition NewFileQuotaRepository (hour maxStoragePerUser maxClientsPerUser : Z)
  : FileQuotaRepository :=
  {| maxStoragePerUser := maxStoragePerUser; maxClientsPerUser := maxClientsPerUser;
     cache := ∅; cacheTTL := hour |}.

(** What the repository finds on disk for a user.  [userFiles]: [None]
    when the user directory does not exist, else the outcome of the walk,
    the sizes of the files met.  [clientEntries]: [None] when the clients
    directory does not exist, else the outcome of [os.ReadDir], one
    [IsDir] flag per entry. *)
Record Disk := mkDisk {
  userFiles : string -> option (result string (list Z));
  clientEntries : string -> option (result string (list bool))
}.

Definition CalculateUsage (disk : Disk) (userID : string) : result string Z :=
  match userFiles disk userID with
  | None => Ok 0
  | Some (Err e) => Err ("failed to calculate storage usage: " ++ e)%string
  | Some (Ok sizes) =>
    Ok (fold_left (fun totalSize size => wrap64 (totalSize + size)) sizes 0)
  end.

Definition CountClients (disk : Disk) (userID : string) : result string Z :=
  match clientEntries disk userID with
  | None => Ok 0
  | Some (Err e) => Err ("failed to read clients directory: " ++ e)%string
  | Some (Ok dirs) =>
    Ok (fold_left (fun count isDir => if isDir : bool then count + 1 else count) dirs 0)
  end.

Definition calculateQuota (r : FileQuotaRepository) (disk : Disk) (userID : string)
  : result string Quota :=
  let quota := NewQuota userID (maxStoragePerUser r) (maxClientsPerUser r) in
  match CalculateUsage disk userID with
  | Err e => Err e
  | Ok usedBytes =>
    match CountClients disk userID with
    | Err e => Err e
    | Ok clientsCount => Ok (UpdateUsage quota usedBytes clientsCount)
    end
  end.

Definition withCache (r : FileQuotaRepository) (c : gmap string quotaCache)
  : FileQuotaRepository :=
  {| maxStoragePerUser := maxStoragePerUser r;
     maxClientsPerUser := maxClientsPerUser r;
     cache := c; cacheTTL := cacheTTL r |}.

(** [GetQuota]: [now] is the clock when the cache entry is checked,
    [stored] the clock when a fresh entry is stored. *)
Definition GetQuota (r : FileQuotaRepository) (disk : Disk) (now stored : Z)
    (userID : string) : result string Quota * FileQuotaRepository :=
  let fresh :=
    match calculateQuota r disk userID with
    | Err e => (Err e, r)
    | Ok q =>
      (Ok q,
       withCache r (<[userID := {| quota := q; expiresAt := stored + cacheTTL r |}]>
                      (cache r)))
    end in
  match cache r !! userID with
  | Some c => if now <? expiresAt c then (Ok (quota c), r) else fresh
  | None => fresh
  end.

Definition InvalidateCache (r : FileQuotaRepository) (userID : string)
  : FileQuotaRepository :=
  withCache r (delete userID (cache r)).

End QuotaRepo.

(** ** service: batch operations on clients *)

Module ClientBatch.
Import GoStrings ClientService.

Record ClientBatchRequest := mkClientBatchRequest {
  ClientIDs : list string;
  All : bool
}.

Record ClientBatchResult := mkClientBatchResult {
  b_ClientID : string;
  b_Success : bool;
  b_Message : string
}.

Record ClientBatchResponse := mkClientBatchResponse {
  b_Total : Z;
  b_Successful : Z;
  b_Failed : Z;
  b_Results : list ClientBatchResult
}.

(** The loop over the requested identifiers: each is trimmed; a blank one
    and one already in [seen] are skipped. *)
Fixpoint collectIDs (ids : list string) (seen : gset string) : list string :=
  match ids with
  | [] => []
  | id :: rest =>
    let trimmed := TrimSpace id in
    if String.eqb trimmed "" then collectIDs rest seen
    else if decide (trimmed ∈ seen) then collectIDs rest seen
    else trimmed :: collectIDs rest ({[trimmed]} ∪ seen)
  end.

Section Service.

(** The state the service works on (client repository and process
    service), and the calls the batch functions make on it:
    [clientRepo.GetByUserID], [clientRepo.Get], [s.Start] and [s.Stop]
    ([None] is a nil error).  The repository hands out no nil client. *)
Variable World : Type.
Variable GetByUserID : World -> string -> result string (list Client).
Variable Get : World -> string -> result string Client.
Variable Start : World -> string -> World * option string.
Variable Stop : World -> string -> World * option string.

(** [getBatchTargetClientIDs]; a nil request is [None]. *)
Definition getBatchTargetClientIDs (w : World) (userID : string)
    (req : option ClientBatchRequest) : result string (list string) :=
  match req with
  | None => Ok []
  | Some req =>
    if All req || (length (ClientIDs req) =? 0)%nat
    then match GetByUserID w userID with
         | Err e => Err ("failed to list clients: " ++ e)%string
         | Ok clients => Ok (map ID clients)
         end
    else Ok (collectIDs (ClientIDs req) ∅)
  end.

Definition failedResult (response : ClientBatchResponse) (clientID message : string)
  : ClientBatchResponse :=
  {| b_Total := b_Total response; b_Successful := b_Successful response;
     b_Failed := b_Failed response + 1;
     b_Results := b_Results response
                  ++ [{| b_ClientID := clientID; b_Success := false;
                         b_Message := message |}] |}.

Definition succeededResult (response : ClientBatchResponse) (clientID : string)
  : ClientBatchResponse :=
  {| b_Total := b_Total response; b_Successful := b_Successful response + 1;
     b_Failed := b_Failed response;
     b_Results := b_Results response
                  ++ [{| b_ClientID := clientID; b_Success := true;
                         b_Message := "" |}] |}.

(** The loop shared, word for word, by [BatchStart] and [BatchStop];
    [operate] is [s.Start] in the one and [s.Stop] in the other. *)
Fixpoint batchLoop (operate : World -> string -> World * option string)
    (userID : string) (clientIDs : list string) (w : World)
    (response : ClientBatchResponse) : World * ClientBatchResponse :=
  match clientIDs with
  | [] => (w, response)
  | clientID :: rest =>
    match Get w clientID with
    | Err e =>
      batchLoop operate userID rest w
        (failedResult response clientID ("failed to load client: " ++ e)%string)
    | Ok client =>
      if negb (String.eqb (OwnerID client) userID)
      then batchLoop operate userID rest w
             (failedResult response clientID "client does not belong to current user")
      else
        match operate w clientID with
        | (w', Some e) => batchLoop operate userID rest w' (failedResult response clientID e)
        | (w', None) => batchLoop operate userID rest w' (succeededResult response clientID)
        end
    end
  end.

Definition batch (operate : World -> string -> World * option string)
    (w : World) (userID : string) (req : option ClientBatchRequest)
  : World * result string ClientBatchResponse :=
  match getBatchTargetClientIDs w userID req with
  | Err e => (w, Err e)
  | Ok clientIDs =>
    let response :=
      {| b_Total := Z.of_nat (length clientIDs); b_Successful := 0; b_Failed := 0;
         b_Results := [] |} in
    if (length clientIDs =? 0)%nat then (w, Ok response)
    else
      let '(w', response') := batchLoop operate userID clientIDs w response in
      (w', Ok response')
  end.

Definition BatchStart (w : World) (userID : string) (req : option ClientBatchRequest)
  : World * result string ClientBatchResponse :=
  batch Start w userID req.

Definition BatchStop (w : World) (userID : string) (req : option ClientBatchRequest)
  : World * result string ClientBatchResponse :=
  batch Stop w userID req.

End Service.

End ClientBatch.

(** ** repository: the retention sweep *)

Module Retention.
Import EventRepo.

Section Sweep.

(** [time.Parse] with the layout [2006-01-02] on a directory name, and
    [time.Now().AddDate(0, 0, -retentionDays)], both as instants. *)
Variable parseDate : string -> option Z.
Variable cutoffDate : Z -> Z.

(** The loop over the date directories: [os.RemoveAll] on each one whose
    name is a date before the cut-off. *)
Fixpoint sweepDateDirs (dirs : list (string * Dir)) (cutoff : Z)
  : list (string * Dir) :=
  match dirs with
  | [] => []
  | (name, d) :: rest =>
    match parseDate name with
    | None => (name, d) :: sweepDateDirs rest cutoff
    | Some dirDate =>
      if dirDate <? cutoff then sweepDateDirs rest cutoff
      else (name, d) :: sweepDateDirs rest cutoff
    end
  end.

Definition CleanupOldEvents (fs : Store) (clientID : string) (retentionDays : Z)
  : Store * option DeleteError :=
  if retentionDays =? 0 then (fs, None)
  else
    match fs !! clientID with
    | None => (fs, Some ErrNotExist)
    | Some dir =>
      (<[clientID := {| flat := flat dir;
                        dateDirs := sweepDateDirs (dateDirs dir)
                                      (cutoffDate retentionDays) |}]> fs,
       None)
    end.

End Sweep.

End Retention.

(** ** service: replaying stored events *)

Module Replay.
Import Event.

Record EventReplayResult := mkEventReplayResult {
  EventID : string;
  Success : bool;
  r_StatusCode : Z;
  r_LatencyMs : Z;
  r_ErrorMessage : string
}.

Record EventReplayResponse := mkEventReplayResponse {
  Total : Z;
  Successful : Z;
  Failed : Z;
  Results : list EventReplayResult
}.

(** What comes of posting one stored event to the target: the request
    could not be built, the round trip failed (a timeout included), or an
    answer came back after some milliseconds. *)
Inductive Exchange :=
| RequestFailed (cause : string)
| SendFailed (cause : string)
| Responded (status latency : Z) (body : string).

Section Service.

(** The outside of the service for one client: the event repository's
    [Get], the HTTP exchange for an event (which moves the world on), and
    the decimal rendering [%d]. *)
Variable World : Type.
Variable getEvent : World -> string -> result string Event.
Variable exchange : World -> Event -> Exchange * World.
Variable formatInt : Z -> string.

Definition replayEvent (w : World) (eventID : string) : EventReplayResult * World :=
  match getEvent w eventID with
  | Err e =>
    ({| EventID := eventID; Success := false; r_StatusCode := 0; r_LatencyMs := 0;
        r_ErrorMessage := ("failed to get event: " ++ e)%string |}, w)
  | Ok event =>
    match exchange w event with
    | (RequestFailed e, w') =>
      ({| EventID := eventID; Success := false; r_StatusCode := 0; r_LatencyMs := 0;
          r_ErrorMessage := ("failed to create request: " ++ e)%string |}, w')
    | (SendFailed e, w') =>
      ({| EventID := eventID; Success := false; r_StatusCode := 0; r_LatencyMs := 0;
          r_ErrorMessage := ("failed to send request: " ++ e)%string |}, w')
    | (Responded status latency body, w') =>
      let ok := (200 <=? status) && (status <? 300) in
      ({| EventID := eventID; Success := ok; r_StatusCode := status;
          r_LatencyMs := latency;
          r_ErrorMessage :=
            if ok then ""
            else ("HTTP " ++ formatInt status ++ ": " ++ body)%string |}, w')
    end
  end.

(** The loop of [Replay]: one result per identifier, appended in order,
    and one of the two counters moved. *)
Fixpoint replayAll (w : World) (eventIDs : list string)
    (response : EventReplayResponse) : EventReplayResponse * World :=
  match eventIDs with
  | [] => (response, w)
  | eventID :: rest =>
    let '(result, w') := replayEvent w eventID in
    replayAll w' rest
      {| Total := Total response;
         Successful :=
           if Success result then Successful response + 1 else Successful response;
         Failed := if Success result then Failed response else Failed response + 1;
         Results := Results response ++ [result] |}
  end.

(** [Replay]: [clientError] is the error of [clientRepo.Get], if any. *)
Definition Replay (w : World) (clientError : option string) (eventIDs : list string)
  : result string EventReplayResponse * World :=
  match clientError with
  | Some e => (Err ("failed to get client: " ++ e)%string, w)
  | None =>
    let '(response, w') :=
      replayAll w eventIDs
        {| Total := Z.of_nat (length eventIDs); Successful := 0; Failed := 0;
           Results := [] |} in
    (Ok response, w')
  end.

End Service.

End Replay.

(** ** service: log files and live log streams *)

Module LogService.
Import GoStrings EventRepo LogHub ProcessService.

(** What [GetLogs] finds at the path of a log file: nothing, a file that
    cannot be opened, or the lines the scanner yields and the error it
    ends with, if any. *)
Inductive LogFile :=
| NoLogFile
| OpenFailed (cause : string)
| Scanned (lines : list string) (scanErr : option string).

Inductive LogsOutcome :=
| LogsPanic
| LogsError (cause : string)
| LogsOk (logs : list string) (total : Z).

(** The scan loop: the lines that pass the search filter.  [ToLower] is
    [strings.ToLower], left open. *)
Fixpoint matchingLines (ToLower : string -> string) (lines : list string)
    (search : string) : list string :=
  match lines with
  | [] => []
  | line :: rest =>
    if negb (String.eqb search "") && negb (Contains (ToLower line) (ToLower search))
    then matchingLines ToLower rest search
    else line :: matchingLines ToLower rest search
  end.

Section Service.

(** [strings.ToLower]; whether [time.Parse] accepts the date; and the
    file system under the base directory, by user, client and date. *)
Variable ToLower : string -> string.
Variable validDate : string -> bool.
Variable logFileAt : string -> string -> string -> LogFile.

Definition getLogFile (userID clientID date : string) : result string LogFile :=
  if validDate date then Ok (logFileAt userID clientID date)
  else Err ("invalid date format: " ++ date)%string.

Definition GetLogs (userID clientID date : string) (page pageSize : Z) (search : string)
  : LogsOutcome :=
  match getLogFile userID clientID date with
  | Err e => LogsError e
  | Ok NoLogFile => LogsOk [] 0
  | Ok (OpenFailed e) => LogsError ("failed to open log file: " ++ e)%string
  | Ok (Scanned lines scanErr) =>
    let allLines := matchingLines ToLower lines search in
    match scanErr with
    | Some e => LogsError ("failed to read log file: " ++ e)%string
    | None =>
      let total := Z.of_nat (length allLines) in
      let start := wrap64 ((page - 1) * pageSize) in
      let end_ := wrap64 (start + pageSize) in
      if total <=? start then LogsOk [] total
      else
        let end_ := if total <? end_ then total else end_ in
        match sliceRange allLines start end_ with
        | None => LogsPanic
        | Some paged => LogsOk paged total
        end
    end
  end.

(** The clamps of [LogHandler.GetLogs] on what [strconv.Atoi] returned
    for the query strings [page] and [pageSize]. *)
Definition handlerPage (page : Z) : Z := if page <? 1 then 1 else page.

Definition handlerPageSize (pageSize : Z) : Z :=
  if (pageSize <? 1) || (1000 <? pageSize) then 100 else pageSize.

(** [LogHandler.GetLogs] for a request that names a date. *)
Definition HandleGetLogs (userID clientID date : string) (page pageSize : Z)
    (search : string) : LogsOutcome :=
  GetLogs userID clientID date (handlerPage page) (handlerPageSize pageSize) search.

End Service.

(** [processInfo.AddLogListener()] on the hub of the context at address
    [r]: the new channel joins the hub's subscribers. *)
Definition listenAt (s : ProcessService) (r : nat) (ctx : processContext)
  : ProcessService * nat :=
  let '(chans', info', logChan) := AddLogListener (chans s) (processInfo ctx) in
  let ctx' :=
    {| client := client ctx; cmd_Process := cmd_Process ctx;
       processInfo := info'; stopChan_closed := stopChan_closed ctx;
       restartCount := restartCount ctx |} in
  (withRegistry s (processes s) (<[r := ctx']> (ctxs s)) chans', logChan).

(** [StreamLogs]: the hub is the one [GetProcessInfo] finds for the
    client; a client that is not registered gets an error and no channel. *)
Definition StreamLogs (s : ProcessService) (clientID : string)
  : ProcessService * result string nat :=
  match processes s !! clientID with
  | None => (s, Err ("client not running: " ++ clientID)%string)
  | Some r =>
    match ctxs s !! r with
    | None => (s, Err ("client not running: " ++ clientID)%string)
    | Some ctx => let '(s', logChan) := listenAt s r ctx in (s', Ok logChan)
    end
  end.

End LogService.

(** ** service: the supervisor's log collectors and shutdown *)

Module Supervision.
Import LogHub ProcessService.

(** One turn of the scan loop of [collectLogs] on the context at address
    [r]: the formatted line goes to the context's log hub. *)
Definition collectLine (s : ProcessService) (r : nat) (logLine : string)
  : Outcome ProcessService :=
  match ctxs s !! r with
  | None => Done s
  | Some ctx =>
    '(chans', info') ← AddLog (chans s) (processInfo ctx) logLine;
    let ctx' :=
      {| client := client ctx; cmd_Process := cmd_Process ctx;
         processInfo := info'; stopChan_closed := stopChan_closed ctx;
         restartCount := restartCount ctx |} in
    Done (withRegistry s (processes s) (<[r := ctx']> (ctxs s)) chans')
  end.

(** The second loop of [StopAll]: [Stop] on each collected key, its error
    dropped. *)
Fixpoint stopEach (s : ProcessService) (clientIDs : list string)
  : Outcome ProcessService :=
  match clientIDs with
  | [] => Done s
  | clientID :: rest => '(s', _) ← Stop s clientID; stopEach s' rest
  end.

(** [StopAll]: the keys of the registry, in the order the map iteration
    [order] yields them, are stopped one by one. *)
Definition StopAll (order : list string -> list string) (s : ProcessService)
  : Outcome ProcessService :=
  stopEach s (order (map fst (map_to_list (processes s)))).

End Supervision.

(** ** The two on-disk conventions of one event, as the format notes
    describe them *)

Module EventShapes.
Import Json.

(** The data of one event, before it is written in either convention. *)
Record EventFields := mkEventFields {
  ef_id : string;
  ef_clientId : string;
  ef_timestamp : string;
  ef_eventType : string;
  ef_source : string;
  ef_status : string;
  ef_statusCode : Z;
  ef_latencyMs : Z
}.

Definition jint (z : Z) : json := JNum (inject_Z z).

(** The structured convention: canonical field names, all at top level. *)
Definition canonicalShape (d : EventFields) : gmap string json :=
  <["id" := JStr (ef_id d)]>
  (<["clientId" := JStr (ef_clientId d)]>
  (<["timestamp" := JStr (ef_timestamp d)]>
  (<["eventType" := JStr (ef_eventType d)]>
  (<["source" := JStr (ef_source d)]>
  (<["status" := JStr (ef_status d)]>
  (<["statusCode" := jint (ef_statusCode d)]>
  (<["latencyMs" := jint (ef_latencyMs d)]> ∅))))))).

(** The legacy convention: snake_case names, and the response metadata
    (status code, latency) under a separate [response] object. *)
Definition legacyResponse (d : EventFields) : gmap string json :=
  <["status_code" := jint (ef_statusCode d)]>
  (<["latency_ms" := jint (ef_latencyMs d)]> ∅).

Definition legacyShape (d : EventFields) : gmap string json :=
  <["id" := JStr (ef_id d)]>
  (<["client_id" := JStr (ef_clientId d)]>
  (<["created_at" := JStr (ef_timestamp d)]>
  (<["event_type" := JStr (ef_eventType d)]>
  (<["source" := JStr (ef_source d)]>
  (<["forward_status" := JStr (ef_status d)]>
  (<["response" := JObj (legacyResponse d)]> ∅)))))).

End EventShapes.

(** ** Sample inputs and the vocabulary of the statements *)

Module QuotaSamples.
Import Quota ClientService.

Definition fullQuota : Quota :=
  UpdateUsage (NewQuota "u1" 1000 10) 1000 0.

Definition fullEnv : Env :=
  {| GetQuota := fun _ => Ok fullQuota; newUUID := "c-1"; now := 5;
     repoCreate := fun _ => None |}.

Definition someRequest : ClientRequest :=
  {| rq_Name := "n"; rq_Description := ""; rq_SmeeURL := "https://smee/x";
     rq_TargetURL := "http://t"; rq_TargetTimeout := 0; rq_HTTPie := false;
     rq_IgnoreEvents := []; rq_NoReplay := false; rq_SSEBufferSize := 0 |}.

End QuotaSamples.

Module DecodeSpec.
Import GoStrings Json Event EventRepo EventShapes.





(** The timestamp and the two integers of a summary, read off the raw
    document the way [UnmarshalJSON] does for a zero receiver. *)
Definition readTimestamp (Sprint : json -> string) (parseRFC3339 : string -> option Z)
    (raw : gmap string json) : Z :=
  let ts := firstNonEmptyString Sprint raw ["timestamp"; "time"; "created_at"] in
  if nonEmpty ts then match parseRFC3339 ts with Some p => p | None => 0 end else 0.

Definition readInt (raw : gmap string json) (keys : list string) (nested : string) : Z :=
  let v := firstNonZeroInt raw keys in
  if (0 <? size (extractMap raw "response"))%nat && (v =? 0)
  then firstNonZeroInt (extractMap raw "response") [nested] else v.

(** Stand-ins for the Go library in closed examples; none of the example
    documents makes the decoder call them on a value that matters. *)
Definition plainSprint (j : json) : string := "".
Definition noTime (s : string) : option Z := None.

Definition negativeCodeFile : FileFacts :=
  {| f_stem := "ev-1"; f_clientDir := "client-1"; f_modTime := Some 77;
     f_data := "{ statusCode: -1 }";
     f_doc := Some (JObj (<["statusCode" := jint (-1)]> ∅));
     f_scriptHeaders := ∅ |}.

Definition legacy200File : FileFacts :=
  {| f_stem := "ev-2"; f_clientDir := "client-1"; f_modTime := Some 78;
     f_data := "";
     f_doc := Some (JObj (<["event_type" := JStr "push"]>
                (<["response" := JObj (<["status_code" := jint 200]> ∅)]> ∅)));
     f_scriptHeaders := ∅ |}.

Definition sampleFields : EventFields :=
  {| ef_id := "ev-3"; ef_clientId := "client-1";
     ef_timestamp := "2025-10-01T10:30:00Z"; ef_eventType := "push";
     ef_source := "github.com/org/repo"; ef_status := "";
     ef_statusCode := 502; ef_latencyMs := 12 |}.

End DecodeSpec.

Module ListSpec.
Import GoStrings Json Event EventRepo.

(** The inclusive range test of [filterEvents]; a zero bound is unset. *)
Definition inRangeInclusive (from to t : Z) : bool :=
  ((from =? 0) || (from <=? t)) && ((to =? 0) || (t <=? to)).

(** The half-open range [from <= t < to]. *)
Definition inRangeHalfOpen (from to t : Z) : bool :=
  (from <=? t) && (t <? to).

(** Two elements are tied when neither is less than the other. *)
Definition tiedWith {A} (less : A -> A -> bool) (r e : A) : bool :=
  negb (less e r) && negb (less r e).

(** A sort is stable when the elements tied with any given one come out
    in the order they went in. *)
Definition stableOn {A} (less : A -> A -> bool) (input output : list A) : Prop :=
  forall r, List.filter (tiedWith less r) output = List.filter (tiedWith less r) input.

(** The comparison [sortEvents] uses for every direction but "asc". *)
Definition greaterEq {A} (less : A -> A -> bool) (a b : A) : bool :=
  negb (less a b).

(** A sorted prefix, read from the insertion point leftwards, that never
    goes down. *)
Definition nonDecreasing {A} (less : A -> A -> bool) (rp : list A) : Prop :=
  StronglySorted (fun a b => less b a = false) rp.

(** The outer loop of the insertion sort, started on a prefix already in
    place. *)
Definition run {A} (cmp : A -> A -> bool) (data rp : list A) : list A :=
  fold_left (fun rp x => insertLeft cmp x rp) data rp.

Definition eventAt (id : string) (t : Z) : Event :=
  {| ID := id; ClientID := "client-1"; Timestamp := t; EventType := "push";
     Source := "github.com/org/repo"; Status := EventStatusSuccess;
     StatusCode := 200; LatencyMs := 3; Headers := ∅; Payload := "";
     Response := ""; ErrorMessage := "" |}.

Definition rangeRequest (page pageSize from to : Z) (sortOrder : string)
  : EventListRequest :=
  {| Page := page; PageSize := pageSize; q_EventType := ""; q_Status := "";
     Search := ""; DateFrom := from; DateTo := to;
     SortBy := "timestamp"; SortOrder := sortOrder |}.

(** A stand-in for [strings.ToLower] in closed examples, all of which
    hold ASCII text only: there the library lower-cases the letters A to Z
    and leaves every other byte as it is. *)
Fixpoint asciiLower (s : string) : string :=
  match s with
  | EmptyString => EmptyString
  | String c s' =>
    let n := nat_of_ascii c in
    String (if ((65 <=? n)%nat && (n <=? 90)%nat) then ascii_of_nat (n + 32) else c)
      (asciiLower s')
  end.

(** A stand-in for the long-slice sort in closed examples, all of which
    sort at most [maxInsertion] events. *)
Definition unsorted (less : Event -> Event -> bool) (data : list Event) : list Event :=
  data.

End ListSpec.

Module DeleteSpec.
Import EventRepo.

(** How many stored records of an event a directory tree holds. *)
Definition holds (d : Dir) (eventID : string) : nat :=
  if decide (eventID ∈ jsons d) then 1%nat else 0%nat.

Fixpoint holdsInDateDirs (dirs : list (string * Dir)) (eventID : string) : nat :=
  match dirs with
  | [] => 0%nat
  | (_, d) :: rest => (holds d eventID + holdsInDateDirs rest eventID)%nat
  end.

Definition copies (dir : EventsDir) (eventID : string) : nat :=
  (holds (flat dir) eventID + holdsInDateDirs (dateDirs dir) eventID)%nat.

Definition copiesIn (fs : Store) (clientID eventID : string) : nat :=
  match fs !! clientID with
  | Some dir => copies dir eventID
  | None => 0%nat
  end.

(** One client with two flat events and one event in a day directory. *)
Definition sampleStore : Store :=
  {[ "client-1" :=
       {| flat := {| jsons := {[ "e1"; "e2" ]}; scripts := {[ "e1" ]} |};
          dateDirs := [("2025-10-01", {| jsons := {[ "e3" ]}; scripts := ∅ |})] |} ]}.

End DeleteSpec.

Module LogHubSamples.
Import LogHub.

(** Two subscribers: channel 1 has room, channel 2 (capacity 2) is full. *)
Definition twoListeners : Chans :=
  <[1%nat := {| buf := ["line 2"]; cap := 100; closed := false |}]>
  (<[2%nat := {| buf := ["line 1"; "line 2"]; cap := 2; closed := false |}]> ∅).

Definition twoListenersHub : ProcessInfo :=
  {| ClientID := "client-1"; PID := 4242;
     Status := ClientService.ClientStatusRunning; StartedAt := 100;
     RestartCount := 0; LastError := "";
     LogLines := ["line 1"; "line 2"]; LogListeners := [1%nat; 2%nat] |}.

End LogHubSamples.

Module SupervisorSamples.
Import LogHub ProcessService.

(** A service with auto-restart enabled, and one client started on it. *)
Definition emptyService : ProcessService := NewProcessService true 3.

Definition started : ProcessService :=
  fst (Start emptyService 100 "client-1" (Spawned 4242)).

(** The address of the context [Start] registered. *)
Definition handle : nat := fresh (dom (ctxs emptyService)).

End SupervisorSamples.

Module QuotaRepoSamples.
Import Quota QuotaRepo.

(** A user with two client directories, one stray file beside them, and
    700 bytes in three files; and the same user later, with more of both. *)
Definition sampleDisk : Disk :=
  {| userFiles := fun _ => Some (Ok [300; 300; 100]);
     clientEntries := fun _ => Some (Ok [true; false; true]) |}.

Definition crowdedDisk : Disk :=
  {| userFiles := fun _ => Some (Ok [300; 300; 100; 5000]);
     clientEntries := fun _ => Some (Ok [true; false; true; true; true]) |}.

Definition twoClientsQuota : Quota :=
  UpdateUsage (NewQuota "u1" 1000 10) 700 2.

End QuotaRepoSamples.

Module ClientBatchSamples.
Import ClientService ClientBatch.

(** A world that is the list of the clients running: [c1] belongs to
    [u1], [c2] to [u2], no other client exists. *)
Definition sampleWorld : Type := list string.

Definition sampleClient (id owner : string) : Client :=
  NewClient 0 id owner "n" "" "https://smee/x" "http://t".

Definition sampleGet (w : sampleWorld) (id : string) : result string Client :=
  if String.eqb id "c1" then Ok (sampleClient "c1" "u1")
  else if String.eqb id "c2" then Ok (sampleClient "c2" "u2")
  else Err "client not found".

Definition sampleGetByUserID (w : sampleWorld) (userID : string)
  : result string (list Client) :=
  if String.eqb userID "u1" then Ok [sampleClient "c1" "u1"]
  else if String.eqb userID "u2" then Ok [sampleClient "c2" "u2"]
  else Ok [].

Definition sampleStart (w : sampleWorld) (id : string) : sampleWorld * option string :=
  if bool_decide (id ∈ w) then (w, Some "client already running")
  else (id :: w, None).

Definition sampleStop (w : sampleWorld) (id : string) : sampleWorld * option string :=
  if bool_decide (id ∈ w) then (List.filter (fun x => negb (String.eqb x id)) w, None)
  else (w, Some "client not running").

(** The numbers of results marked successful and marked failed. *)
Definition successes (results : list ClientBatchResult) : Z :=
  Z.of_nat (length (List.filter b_Success results)).

Definition failures (results : list ClientBatchResult) : Z :=
  Z.of_nat (length (List.filter (fun r => negb (b_Success r)) results)).

End ClientBatchSamples.

Module StoreSamples.
Import EventRepo.

(** A calendar of numbered days for closed examples: the directory
    [day-03] holds the events of day 3. *)
Definition dayNumber (name : string) : option Z :=
  if String.eqb name "day-03" then Some 3
  else if String.eqb name "day-15" then Some 15
  else None.

Definition datedStore : Store :=
  {[ "client-1" :=
       {| flat := {| jsons := {[ "e1" ]}; scripts := ∅ |};
          dateDirs := [("day-03", {| jsons := {[ "e2" ]}; scripts := ∅ |});
                       ("day-15", {| jsons := {[ "e3" ]}; scripts := ∅ |});
                       ("notes", {| jsons := {[ "e4" ]}; scripts := ∅ |})] |} ]}.

End StoreSamples.

Module ReplaySpec.
Import Replay.

(** What one replay reports: success exactly for an answer in the 2xx
    range, with no message; otherwise a message. *)
Definition wellReported (r : EventReplayResult) : Prop :=
  (Success r = true <-> 200 <= r_StatusCode r < 300) /\
  (Success r = true -> r_ErrorMessage r = "") /\
  (Success r = false -> r_ErrorMessage r <> "").

(** The numbers of results marked successful and marked failed. *)
Definition succeeded (results : list EventReplayResult) : Z :=
  Z.of_nat (length (List.filter Success results)).

Definition failed (results : list EventReplayResult) : Z :=
  Z.of_nat (length (List.filter (fun r => negb (Success r)) results)).

(** A target whose answers are scripted: the world is the list of the
    status codes still to come; only the event [e1] is stored. *)
Definition scriptedGet (w : list Z) (eventID : string) : result string Event.Event :=
  if String.eqb eventID "e1" then Ok Event.zeroEvent else Err "event not found".

Definition scriptedExchange (w : list Z) (event : Event.Event) : Exchange * list Z :=
  match w with
  | [] => (SendFailed "connection refused", [])
  | status :: rest => (Responded status 3 "body", rest)
  end.

End ReplaySpec.

Module LogSamples.

Definition sampleLog : list string :=
  ["a error"; "b info"; "c ERROR"; "d Error x"].

End LogSamples.

Module LogHubSpec.
Import LogHub.

(** A run of [AddLog] calls, one per line, with no receive in between. *)
Fixpoint addLogs (chans : Chans) (p : ProcessInfo) (lines : list string)
  : Outcome (Chans * ProcessInfo) :=
  match lines with
  | [] => Done (chans, p)
  | line :: rest => '(chans', p') ← AddLog chans p line; addLogs chans' p' rest
  end.

(** The channel [make(chan string, 100)] returns. *)
Definition newChan : Chan := {| buf := []; cap := 100; closed := false |}.

(** A hub with no subscriber yet. *)
Definition quietHub : ProcessInfo := NewProcessInfo 100 "client-1" 4242.

End LogHubSpec.

Module SupervisorSpec.
Import LogHub ProcessService LogService Supervision.

(** What the supervisor keeps true of its state: a registered key leads
    to a context whose process was started and whose stop channel is
    open; no two keys share a context; the subscribers of every hub are
    open, distinct channels; no channel subscribes to two hubs; and the
    restart counter stays within the configured maximum. *)
Record wellFormed (s : ProcessService) : Prop := mkWellFormed {
  wf_registered : forall key r, processes s !! key = Some r ->
    exists ctx, ctxs s !! r = Some ctx /\ stopChan_closed ctx = false /\
                is_Some (cmd_Process ctx);
  wf_one_handle : forall k1 k2 r,
    processes s !! k1 = Some r -> processes s !! k2 = Some r -> k1 = k2;
  wf_hubs : forall r ctx, ctxs s !! r = Some ctx ->
    listenersOpen (chans s) (processInfo ctx);
  wf_apart : forall r1 r2 ctx1 ctx2 ch,
    ctxs s !! r1 = Some ctx1 -> ctxs s !! r2 = Some ctx2 ->
    ch ∈ LogListeners (processInfo ctx1) -> ch ∈ LogListeners (processInfo ctx2) ->
    r1 = r2;
  wf_restarts : forall r ctx, ctxs s !! r = Some ctx ->
    0 <= restartCount ctx <= Z.max 0 (maxRestartCount s)
}.

(** A channel of the store that has been closed. *)
Definition closedIn (chs : Chans) (ch : nat) : Prop :=
  exists c, chs !! ch = Some c /\ closed c = true.

(** The steps that touch the supervisor's state, each atomic under the
    lock it takes: [Start], [Stop], the exit monitor of the context at an
    address, one collected log line for the context at an address, and a
    new subscriber on the hub of the context at an address.  [Restart],
    [StopAll] and [StreamLogs] are sequences of these. *)
Inductive Call :=
| CallStart (now : Z) (clientID : string) (os : Spawn)
| CallStop (clientID : string)
| ExitObserved (r : nat) (err : option string)
| LineCollected (r : nat) (logLine : string)
| Subscribed (r : nat).

Definition perform (s : ProcessService) (c : Call) : Outcome ProcessService :=
  match c with
  | CallStart now clientID os => Done (fst (Start s now clientID os))
  | CallStop clientID => '(s', _) ← Stop s clientID; Done s'
  | ExitObserved r err => Done (monitorProcess s r err)
  | LineCollected r logLine => collectLine s r logLine
  | Subscribed r =>
    match ctxs s !! r with
    | Some ctx => Done (fst (listenAt s r ctx))
    | None => Done s
    end
  end.

Fixpoint run (s : ProcessService) (calls : list Call) : Outcome ProcessService :=
  match calls with
  | [] => Done s
  | c :: rest => s' ← perform s c; run s' rest
  end.

End SupervisorSpec.

Module DecodeSamples.
Import Json EventRepo EventShapes.

(** A file that states a status none of the three constants names,
    beside a 2xx status code. *)
Definition oddStatusFile : FileFacts :=
  {| f_stem := "ev-4"; f_clientDir := "client-1"; f_modTime := Some 79;
     f_data := "";
     f_doc := Some (JObj (<["status" := JStr " queued "]>
                            (<["statusCode" := jint 200]> ∅)));
     f_scriptHeaders := ∅ |}.

(** A document that names the client and the status code twice, under
    the canonical and under the legacy name. *)
Definition bothNames : gmap string json :=
  <["clientId" := JStr "c-new"]>
  (<["client_id" := JStr "c-old"]>
  (<["statusCode" := JStr "201"]>
  (<["status_code" := jint 500]> ∅))).

(** A file whose content is not JSON. *)
Definition rawFile : FileFacts :=
  {| f_stem := "ev-5"; f_clientDir := "client-1"; f_modTime := Some 80;
     f_data := "  not json  "; f_doc := None; f_scriptHeaders := ∅ |}.

End DecodeSamples.

Module SortSpec.

(** A list in which no element is less than one before it, and one in
    which no element is less than one after it. *)
Definition ascending {A} (less : A -> A -> bool) (l : list A) : Prop :=
  StronglySorted (fun a b => less b a = false) l.

Definition descending {A} (less : A -> A -> bool) (l : list A) : Prop :=
  StronglySorted (fun a b => less a b = false) l.

End SortSpec.

(** Strings given by their bytes. *)
Module TrimSamples.

Definition bytes (l : list nat) : string :=
  fold_right (fun n s => String (ascii_of_nat n) s) EmptyString l.

End TrimSamples.

(** * Properties *)

(** ** Quota gate of client creation *)

Module QuotaFacts.
Import Quota ClientService QuotaSamples.

Lemma CanCreateClient_spec (q : Quota) :
  CanCreateClient q = true <-> ClientsCount q < MaxClients q.
Proof.
  unfold CanCreateClient, IsClientsLimitReached.
  rewrite negb_true_iff, Z.leb_gt. reflexivity.
Qed.

(** The storage figure plays no part in [CanCreateClient]. *)
Lemma CanCreateClient_ignores_storage (q : Quota) (used : Z) :
  CanCreateClient (UpdateUsage q used (ClientsCount q)) = CanCreateClient q.
Proof. reflexivity. Qed.

(** C1, as stated, fails: an owner at 100% of the storage quota (1000 of
    1000 bytes used, [IsStorageFull]) and below the client cap gets a new
    client; the repository is asked to save it. *)
Lemma C1_storage_full_still_creates :
  IsStorageFull fullQuota = true /\
  exists c, Create fullEnv "u1" someRequest
            = (Ok c, [RepoCreate c; InvalidateCache "u1"]).
Proof.
  split; [reflexivity |].
  eexists. reflexivity.
Qed.

(** C1, amended: creation is blocked with the client-limit error, before
    the repository is touched, exactly when the client count has reached
    the cap; below the cap the client is handed to the repository whatever
    the storage percentage is. *)
Theorem C1_create_blocked_iff_client_cap (env : Env) (userID : string)
    (req : ClientRequest) (q : Quota) :
  GetQuota env userID = Ok q ->
  (MaxClients q <= ClientsCount q ->
     Create env userID req
     = (Err (ClientLimitReached (ClientsCount q) (MaxClients q)), [])) /\
  (ClientsCount q < MaxClients q ->
     exists c, hd_error (snd (Create env userID req)) = Some (RepoCreate c) /\
       (fst (Create env userID req) = Ok c \/
        exists e, fst (Create env userID req) = Err (FailedToCreateClient e))).
Proof.
  intros Hq. unfold Create. rewrite Hq. split; intros H.
  - apply Z.leb_le in H.
    unfold CanCreateClient, IsClientsLimitReached. rewrite H. reflexivity.
  - apply CanCreateClient_spec in H. rewrite H. cbn [negb].
    match goal with |- context [repoCreate env ?c] => exists c end.
    destruct (repoCreate env _) as [e |]; cbn; split; eauto.
Qed.

Lemma C1_create_blocked_iff_client_cap_witness :
  GetQuota fullEnv "u1" = Ok fullQuota /\
  exists c, hd_error (snd (Create fullEnv "u1" someRequest)) = Some (RepoCreate c).
Proof.
  split; [reflexivity |].
  destruct (C1_create_blocked_iff_client_cap fullEnv "u1" someRequest fullQuota
              eq_refl) as [_ H].
  destruct (H ltac:(vm_compute; reflexivity)) as (c & Hc & _).
  exists c. exact Hc.
Defined.

End QuotaFacts.

(** ** Tolerant decoding of event files *)

Module DecodeFacts.
Import GoStrings Json Event EventRepo EventShapes DecodeSpec.

Ltac map_lookups :=
  repeat first
    [ rewrite lookup_insert_eq
    | rewrite lookup_insert_ne by discriminate
    | rewrite lookup_empty ].

Lemma size_insert_pos {A} (m : gmap string A) (k : string) (v : A) :
  (0 <? size (<[k := v]> m))%nat = true.
Proof.
  apply Nat.ltb_lt.
  pose proof (insert_non_empty m k v) as Hne.
  rewrite <- map_size_empty_iff in Hne. lia.
Qed.

Lemma nonEmpty_or_blank (s : string) : (if nonEmpty s then s else "") = s.
Proof.
  unfold nonEmpty. destruct (String.eqb s "") eqn:E; cbn; [| reflexivity].
  apply String.eqb_eq in E. congruence.
Qed.

Lemma nonZero_or_zero (z : Z) : (if z =? 0 then 0 else z) = z.
Proof. destruct (Z.eqb_spec z 0); congruence. Qed.

Section AnyLibrary.

Variable Sprint : json -> string.
Variable Marshal : json -> string.
Variable parseRFC3339 : string -> option Z.
Variable parseTimestampFromEventID : string -> option Z.

Local Abbreviation decode := (UnmarshalJSON Sprint Marshal parseRFC3339 zeroEvent).
Local Abbreviation readFile :=
  (readEventFile Sprint Marshal parseRFC3339 parseTimestampFromEventID).

(** The summary of a decoded document, field by field. *)
Lemma summary_of_decode (raw : gmap string json) :
  ToSummary (decode raw)
  = {| s_ID := extractString Sprint raw "id";
       s_Timestamp := readTimestamp Sprint parseRFC3339 raw;
       s_EventType := firstNonEmptyString Sprint raw ["eventType"; "event_type"];
       s_Source := extractString Sprint raw "source";
       s_Status :=
         inferStatus (firstNonEmptyString Sprint raw ["status"; "forward_status"])
           (readInt raw ["statusCode"; "status_code"] "status_code");
       s_StatusCode := readInt raw ["statusCode"; "status_code"] "status_code";
       s_LatencyMs := readInt raw ["latencyMs"; "latency_ms"] "latency_ms" |}.
Proof. reflexivity. Qed.

Ltac read_shape :=
  unfold readTimestamp, readInt, firstNonEmptyString, extractString, firstNonZeroInt,
    extractMap, canonicalShape, legacyShape, legacyResponse;
  map_lookups; cbn [toString toMap];
  rewrite ?size_insert_pos, ?map_size_empty;
  map_lookups;
  cbn [andb Nat.ltb Nat.leb nonEmpty String.eqb negb Z.eqb];
  rewrite ?nonEmpty_or_blank, ?nonZero_or_zero.

(** What the decoder reads from the structured convention. *)
Lemma canonical_summary (d : EventFields) :
  ToSummary (decode (canonicalShape d))
  = {| s_ID := TrimSpace (ef_id d);
       s_Timestamp :=
         if nonEmpty (TrimSpace (ef_timestamp d))
         then match parseRFC3339 (TrimSpace (ef_timestamp d)) with
              | Some p => p
              | None => 0
              end
         else 0;
       s_EventType := TrimSpace (ef_eventType d);
       s_Source := TrimSpace (ef_source d);
       s_Status :=
         inferStatus (TrimSpace (ef_status d)) (toInt (jint (ef_statusCode d)));
       s_StatusCode := toInt (jint (ef_statusCode d));
       s_LatencyMs := toInt (jint (ef_latencyMs d)) |}.
Proof.
  rewrite summary_of_decode. f_equal; read_shape; reflexivity.
Qed.

(** What the decoder reads from the legacy convention: the alternate
    names are coalesced and the integers come out of the nested object. *)
Lemma legacy_summary (d : EventFields) :
  ToSummary (decode (legacyShape d))
  = {| s_ID := TrimSpace (ef_id d);
       s_Timestamp :=
         if nonEmpty (TrimSpace (ef_timestamp d))
         then match parseRFC3339 (TrimSpace (ef_timestamp d)) with
              | Some p => p
              | None => 0
              end
         else 0;
       s_EventType := TrimSpace (ef_eventType d);
       s_Source := TrimSpace (ef_source d);
       s_Status :=
         inferStatus (TrimSpace (ef_status d)) (toInt (jint (ef_statusCode d)));
       s_StatusCode := toInt (jint (ef_statusCode d));
       s_LatencyMs := toInt (jint (ef_latencyMs d)) |}.
Proof.
  rewrite summary_of_decode. f_equal; read_shape; reflexivity.
Qed.

(** C5: one event written in the structured convention and in the legacy
    convention decodes to the same summary: event type, source, status,
    status code and latency agree (and so do identifier and timestamp). *)
Theorem C5_legacy_and_canonical_summaries_agree (d : EventFields) :
  let legacy := ToSummary (decode (legacyShape d)) in
  let canonical := ToSummary (decode (canonicalShape d)) in
  s_EventType legacy = s_EventType canonical /\
  s_Source legacy = s_Source canonical /\
  s_Status legacy = s_Status canonical /\
  s_StatusCode legacy = s_StatusCode canonical /\
  s_LatencyMs legacy = s_LatencyMs canonical /\
  legacy = canonical.
Proof.
  cbv zeta. rewrite legacy_summary, canonical_summary. repeat split.
Qed.


Lemma decode_status (raw : gmap string json) :
  Status (decode raw)
  = inferStatus (firstNonEmptyString Sprint raw ["status"; "forward_status"])
      (StatusCode (decode raw)).
Proof. reflexivity. Qed.

Lemma enrich_status (e : Event) (f : FileFacts) :
  Status (enrichEventFromPath parseTimestampFromEventID e f)
  = if nonEmpty (Status e) then Status e else EventStatusNotReplayed.
Proof. reflexivity. Qed.

Lemma enrich_statusCode (e : Event) (f : FileFacts) :
  StatusCode (enrichEventFromPath parseTimestampFromEventID e f) = StatusCode e.
Proof. reflexivity. Qed.





End AnyLibrary.



(** The scenario of the format notes: a legacy file with HTTP status 200
    decodes to success with status code 200 and a non-zero timestamp. *)
Example legacy200_decodes_to_success :
  exists ev, readEventFile plainSprint plainSprint noTime noTime (Some legacy200File)
             = Ok ev /\
             Status ev = EventStatusSuccess /\ StatusCode ev = 200 /\
             Timestamp ev = 78 /\ Event.EventType ev = "push".
Proof. eexists; split; [reflexivity |]. repeat split; vm_compute; reflexivity. Qed.

(** One event with HTTP status 502 and no status string, in both
    conventions: failed, 502, 12 ms either way. *)
Example sampleFields_decode_alike :
  let legacy :=
    ToSummary (UnmarshalJSON plainSprint plainSprint noTime zeroEvent
                 (legacyShape sampleFields)) in
  let canonical :=
    ToSummary (UnmarshalJSON plainSprint plainSprint noTime zeroEvent
                 (canonicalShape sampleFields)) in
  legacy = canonical /\
  s_Status legacy = EventStatusFailed /\ s_StatusCode legacy = 502 /\
  s_LatencyMs legacy = 12 /\ s_EventType legacy = "push".
Proof. vm_compute. repeat split. Qed.

(** The negative code reads the same whatever the library prints. *)
Lemma negative_code_any_library (Sprint Marshal : json -> string)
    (parse parseID : string -> option Z) :
  exists ev, readEventFile Sprint Marshal parse parseID (Some negativeCodeFile) = Ok ev /\
             StatusCode ev = -1 /\ Status ev = EventStatusNotReplayed.
Proof.
  eexists; split; [reflexivity |].
  rewrite enrich_status, enrich_statusCode, decode_status.
  assert (Hc : StatusCode (UnmarshalJSON Sprint Marshal parse zeroEvent
                 (<["statusCode" := jint (-1)]> ∅)) = -1).
  { cbn [StatusCode UnmarshalJSON]. unfold firstNonZeroInt, extractMap.
    map_lookups. rewrite map_size_empty. reflexivity. }
  rewrite Hc. split; [reflexivity |].
  unfold firstNonEmptyString, extractString. map_lookups. reflexivity.
Qed.

End DecodeFacts.

(** ** Listing events: filter, sort, paginate *)

Module ListFacts.
Import GoStrings Json Event EventRepo ListSpec.

Section Filter.

Variable ToLower : string -> string.

(** *** The timestamp range *)

Lemma keepEvent_range_only (req : EventListRequest) (e : Event) :
  q_EventType req = "" -> q_Status req = "" -> Search req = "" ->
  keepEvent ToLower req e
  = inRangeInclusive (DateFrom req) (DateTo req) (Timestamp e).
Proof.
  intros Ht Hs Hq. unfold keepEvent, inRangeInclusive, IsZero.
  rewrite Ht, Hs, Hq. cbn [nonEmpty String.eqb negb andb].
  destruct (DateFrom req =? 0), (DateTo req =? 0); cbn [negb andb orb];
    rewrite ?Z.leb_antisym;
    destruct (Timestamp e <? DateFrom req), (DateTo req <? Timestamp e);
    reflexivity.
Qed.

Lemma filterEvents_filter (events : list Event) (req : EventListRequest) :
  filterEvents ToLower events req = List.filter (keepEvent ToLower req) events.
Proof.
  induction events as [| e events IH]; cbn; [reflexivity |].
  rewrite IH. reflexivity.
Qed.

(** With only a timestamp range in the request, the filter keeps exactly
    the events with [from <= t <= to], both ends included, in their
    order; a zero [from] or [to] leaves that side open. *)
Lemma filterEvents_range_only (events : list Event) (req : EventListRequest) :
  q_EventType req = "" -> q_Status req = "" -> Search req = "" ->
  filterEvents ToLower events req
  = List.filter
      (fun e => inRangeInclusive (DateFrom req) (DateTo req) (Timestamp e))
      events.
Proof.
  intros Ht Hs Hq. rewrite filterEvents_filter.
  apply List.filter_ext. intros e. apply keepEvent_range_only; assumption.
Qed.

(** With both bounds set, membership in the filtered list. *)
Corollary range_membership (events : list Event) (req : EventListRequest) (e : Event) :
  q_EventType req = "" -> q_Status req = "" -> Search req = "" ->
  DateFrom req <> 0 -> DateTo req <> 0 ->
  In e (filterEvents ToLower events req)
  <-> In e events /\ DateFrom req <= Timestamp e <= DateTo req.
Proof.
  intros Ht Hs Hq Hf Hto. rewrite filterEvents_filter, List.filter_In.
  rewrite (keepEvent_range_only req e Ht Hs Hq). unfold inRangeInclusive.
  apply Z.eqb_neq in Hf, Hto. rewrite Hf, Hto. cbn [orb].
  rewrite andb_true_iff, !Z.leb_le. tauto.
Qed.

End Filter.

End ListFacts.

(** ** Sorting *)

Module SortFacts.
Import GoStrings Json Event EventRepo ListSpec.

(** *** Insertion sort over a strict weak order *)

Section InsertionSort.

Context {A : Type}.
Variable less : A -> A -> bool.

Hypothesis less_irrefl : forall a, less a a = false.
Hypothesis less_trans :
  forall a b c, less a b = true -> less b c = true -> less a c = true.
Hypothesis less_split :
  forall a b c, less a b = true -> less a c = true \/ less c b = true.

Local Abbreviation greaterEq := (greaterEq less).
Local Abbreviation nonDecreasing := (nonDecreasing less).

(** Tied elements are never in [less] relation. *)
Lemma tied_not_less (r x y : A) :
  tiedWith less r x = true -> tiedWith less r y = true -> less x y = false.
Proof.
  unfold tiedWith. rewrite !andb_true_iff, !negb_true_iff.
  intros [Hxr Hrx] [Hyr Hry].
  destruct (less x y) eqn:Hxy; [| reflexivity].
  destruct (less_split x y r Hxy); congruence.
Qed.

Lemma In_insertLeft (cmp : A -> A -> bool) (x z : A) (rp : list A) :
  In z (insertLeft cmp x rp) <-> z = x \/ In z rp.
Proof.
  induction rp as [| y rp IH]; cbn.
  - intuition.
  - destruct (cmp x y); cbn; rewrite ?IH; intuition.
Qed.

Lemma filter_cons_app (f : A -> bool) (x : A) (l : list A) :
  List.filter f (x :: l) = List.filter f [x] ++ List.filter f l.
Proof. cbn. destruct (f x); reflexivity. Qed.

(** Ascending order: the newcomer stops right of every tied element. *)
Lemma filter_insertLeft_asc (r x : A) (rp : list A) :
  List.filter (tiedWith less r) (insertLeft less x rp)
  = List.filter (tiedWith less r) [x] ++ List.filter (tiedWith less r) rp.
Proof.
  induction rp as [| y rp IH]; [cbn; now rewrite app_nil_r |].
  cbn [insertLeft]. destruct (less x y) eqn:Hxy; [| apply filter_cons_app].
  rewrite (filter_cons_app _ y (insertLeft less x rp)), IH.
  rewrite (filter_cons_app _ y rp).
  cbn [List.filter].
  destruct (tiedWith less r x) eqn:Hx, (tiedWith less r y) eqn:Hy;
    try reflexivity.
  pose proof (tied_not_less r x y Hx Hy). congruence.
Qed.

Lemma nonDecreasing_insertLeft (x : A) (rp : list A) :
  nonDecreasing rp -> nonDecreasing (insertLeft greaterEq x rp).
Proof.
  unfold ListSpec.nonDecreasing, ListSpec.greaterEq.
  induction 1 as [| y rp Hs IH Hy]; cbn [insertLeft].
  - repeat constructor.
  - destruct (less x y) eqn:Hxy; cbn [negb].
    + constructor; [constructor; assumption |].
      constructor.
      * destruct (less y x) eqn:Hyx; [| reflexivity].
        pose proof (less_trans _ _ _ Hxy Hyx) as Hxx.
        rewrite less_irrefl in Hxx. discriminate.
      * rewrite List.Forall_forall in *. intros z Hz.
        destruct (less z x) eqn:Hzx; [| reflexivity].
        pose proof (less_trans _ _ _ Hzx Hxy) as Hzy.
        rewrite (Hy z Hz) in Hzy. discriminate.
    + constructor; [assumption |].
      rewrite List.Forall_forall in *. intros z Hz.
      apply In_insertLeft in Hz as [-> | Hz]; [assumption | auto].
Qed.

Lemma filter_none (f : A -> bool) (l : list A) :
  (forall z, In z l -> f z = false) -> List.filter f l = [].
Proof.
  induction l as [| y l IH]; intros H; [reflexivity |].
  cbn. rewrite (H y (or_introl eq_refl)). apply IH. intros z Hz. apply H. now right.
Qed.

Lemma filter_insertLeft_desc (r x : A) (rp : list A) :
  nonDecreasing rp ->
  List.filter (tiedWith less r) (insertLeft greaterEq x rp)
  = List.filter (tiedWith less r) rp ++ List.filter (tiedWith less r) [x].
Proof.
  unfold ListSpec.nonDecreasing, ListSpec.greaterEq.
  induction 1 as [| y rp Hs IH Hy]; [reflexivity |].
  cbn [insertLeft]. destruct (less x y) eqn:Hxy; cbn [negb].
  - (* [x] stops here: nothing further left is tied with it *)
    rewrite filter_cons_app.
    destruct (tiedWith less r x) eqn:Hx.
    + assert (Hnone : List.filter (tiedWith less r) (y :: rp) = []).
      { apply filter_none. intros z Hz.
        destruct (tiedWith less r z) eqn:Htz; [| reflexivity].
        pose proof (tied_not_less r x z Hx Htz) as Hxz.
        assert (Hzy : less z y = false).
        { destruct Hz as [<- | Hz]; [apply less_irrefl |].
          rewrite List.Forall_forall in Hy. auto. }
        destruct (less_split x y z Hxy); congruence. }
      rewrite Hnone. cbn [List.filter]. rewrite Hx. reflexivity.
    + cbn [List.filter]. rewrite Hx, app_nil_r. reflexivity.
  - rewrite (filter_cons_app _ y (insertLeft _ x rp)), IH.
    rewrite (filter_cons_app _ y rp), app_assoc. reflexivity.
Qed.

Lemma filter_run_asc (r : A) (data rp : list A) :
  List.filter (tiedWith less r) (run less data rp)
  = rev (List.filter (tiedWith less r) data) ++ List.filter (tiedWith less r) rp.
Proof.
  revert rp. induction data as [| x data IH]; intros rp; [reflexivity |].
  cbn [run fold_left]. fold (run less data (insertLeft less x rp)).
  rewrite IH, filter_insertLeft_asc, (filter_cons_app _ x data).
  rewrite rev_app_distr, <- app_assoc.
  cbn [List.filter]. destruct (tiedWith less r x); reflexivity.
Qed.

Lemma run_desc (r : A) (data rp : list A) :
  nonDecreasing rp ->
  nonDecreasing (run greaterEq data rp) /\
  List.filter (tiedWith less r) (run greaterEq data rp)
  = List.filter (tiedWith less r) rp ++ List.filter (tiedWith less r) data.
Proof.
  revert rp. induction data as [| x data IH]; intros rp Hrp.
  - cbn. rewrite app_nil_r. auto.
  - cbn [run fold_left]. fold (run greaterEq data (insertLeft greaterEq x rp)).
    destruct (IH _ (nonDecreasing_insertLeft x rp Hrp)) as [Hs Hf].
    split; [assumption |].
    rewrite Hf, filter_insertLeft_desc by assumption.
    rewrite <- app_assoc, <- filter_cons_app. reflexivity.
Qed.

(** Sorting with [less]: ties keep their order. *)
Lemma insertionSort_asc_stable (data : list A) :
  stableOn less data (insertionSortLessFunc less data).
Proof.
  intros r. unfold insertionSortLessFunc. fold (run less data []).
  rewrite List.filter_rev, filter_run_asc, app_nil_r. apply rev_involutive.
Qed.

(** Sorting with the negated [less]: ties come out reversed. *)
Lemma insertionSort_desc_reverses (data : list A) (r : A) :
  List.filter (tiedWith less r) (insertionSortLessFunc greaterEq data)
  = rev (List.filter (tiedWith less r) data).
Proof.
  unfold insertionSortLessFunc. fold (run greaterEq data []).
  rewrite List.filter_rev.
  destruct (run_desc r data []) as [_ ->]; [constructor | reflexivity].
Qed.

Lemma insertLeft_ext (cmp cmp' : A -> A -> bool) (x : A) (rp : list A) :
  (forall a b, cmp a b = cmp' a b) -> insertLeft cmp x rp = insertLeft cmp' x rp.
Proof.
  intros H. induction rp as [| y rp IH]; [reflexivity |].
  cbn. rewrite H, IH. reflexivity.
Qed.

Lemma insertionSort_ext (cmp cmp' : A -> A -> bool) (data : list A) :
  (forall a b, cmp a b = cmp' a b) ->
  insertionSortLessFunc cmp data = insertionSortLessFunc cmp' data.
Proof.
  intros H. unfold insertionSortLessFunc. f_equal.
  generalize (@nil A). induction data as [| x data IH]; intros rp; [reflexivity |].
  cbn. rewrite (insertLeft_ext cmp cmp' x rp H). apply IH.
Qed.

End InsertionSort.

(** *** The three sort fields are strict weak orders *)

Lemma ascii_compare_trans (a b c : ascii) (o : comparison) :
  Ascii.compare a b = o -> Ascii.compare b c = o -> Ascii.compare a c = o.
Proof.
  unfold Ascii.compare.
  destruct (N.compare_spec (N_of_ascii a) (N_of_ascii b)),
           (N.compare_spec (N_of_ascii b) (N_of_ascii c));
    intros <-; try discriminate; intros _.
  - apply N.compare_eq_iff. congruence.
  - apply N.compare_lt_iff. lia.
  - apply N.compare_gt_iff. lia.
Qed.

Lemma string_compare_lt_trans (a b c : string) :
  String.compare a b = Lt -> String.compare b c = Lt -> String.compare a c = Lt.
Proof.
  revert b c. induction a as [| x a IH]; intros [| y b] [| z c]; cbn;
    try congruence.
  destruct (Ascii.compare x y) eqn:Hxy, (Ascii.compare y z) eqn:Hyz;
    try discriminate; intros H1 H2.
  - rewrite (ascii_compare_trans x y z Eq Hxy Hyz). eauto.
  - apply Ascii.compare_eq_iff in Hxy. subst y. rewrite Hyz. reflexivity.
  - apply Ascii.compare_eq_iff in Hyz. subst z. rewrite Hxy. reflexivity.
  - rewrite (ascii_compare_trans x y z Lt Hxy Hyz). reflexivity.
Qed.

Lemma string_ltb_lt (a b : string) : String.ltb a b = true <-> String.compare a b = Lt.
Proof. unfold String.ltb. destruct (String.compare a b); intuition discriminate. Qed.

Lemma string_ltb_irrefl (a : string) : String.ltb a a = false.
Proof.
  destruct (String.ltb a a) eqn:E; [| reflexivity].
  apply string_ltb_lt in E. pose proof (String.compare_antisym a a) as H.
  rewrite E in H. discriminate.
Qed.

Lemma string_ltb_trans (a b c : string) :
  String.ltb a b = true -> String.ltb b c = true -> String.ltb a c = true.
Proof. rewrite !string_ltb_lt. apply string_compare_lt_trans. Qed.

Lemma string_ltb_split (a b c : string) :
  String.ltb a b = true -> String.ltb a c = true \/ String.ltb c b = true.
Proof.
  rewrite !string_ltb_lt. intros Hab.
  destruct (String.compare a c) eqn:Hac.
  - apply String.compare_eq_iff in Hac. subst c. now right.
  - now left.
  - right. apply string_compare_lt_trans with a; [| assumption].
    rewrite String.compare_antisym, Hac. reflexivity.
Qed.

Lemma fieldLess_irrefl (sortBy : string) (a : Event) : fieldLess sortBy a a = false.
Proof.
  unfold fieldLess.
  destruct (String.eqb sortBy "eventType"); [apply string_ltb_irrefl |].
  destruct (String.eqb sortBy "status"); [apply string_ltb_irrefl |].
  apply Z.ltb_irrefl.
Qed.

Lemma fieldLess_trans (sortBy : string) (a b c : Event) :
  fieldLess sortBy a b = true -> fieldLess sortBy b c = true ->
  fieldLess sortBy a c = true.
Proof.
  unfold fieldLess.
  destruct (String.eqb sortBy "eventType"); [apply string_ltb_trans |].
  destruct (String.eqb sortBy "status"); [apply string_ltb_trans |].
  rewrite !Z.ltb_lt. lia.
Qed.

Lemma fieldLess_split (sortBy : string) (a b c : Event) :
  fieldLess sortBy a b = true ->
  fieldLess sortBy a c = true \/ fieldLess sortBy c b = true.
Proof.
  unfold fieldLess.
  destruct (String.eqb sortBy "eventType"); [apply string_ltb_split |].
  destruct (String.eqb sortBy "status"); [apply string_ltb_split |].
  rewrite !Z.ltb_lt. lia.
Qed.

(** *** [sortEvents] *)

Section SortEvents.

Variable pdqsortLong : (Event -> Event -> bool) -> list Event -> list Event.

Lemma sortEvents_short (events : list Event) (sortBy sortOrder : string) :
  (length events <= maxInsertion)%nat ->
  sortEvents pdqsortLong events sortBy sortOrder
  = insertionSortLessFunc (sortLess sortBy sortOrder) events.
Proof.
  intros H. unfold sortEvents, sortSlice.
  apply Nat.leb_le in H. rewrite H. reflexivity.
Qed.

(** Ascending sorts of at most twelve events are stable. *)
Lemma sortEvents_asc_stable (events : list Event) (sortBy : string) :
  (length events <= maxInsertion)%nat ->
  stableOn (fieldLess sortBy) events (sortEvents pdqsortLong events sortBy "asc").
Proof.
  intros H. rewrite sortEvents_short by assumption.
  rewrite (insertionSort_ext _ (fieldLess sortBy)) by reflexivity.
  apply insertionSort_asc_stable; intros.
  eapply fieldLess_split; eassumption.
Qed.

(** C3, amended: on at most twelve events (where [sort.Slice] is an
    insertion sort) the events tied on the sort field keep their order
    when the direction is "asc", and come out in reverse order for every
    other direction, the default "desc" included. *)
Theorem C3_ties_kept_ascending_reversed_otherwise
    (events : list Event) (sortBy sortOrder : string) (r : Event) :
  (length events <= maxInsertion)%nat ->
  List.filter (tiedWith (fieldLess sortBy) r)
    (sortEvents pdqsortLong events sortBy sortOrder)
  = if String.eqb sortOrder "asc"
    then List.filter (tiedWith (fieldLess sortBy) r) events
    else rev (List.filter (tiedWith (fieldLess sortBy) r) events).
Proof.
  intros H. destruct (String.eqb sortOrder "asc") eqn:Hasc.
  - apply String.eqb_eq in Hasc. subst sortOrder.
    apply sortEvents_asc_stable. assumption.
  - rewrite sortEvents_short by assumption.
    rewrite (insertionSort_ext _ (greaterEq (fieldLess sortBy))).
    + apply insertionSort_desc_reverses.
      * apply fieldLess_irrefl.
      * apply fieldLess_trans.
      * apply fieldLess_split.
    + intros a b. unfold sortLess, greaterEq. rewrite Hasc. reflexivity.
Qed.

End SortEvents.

(** C3, as stated, fails: two events with the same timestamp, sorted by
    timestamp in the default descending direction, swap places. *)
Lemma C3_descending_swaps_ties :
  sortEvents unsorted [eventAt "first" 7; eventAt "second" 7] "timestamp" "desc"
  = [eventAt "second" 7; eventAt "first" 7] /\
  ~ stableOn (fieldLess "timestamp")
      [eventAt "first" 7; eventAt "second" 7]
      (sortEvents unsorted [eventAt "first" 7; eventAt "second" 7] "timestamp" "desc").
Proof.
  split; [reflexivity |].
  intros H. specialize (H (eventAt "first" 7)).
  vm_compute in H. discriminate H.
Qed.

Lemma C3_ties_kept_ascending_reversed_otherwise_witness :
  List.filter (tiedWith (fieldLess "timestamp") (eventAt "first" 7))
    (sortEvents unsorted [eventAt "first" 7; eventAt "other" 9; eventAt "second" 7]
       "timestamp" "asc")
  = [eventAt "first" 7; eventAt "second" 7].
Proof.
  rewrite (C3_ties_kept_ascending_reversed_otherwise unsorted
             [eventAt "first" 7; eventAt "other" 9; eventAt "second" 7]
             "timestamp" "asc" (eventAt "first" 7));
    [reflexivity | vm_compute; lia].
Defined.

End SortFacts.

(** ** Pagination *)

Module PageFacts.
Import GoStrings Json Event EventRepo ListSpec.

Lemma wrap64_small (z : Z) : - 2 ^ 63 <= z < 2 ^ 63 -> wrap64 z = z.
Proof. intros H. unfold wrap64. rewrite Z.mod_small; lia. Qed.

Lemma sliceRange_ok {A} (s : list A) (lo hi : Z) :
  0 <= lo <= hi -> hi <= Z.of_nat (length s) ->
  sliceRange s lo hi = Some (firstn (Z.to_nat (hi - lo)) (skipn (Z.to_nat lo) s)).
Proof.
  intros [H1 H2] H3. unfold sliceRange.
  apply Z.leb_le in H1, H2, H3. rewrite H1, H2, H3. reflexivity.
Qed.

Section Pages.

Variable ToLower : string -> string.
Variable pdqsortLong : (Event -> Event -> bool) -> list Event -> list Event.

(** A page number of at least one and a page size that is not negative
    never panic, and a page past the last event is empty with the total
    still reported. *)
Lemma page_in_range (events : list Event) (req : EventListRequest) :
  1 <= Page req -> 0 <= PageSize req -> Page req * PageSize req < 2 ^ 62 ->
  let matching :=
    sortEvents pdqsortLong (filterEvents ToLower events req) (SortBy req)
      (SortOrder req) in
  exists resp,
    GetByClientID ToLower pdqsortLong (Walked events) req = ListOk resp /\
    Total resp = Z.of_nat (length matching) /\
    (Z.of_nat (length matching) <= (Page req - 1) * PageSize req -> Events resp = []).
Proof.
  intros Hp Hs Hb matching. unfold GetByClientID. fold matching.
  assert (H0 : 0 <= (Page req - 1) * PageSize req) by nia.
  assert (H1 : (Page req - 1) * PageSize req + PageSize req < 2 ^ 62) by nia.
  rewrite (wrap64_small ((Page req - 1) * PageSize req)) by lia.
  rewrite (wrap64_small ((Page req - 1) * PageSize req + PageSize req)) by lia.
  set (total := Z.of_nat (length matching)).
  set (start := (Page req - 1) * PageSize req) in *.
  destruct (Z.leb_spec total start) as [Hpast | Hin].
  - assert (Ht : (total <? 0) = false) by (apply Z.ltb_ge; subst total; lia).
    rewrite Ht. rewrite sliceRange_ok by (subst total; lia).
    eexists; repeat split.
  - destruct (Z.ltb_spec total (start + PageSize req)).
    + rewrite sliceRange_ok by (subst total; lia).
      eexists; repeat split. intros; lia.
    + rewrite sliceRange_ok by (subst total; lia).
      eexists; repeat split. intros; lia.
Qed.

End Pages.

(** C9: with the page number -1 and twenty events per page the bounds
    are -40 and -20, no clamp applies, and the slice expression panics,
    in the repository and behind the handler's defaults alike. *)
Theorem C9_negative_page_panics (ToLower : string -> string) :
  GetByClientID ToLower unsorted (Walked [eventAt "a" 1])
    (rangeRequest (-1) 20 0 0 "desc")
  = ListPanic /\
  List ToLower unsorted (Walked [eventAt "a" 1]) (rangeRequest (-1) 20 0 0 "desc")
  = ListPanic.
Proof. split; reflexivity. Qed.

(** A page past the end, on the same events, is empty and not an error. *)
Example page_past_end_is_empty (ToLower : string -> string) :
  List ToLower unsorted (Walked [eventAt "a" 1]) (rangeRequest 3 20 0 0 "desc")
  = ListOk {| Total := 1; r_Page := 3; r_PageSize := 20; Events := [] |}.
Proof. reflexivity. Qed.

(** The same panic with a negative page size on page one. *)
Example negative_page_size_panics (ToLower : string -> string) :
  List ToLower unsorted (Walked [eventAt "a" 1; eventAt "b" 2]) (rangeRequest 1 (-1) 0 0 "desc")
  = ListPanic.
Proof. reflexivity. Qed.

End PageFacts.

(** ** Deleting events *)

Module DeleteFacts.
Import EventRepo DeleteSpec.

Lemma holds_removeEvent (d : Dir) (eventID other : string) :
  holds (removeEvent d eventID) other
  = if decide (other = eventID) then 0%nat else holds d other.
Proof.
  unfold holds, removeEvent. cbn [jsons].
  destruct (decide (other = eventID)) as [-> | Hne].
  - destruct (decide (eventID ∈ jsons d ∖ {[eventID]})) as [Hin | _];
      [| reflexivity].
    apply elem_of_difference in Hin as [_ Hin]. exfalso. apply Hin.
    apply elem_of_singleton. reflexivity.
  - destruct (decide (other ∈ jsons d ∖ {[eventID]})) as [Hin | Hout],
             (decide (other ∈ jsons d)) as [Hin' | Hout']; try reflexivity.
    + apply elem_of_difference in Hin as [Hin _]. contradiction.
    + exfalso. apply Hout. apply elem_of_difference. split; [assumption |].
      rewrite elem_of_singleton. assumption.
Qed.

Lemma deleteFromDateDirs_None (dirs : list (string * Dir)) (eventID : string) :
  deleteFromDateDirs dirs eventID = None -> holdsInDateDirs dirs eventID = 0%nat.
Proof.
  induction dirs as [| [name d] dirs IH]; cbn; [reflexivity |].
  unfold holds. destruct (decide (eventID ∈ jsons d)); [discriminate |].
  destruct (deleteFromDateDirs dirs eventID); [discriminate |].
  intros _. rewrite IH; reflexivity.
Qed.

Lemma deleteFromDateDirs_Some (dirs dirs' : list (string * Dir))
    (eventID other : string) :
  deleteFromDateDirs dirs eventID = Some dirs' ->
  holdsInDateDirs dirs' other
  = if decide (other = eventID) then pred (holdsInDateDirs dirs eventID)
    else holdsInDateDirs dirs other.
Proof.
  revert dirs'. induction dirs as [| [name d] dirs IH]; intros dirs'; cbn;
    [discriminate |].
  destruct (decide (eventID ∈ jsons d)) as [Hin | Hout].
  - intros [= <-]. cbn. rewrite holds_removeEvent.
    destruct (decide (other = eventID)) as [-> | Hne]; [| reflexivity].
    unfold holds. destruct (decide (eventID ∈ jsons d)); [reflexivity | contradiction].
  - destruct (deleteFromDateDirs dirs eventID) as [rest |] eqn:Hrest; [| discriminate].
    intros [= <-]. cbn. rewrite (IH rest eq_refl).
    destruct (decide (other = eventID)) as [-> | Hne]; [| reflexivity].
    unfold holds. destruct (decide (eventID ∈ jsons d)); [contradiction | reflexivity].
Qed.

(** One [Delete] takes away one stored record of its event, if there is
    one, and leaves every other event alone. *)
Lemma Delete_copies (fs : Store) (clientID eventID other : string) :
  copiesIn (fst (Delete fs clientID eventID)) clientID other
  = if decide (other = eventID) then pred (copiesIn fs clientID eventID)
    else copiesIn fs clientID other.
Proof.
  unfold Delete, copiesIn.
  destruct (fs !! clientID) as [dir |] eqn:Hdir; cbn [fst].
  - destruct (decide (eventID ∈ jsons (flat dir))) as [Hin | Hout]; cbn [fst].
    + rewrite lookup_insert_eq. unfold copies. cbn [flat dateDirs].
      rewrite holds_removeEvent.
      destruct (decide (other = eventID)) as [-> | Hne]; [| reflexivity].
      unfold holds. destruct (decide (eventID ∈ jsons (flat dir)));
        [reflexivity | contradiction].
    + destruct (deleteFromDateDirs (dateDirs dir) eventID) as [dirs' |] eqn:Hd;
        cbn [fst].
      * rewrite lookup_insert_eq. unfold copies. cbn [flat dateDirs].
        rewrite (deleteFromDateDirs_Some _ _ _ other Hd).
        destruct (decide (other = eventID)) as [-> | Hne]; [| reflexivity].
        unfold holds. destruct (decide (eventID ∈ jsons (flat dir)));
          [contradiction | reflexivity].
      * rewrite Hdir. unfold copies.
        destruct (decide (other = eventID)) as [-> | Hne]; [| reflexivity].
        rewrite (deleteFromDateDirs_None _ _ Hd).
        unfold holds. destruct (decide (eventID ∈ jsons (flat dir)));
          [contradiction | reflexivity].
  - rewrite Hdir. destruct (decide (other = eventID)); reflexivity.
Qed.

(** A [Delete] fails exactly when the event has no stored record. *)
Lemma Delete_error (fs : Store) (clientID eventID : string) :
  snd (Delete fs clientID eventID) = None
  <-> (0 < copiesIn fs clientID eventID)%nat.
Proof.
  unfold Delete, copiesIn, copies.
  destruct (fs !! clientID) as [dir |]; cbn [snd]; [| split; [discriminate | lia]].
  unfold holds at 1.
  destruct (decide (eventID ∈ jsons (flat dir))); cbn [snd]; [split; [lia | reflexivity] |].
  destruct (deleteFromDateDirs (dateDirs dir) eventID) as [dirs' |] eqn:Hd; cbn [snd].
  - split; [intros _ | reflexivity].
    pose proof (deleteFromDateDirs_Some _ _ _ eventID Hd) as H.
    assert (Hpos : holdsInDateDirs (dateDirs dir) eventID <> 0%nat).
    { clear H. revert dirs' Hd.
      induction (dateDirs dir) as [| [name d] dirs IH]; cbn; [discriminate |].
      intros dirs'. unfold holds.
      destruct (decide (eventID ∈ jsons d)); [lia |].
      destruct (deleteFromDateDirs dirs eventID) eqn:E; [| discriminate].
      intros _. specialize (IH _ eq_refl). lia. }
    lia.
  - rewrite (deleteFromDateDirs_None _ _ Hd). split; [discriminate | lia].
Qed.

(** C2, amended: a batch delete always returns nil, tries every
    identifier whatever the earlier ones did, and takes one stored record
    of each listed event away (none when there is none); the events not
    listed are untouched.  No per-item outcome is returned. *)
Theorem C2_batch_delete_best_effort (fs : Store) (clientID : string)
    (eventIDs : list string) (other : string) :
  NoDup eventIDs ->
  snd (DeleteBatch fs clientID eventIDs) = None /\
  copiesIn (fst (DeleteBatch fs clientID eventIDs)) clientID other
  = if decide (other ∈ eventIDs) then pred (copiesIn fs clientID other)
    else copiesIn fs clientID other.
Proof.
  revert fs. induction eventIDs as [| eventID rest IH]; intros fs Hnd.
  - split; [reflexivity |]. cbn [DeleteBatch fst].
    destruct (decide (other ∈ [])) as [Hin | _]; [| reflexivity].
    apply elem_of_nil in Hin. contradiction.
  - apply NoDup_cons in Hnd as [Hfresh Hnd].
    cbn [DeleteBatch].
    destruct (Delete fs clientID eventID) as [fs' err] eqn:HD.
    destruct (IH fs' Hnd) as [Hnil Hcopies]. split; [assumption |].
    rewrite Hcopies.
    pose proof (Delete_copies fs clientID eventID other) as Hone.
    rewrite HD in Hone. cbn [fst] in Hone. rewrite Hone.
    destruct (decide (other = eventID)) as [-> | Hne].
    + destruct (decide (eventID ∈ rest)); [contradiction |].
      destruct (decide (eventID ∈ eventID :: rest)) as [_ | Hn];
        [reflexivity | exfalso; apply Hn; left].
    + destruct (decide (other ∈ rest)) as [Hin | Hout];
        destruct (decide (other ∈ eventID :: rest)) as [Hin' | Hout'];
        try reflexivity.
      * exfalso. apply Hout'. now right.
      * exfalso. apply elem_of_cons in Hin' as [-> | Hin']; [now apply Hne | contradiction].
Qed.

Lemma C2_batch_delete_best_effort_witness :
  snd (DeleteBatch sampleStore "client-1" ["e1"; "missing"; "e3"]) = None /\
  copiesIn (fst (DeleteBatch sampleStore "client-1" ["e1"; "missing"; "e3"]))
    "client-1" "e3" = 0%nat.
Proof.
  destruct (C2_batch_delete_best_effort sampleStore "client-1"
              ["e1"; "missing"; "e3"] "e3") as [Hnil Hc].
  - apply (bool_decide_unpack (NoDup ["e1"; "missing"; "e3"])). vm_compute. exact I.
  - split; [exact Hnil |]. rewrite Hc. vm_compute. reflexivity.
Defined.

(** C2, as stated, fails: the identifier with no record makes [Delete]
    fail, yet the batch that contains it returns the same nil as the
    batch without it, and nothing else is returned. *)
Lemma C2_no_itemized_result :
  snd (Delete sampleStore "client-1" "missing") = Some (EventNotFound "missing") /\
  snd (DeleteBatch sampleStore "client-1" ["e1"; "missing"; "e2"]) = None /\
  DeleteBatch sampleStore "client-1" ["e1"; "missing"; "e2"]
  = DeleteBatch sampleStore "client-1" ["e1"; "e2"].
Proof. repeat split; vm_compute; reflexivity. Qed.

End DeleteFacts.

(** ** The log hub *)

Module LogHubFacts.
Import LogHub LogHubSamples.

(** A non-blocking send never parks the sender. *)
Lemma chansend_nonblocking (c : option Chan) (line : string) :
  chansend c line false <> Parked.
Proof.
  unfold chansend. destruct c as [c |]; [| discriminate].
  destruct (closed c); [discriminate |].
  destruct (length (buf c) <? cap c)%nat; discriminate.
Qed.

Lemma trySend_not_blocked (chans : Chans) (ch : nat) (line : string) :
  trySend chans ch line <> Blocked.
Proof.
  unfold trySend. pose proof (chansend_nonblocking (chans !! ch) line).
  destruct (chansend (chans !! ch) line false); congruence.
Qed.

Lemma broadcast_not_blocked (chans : Chans) (ls : list nat) (line : string) :
  broadcast chans ls line <> Blocked.
Proof.
  revert chans. induction ls as [| ch ls IH]; intros chans; cbn; [discriminate |].
  pose proof (trySend_not_blocked chans ch line).
  destruct (trySend chans ch line); cbn; [apply IH | congruence | discriminate].
Qed.

(** Whatever the state of the hub, [AddLog] does not block. *)
Lemma AddLog_not_blocked (chans : Chans) (p : ProcessInfo) (line : string) :
  AddLog chans p line <> Blocked.
Proof.
  unfold AddLog. cbn.
  pose proof (broadcast_not_blocked chans (LogListeners p) line).
  destruct (broadcast chans (LogListeners p) line); cbn; congruence.
Qed.

Lemma trySend_open (chans : Chans) (ch : nat) (c : Chan) (line : string) :
  chans !! ch = Some c -> closed c = false ->
  trySend chans ch line
  = Done (if hasRoom c then <[ch := pushLine c line]> chans else chans).
Proof.
  intros Hc Hopen. unfold trySend, chansend, hasRoom. rewrite Hc, Hopen.
  destruct (length (buf c) <? cap c)%nat; reflexivity.
Qed.

(** The broadcast loop over distinct open channels. *)
Lemma broadcast_open (chans : Chans) (ls : list nat) (line : string) :
  NoDup ls ->
  (forall ch, ch ∈ ls -> exists c, chans !! ch = Some c /\ closed c = false) ->
  exists chans',
    broadcast chans ls line = Done chans' /\
    (forall ch c, ch ∈ ls -> chans !! ch = Some c ->
       chans' !! ch = Some (if hasRoom c then pushLine c line else c)) /\
    (forall ch, ch ∉ ls -> chans' !! ch = chans !! ch).
Proof.
  revert chans. induction ls as [| l ls IH]; intros chans Hnd Hopen.
  - exists chans. split; [reflexivity |]. split; [| reflexivity].
    intros ch c Hin. apply elem_of_nil in Hin. contradiction.
  - apply NoDup_cons in Hnd as [Hl Hnd].
    destruct (Hopen l) as (c & Hc & Hcopen); [left |].
    cbn [broadcast]. rewrite (trySend_open chans l c line Hc Hcopen). cbn.
    set (chans1 := if hasRoom c then <[l := pushLine c line]> chans else chans).
    assert (Hother : forall ch, ch <> l -> chans1 !! ch = chans !! ch).
    { intros ch Hne. unfold chans1. destruct (hasRoom c); [| reflexivity].
      apply lookup_insert_ne. congruence. }
    assert (Hself : chans1 !! l = Some (if hasRoom c then pushLine c line else c)).
    { unfold chans1. destruct (hasRoom c); [apply lookup_insert_eq | assumption]. }
    destruct (IH chans1 Hnd) as (chans' & Hrun & Hin & Hout).
    { intros ch Hch. rewrite Hother by (intros ->; contradiction).
      apply Hopen. now right. }
    exists chans'. split; [assumption |]. split.
    + intros ch c' Hch Hc'. apply elem_of_cons in Hch as [-> | Hch].
      * rewrite Hout by assumption. rewrite Hself.
        rewrite Hc in Hc'. injection Hc' as <-. reflexivity.
      * apply Hin; [assumption |].
        rewrite Hother by (intros ->; contradiction). assumption.
    + intros ch Hch. apply not_elem_of_cons in Hch as [Hne Hch].
      rewrite Hout by assumption. apply Hother. assumption.
Qed.

(** C7: [AddLog] returns without blocking; the line is appended to the
    history, queued on every subscriber channel that has room, dropped
    for exactly the subscribers whose buffer is full, and no other channel
    changes. *)
Theorem C7_AddLog_never_blocks (chans : Chans) (p : ProcessInfo) (line : string) :
  listenersOpen chans p ->
  exists chans' p',
    AddLog chans p line = Done (chans', p') /\
    LogLines p' = LogLines p ++ [line] /\
    LogListeners p' = LogListeners p /\
    (forall ch c, ch ∈ LogListeners p -> chans !! ch = Some c ->
       chans' !! ch = Some (if hasRoom c then pushLine c line else c)) /\
    (forall ch, ch ∉ LogListeners p -> chans' !! ch = chans !! ch).
Proof.
  intros [Hnd Hopen]. unfold AddLog. cbn [LogListeners withLogLines].
  destruct (broadcast_open chans (LogListeners p) line Hnd Hopen)
    as (chans' & Hrun & Hin & Hout).
  rewrite Hrun. cbn.
  eexists _, _. split; [reflexivity |]. repeat split; assumption.
Qed.

Lemma C7_AddLog_never_blocks_witness :
  exists chans' p',
    AddLog twoListeners twoListenersHub "line 3" = Done (chans', p') /\
    LogLines p' = ["line 1"; "line 2"; "line 3"] /\
    chans' !! 1%nat = Some {| buf := ["line 2"; "line 3"]; cap := 100; closed := false |} /\
    chans' !! 2%nat = Some {| buf := ["line 1"; "line 2"]; cap := 2; closed := false |}.
Proof.
  destruct (C7_AddLog_never_blocks twoListeners twoListenersHub "line 3")
    as (chans' & p' & Hrun & Hlines & _ & Hin & _).
  - split.
    + apply (bool_decide_unpack (NoDup [1%nat; 2%nat])). vm_compute. exact I.
    + intros ch Hch. cbn in Hch.
      apply elem_of_cons in Hch as [-> | Hch];
        [| apply list_elem_of_singleton in Hch as ->];
        eexists; split; reflexivity.
  - exists chans', p'. split; [exact Hrun |]. split; [exact Hlines |]. split.
    + rewrite (Hin 1%nat {| buf := ["line 2"]; cap := 100; closed := false |});
        [reflexivity | left | reflexivity].
    + rewrite (Hin 2%nat {| buf := ["line 1"; "line 2"]; cap := 2; closed := false |});
        [reflexivity | right; left | reflexivity].
Defined.

(** The hub's own operations keep the listeners distinct and open. *)
Lemma AddLogListener_listenersOpen (chans : Chans) (p : ProcessInfo) :
  listenersOpen chans p ->
  (forall ch, ch ∈ LogListeners p -> ch ∈ dom chans) ->
  let '(chans', p', _) := AddLogListener chans p in
  listenersOpen chans' p'.
Proof.
  intros [Hnd Hopen] Hdom. unfold AddLogListener, listenersOpen.
  cbn [LogListeners withLogListeners].
  pose proof (is_fresh (dom chans)) as Hfresh.
  set (ch0 := fresh (dom chans)) in *.
  split.
  - apply NoDup_app. split; [assumption |]. split.
    + intros ch Hch Hin. apply list_elem_of_singleton in Hin as ->.
      apply Hfresh, Hdom, Hch.
    + apply NoDup_singleton.
  - intros ch Hch. apply elem_of_app in Hch as [Hch | Hch].
    + destruct (Hopen ch Hch) as (c & Hc & Hcl). exists c. split; [| assumption].
      rewrite lookup_insert_ne; [assumption |].
      intros ->. apply Hfresh, Hdom, Hch.
    + apply list_elem_of_singleton in Hch as ->.
      eexists. split; [apply lookup_insert_eq | reflexivity].
Qed.

End LogHubFacts.

(** ** The process supervisor *)

Module SupervisorFacts.
Import LogHub ProcessService SupervisorSamples.

Lemma monitorProcess_registry (s : ProcessService) (r : nat) (err : option string) :
  processes (monitorProcess s r err) = processes s.
Proof. unfold monitorProcess. destruct (ctxs s !! r); reflexivity. Qed.

Lemma monitorProcess_lookup (s : ProcessService) (r : nat) (ctx : processContext)
    (err : option string) :
  ctxs s !! r = Some ctx ->
  ctxs (monitorProcess s r err) !! r = Some (monitorCtx s ctx err).
Proof.
  intros H. unfold monitorProcess. rewrite H. cbn [ctxs withRegistry].
  apply lookup_insert_eq.
Qed.

Lemma monitorCtx_cmd (s : ProcessService) (ctx : processContext) (err : option string) :
  cmd_Process (monitorCtx s ctx err) = cmd_Process ctx.
Proof. unfold monitorCtx. destruct (stopChan_closed ctx); reflexivity. Qed.

(** C6, amended: when the exit is observed with no stop signalled and
    the wait returned an error, the error text is recorded on the handle
    and its state becomes Error; after a stop signal, and also when the
    process exited without an error, the handle's state and error text
    stay as they were. *)
Theorem C6_error_recorded_when_wait_fails (s : ProcessService) (r : nat)
    (ctx : processContext) (err : option string) :
  ctxs s !! r = Some ctx ->
  exists ctx',
    ctxs (monitorProcess s r err) !! r = Some ctx' /\
    (stopChan_closed ctx = true -> ctx' = ctx) /\
    (stopChan_closed ctx = false ->
       forall msg, err = Some msg ->
         LastError (processInfo ctx') = msg /\
         Status (processInfo ctx') = ClientService.ClientStatusError) /\
    (stopChan_closed ctx = false -> err = None ->
       processInfo ctx' = processInfo ctx).
Proof.
  intros Hctx. exists (monitorCtx s ctx err).
  split; [apply monitorProcess_lookup; assumption |].
  unfold monitorCtx. repeat split.
  - intros ->. reflexivity.
  - rewrite H. subst err. reflexivity.
  - rewrite H. subst err. reflexivity.
  - intros -> ->. reflexivity.
Qed.

Lemma started_handle :
  processes started !! "client-1" = Some handle /\
  exists ctx, ctxs started !! handle = Some ctx /\
              stopChan_closed ctx = false /\ cmd_Process ctx = Some 4242.
Proof.
  split; [reflexivity |].
  eexists. split; [reflexivity |]. split; reflexivity.
Qed.

Lemma C6_error_recorded_when_wait_fails_witness :
  exists ctx',
    ctxs (monitorProcess started handle (Some "exit status 1")) !! handle = Some ctx' /\
    LastError (processInfo ctx') = "exit status 1" /\
    Status (processInfo ctx') = ClientService.ClientStatusError.
Proof.
  destruct started_handle as (_ & ctx & Hctx & Hopen & _).
  destruct (C6_error_recorded_when_wait_fails started handle ctx
              (Some "exit status 1") Hctx) as (ctx' & Hl & _ & Herr & _).
  exists ctx'. split; [exact Hl |]. exact (Herr Hopen _ eq_refl).
Defined.

(** C6, as stated, fails: a process that exits on its own with status 0
    (no stop signalled, [Wait] returns nil) leaves its handle Running with
    no error text. *)
Lemma C6_clean_exit_stays_running :
  exists ctx ctx',
    ctxs started !! handle = Some ctx /\ stopChan_closed ctx = false /\
    ctxs (monitorProcess started handle None) !! handle = Some ctx' /\
    Status (processInfo ctx') = ClientService.ClientStatusRunning /\
    LastError (processInfo ctx') = "".
Proof.
  eexists _, _. split; [reflexivity |]. split; [reflexivity |].
  split; [reflexivity |]. split; reflexivity.
Qed.

(** Closing the subscribers' channels succeeds when they are distinct
    and open. *)
Lemma closeEach_open (chs : Chans) (ls : list nat) :
  NoDup ls ->
  (forall ch, ch ∈ ls -> exists c, chs !! ch = Some c /\ closed c = false) ->
  exists chs', closeEach chs ls = Done chs'.
Proof.
  revert chs. induction ls as [| l ls IH]; intros chs Hnd Hopen.
  - eexists. reflexivity.
  - apply NoDup_cons in Hnd as [Hl Hnd].
    destruct (Hopen l) as (c & Hc & Hcopen); [left |].
    cbn [closeEach]. unfold closeAt. rewrite Hc, Hcopen. cbn.
    apply IH; [assumption |].
    intros ch Hch. rewrite lookup_insert_ne by (intros ->; contradiction).
    apply Hopen. now right.
Qed.

(** C10: the exit monitor leaves the registry and the command's process
    alone, so after a crash the client still counts as running, a new
    [Start] is refused as already running, and it is [Stop] that takes the
    handle out of the registry. *)
Theorem C10_crashed_handle_stays_registered (s : ProcessService) (key : string)
    (r : nat) (ctx : processContext) (err : option string) (now : Z) (os : Spawn) :
  processes s !! key = Some r ->
  ctxs s !! r = Some ctx ->
  is_Some (cmd_Process ctx) ->
  stopChan_closed ctx = false ->
  listenersOpen (chans s) (processInfo ctx) ->
  let s' := monitorProcess s r err in
  processes s' !! key = Some r /\
  (exists ctx', ctxs s' !! r = Some ctx' /\ cmd_Process ctx' = cmd_Process ctx) /\
  IsRunning s' key = true /\
  Start s' now key os = (s', Some (AlreadyRunning key)) /\
  exists s'', Stop s' key = Done (s'', None) /\ IsRunning s'' key = false.
Proof.
  intros Hreg Hctx Hproc Hopen Hlisteners s'.
  assert (Hreg' : processes s' !! key = Some r).
  { unfold s'. rewrite monitorProcess_registry. assumption. }
  assert (Hctx' : ctxs s' !! r = Some (monitorCtx s ctx err)).
  { apply monitorProcess_lookup. assumption. }
  assert (Hrun : alreadyRunning s' key = true).
  { unfold alreadyRunning, lookupCtx. rewrite Hreg'. cbn. rewrite Hctx'.
    rewrite monitorCtx_cmd. apply bool_decide_eq_true. assumption. }
  split; [assumption |].
  split; [eexists; split; [eassumption | apply monitorCtx_cmd] |].
  split; [assumption |].
  split; [unfold Start; rewrite Hrun; reflexivity |].
  unfold Stop. rewrite Hreg', Hctx'.
  assert (Hstill : stopChan_closed (monitorCtx s ctx err) = false).
  { unfold monitorCtx. rewrite Hopen. reflexivity. }
  rewrite Hstill.
  assert (Hinfo : LogListeners (processInfo (monitorCtx s ctx err))
                  = LogListeners (processInfo ctx)).
  { unfold monitorCtx. rewrite Hopen. destruct err; reflexivity. }
  assert (Hchans : chans s' = chans s).
  { unfold s', monitorProcess. rewrite Hctx. reflexivity. }
  destruct Hlisteners as [Hnd Hall].
  destruct (closeEach_open (chans s) (LogListeners (processInfo ctx)) Hnd Hall)
    as [chs' Hclose].
  unfold CloseAllLogListeners. rewrite Hinfo, Hchans, Hclose. cbn.
  eexists. split; [reflexivity |].
  unfold IsRunning, alreadyRunning, lookupCtx. cbn [processes withRegistry].
  rewrite lookup_delete_eq. reflexivity.
Qed.

Lemma C10_crashed_handle_stays_registered_witness :
  IsRunning (monitorProcess started handle (Some "signal: killed")) "client-1" = true /\
  snd (Start (monitorProcess started handle (Some "signal: killed")) 200 "client-1"
         (Spawned 4243))
  = Some (AlreadyRunning "client-1").
Proof.
  destruct started_handle as (Hreg & ctx & Hctx & Hopen & Hcmd).
  assert (Hls : LogListeners (processInfo ctx) = []).
  { assert (H : (fun c => LogListeners (processInfo c)) <$> ctxs started !! handle
                = Some []) by (vm_compute; reflexivity).
    rewrite Hctx in H. injection H as H. exact H. }
  destruct (C10_crashed_handle_stays_registered started "client-1" handle ctx
              (Some "signal: killed") 200 (Spawned 4243) Hreg Hctx)
    as (_ & _ & Hrun & Hstart & _).
  - rewrite Hcmd. eexists. reflexivity.
  - exact Hopen.
  - split; rewrite Hls; [apply NoDup_nil_2 |].
    intros ch Hch. apply elem_of_nil in Hch. contradiction.
  - split; [exact Hrun |]. rewrite Hstart. reflexivity.
Defined.

(** A successful [Start] registers a handle the later facts apply to. *)
Lemma Start_registers (s : ProcessService) (now : Z) (key : string) (pid : Z) :
  alreadyRunning s key = false ->
  let s' := fst (Start s now key (Spawned pid)) in
  snd (Start s now key (Spawned pid)) = None /\
  IsRunning s' key = true /\
  exists r ctx, processes s' !! key = Some r /\ ctxs s' !! r = Some ctx /\
    cmd_Process ctx = Some pid /\ stopChan_closed ctx = false /\
    Status (processInfo ctx) = ClientService.ClientStatusRunning.
Proof.
  intros Hfree. unfold Start. rewrite Hfree. cbn [fst snd].
  split; [reflexivity |]. split.
  - unfold IsRunning, alreadyRunning, lookupCtx. cbn [processes ctxs withRegistry].
    rewrite lookup_insert_eq. cbn. rewrite lookup_insert_eq. reflexivity.
  - eexists _, _. cbn [processes ctxs withRegistry].
    split; [apply lookup_insert_eq |]. split; [apply lookup_insert_eq |].
    repeat split.
Qed.

(** At most one live handle per key: a second [Start] on a running
    client changes nothing. *)
Lemma Start_twice_refused (s : ProcessService) (now : Z) (key : string) (os : Spawn) :
  IsRunning s key = true -> Start s now key os = (s, Some (AlreadyRunning key)).
Proof. intros H. unfold Start. unfold IsRunning in H. rewrite H. reflexivity. Qed.

End SupervisorFacts.

(** ** Quota checks and the quota cache *)

Module QuotaServiceFacts.
Import Quota ClientService QuotaService QuotaRepo QuotaSamples QuotaRepoSamples.

Lemma IsStorageFull_IsStorageWarning (q : Quota) :
  IsStorageFull q = true -> IsStorageWarning q = true.
Proof.
  unfold IsStorageFull, IsStorageWarning. rewrite !Qle_bool_iff. intros H.
  apply Qle_trans with (y := 100%Q); [| exact H].
  unfold Qle. cbn. lia.
Qed.

(** X1: whenever [CheckStorageQuota] rejects a user for a full
    storage, [GetStorageWarning] has a warning for that user, and the
    warning names the percentage the rejection names. *)
Theorem storage_rejection_is_warned (quotaRepo : string -> result string Quota)
    (formatPercent : Q -> string) (userID : string) (pct : Q) :
  CheckStorageQuota quotaRepo userID = Some (StorageQuotaExceeded pct) ->
  GetStorageWarning quotaRepo formatPercent userID
  = Ok ("Warning: Storage usage is at " ++ formatPercent pct
        ++ "% - consider cleaning up old events and logs")%string.
Proof.
  unfold CheckStorageQuota, GetStorageWarning, QuotaService.GetQuota.
  destruct (quotaRepo userID) as [q | e]; [| discriminate].
  destruct (IsStorageFull q) eqn:Hfull; [| discriminate].
  intros [= <-]. rewrite (IsStorageFull_IsStorageWarning q Hfull). reflexivity.
Qed.

Lemma storage_rejection_is_warned_witness :
  exists msg,
    GetStorageWarning (fun _ => Ok fullQuota) (fun _ => "100.00") "u1" = Ok msg /\
    msg <> "".
Proof.
  eexists. split.
  - apply (storage_rejection_is_warned (fun _ => Ok fullQuota) (fun _ => "100.00")
             "u1" (Percentage fullQuota)).
    reflexivity.
  - discriminate.
Defined.

Lemma CountClients_count (dirs : list bool) (acc : Z) :
  fold_left (fun count isDir => if isDir : bool then count + 1 else count) dirs acc
  = acc + Z.of_nat (length (List.filter (fun isDir => isDir) dirs)).
Proof.
  revert acc. induction dirs as [| d dirs IH]; intros acc; cbn [fold_left List.filter].
  - cbn. lia.
  - rewrite IH. destruct d; cbn [length]; lia.
Qed.

(** X2: after a successful [GetQuota] the answer is pinned: until
    the cache entry expires every further [GetQuota] for that user returns
    the same quota and leaves the repository as it is, whatever has
    happened on disk in the meantime. *)
Theorem GetQuota_served_from_cache (r r' : FileQuotaRepository) (disk : Disk)
    (now stored : Z) (userID : string) (q : Quota) :
  QuotaRepo.GetQuota r disk now stored userID = (Ok q, r') ->
  exists c, cache r' !! userID = Some c /\ quota c = q /\
    forall disk' now' stored', now' < expiresAt c ->
      QuotaRepo.GetQuota r' disk' now' stored' userID = (Ok q, r').
Proof.
  unfold QuotaRepo.GetQuota.
  assert (Hfresh :
    match calculateQuota r disk userID with
    | Err e => (Err e, r)
    | Ok q0 =>
      (Ok q0, withCache r (<[userID := {| quota := q0;
                                          expiresAt := stored + cacheTTL r |}]> (cache r)))
    end = (Ok q, r') ->
    exists c, cache r' !! userID = Some c /\ quota c = q /\
      forall disk' now' stored', now' < expiresAt c ->
        match cache r' !! userID with
        | Some c0 =>
          if now' <? expiresAt c0 then (Ok (quota c0), r')
          else match calculateQuota r' disk' userID with
               | Err e => (Err e, r')
               | Ok q0 =>
                 (Ok q0, withCache r' (<[userID := {| quota := q0;
                                            expiresAt := stored' + cacheTTL r' |}]>
                                         (cache r')))
               end
        | None =>
          match calculateQuota r' disk' userID with
          | Err e => (Err e, r')
          | Ok q0 =>
            (Ok q0, withCache r' (<[userID := {| quota := q0;
                                       expiresAt := stored' + cacheTTL r' |}]>
                                    (cache r')))
          end
        end = (Ok q, r')).
  { destruct (calculateQuota r disk userID) as [q0 | e]; [| discriminate].
    intros [= <- <-]. eexists. cbn [cache withCache].
    split; [apply lookup_insert_eq |]. split; [reflexivity |].
    intros disk' now' stored' Hlt. rewrite lookup_insert_eq. cbn [expiresAt quota] in *.
    apply Z.ltb_lt in Hlt. rewrite Hlt. reflexivity. }
  destruct (cache r !! userID) as [c |] eqn:Hc; [| exact Hfresh].
  destruct (now <? expiresAt c) eqn:Hnow; [| exact Hfresh].
  intros [= <- <-]. exists c. split; [exact Hc |]. split; [reflexivity |].
  intros disk' now' stored' Hlt. rewrite Hc.
  apply Z.ltb_lt in Hlt. rewrite Hlt. reflexivity.
Qed.

Lemma GetQuota_served_from_cache_witness :
  exists r',
    QuotaRepo.GetQuota (NewFileQuotaRepository 3600 1000 10) sampleDisk 0 0 "u1"
    = (Ok twoClientsQuota, r') /\
    QuotaRepo.GetQuota r' crowdedDisk 3599 3599 "u1" = (Ok twoClientsQuota, r').
Proof.
  eexists. split; [reflexivity |].
  match goal with
  | |- QuotaRepo.GetQuota ?r' _ _ _ _ = _ =>
    destruct (GetQuota_served_from_cache (NewFileQuotaRepository 3600 1000 10) r'
                sampleDisk 0 0 "u1" twoClientsQuota eq_refl)
      as (c & Hc & _ & Hserve)
  end.
  apply Hserve.
  cbn in Hc. rewrite lookup_insert_eq in Hc. injection Hc as <-. cbn. lia.
Defined.

Lemma GetQuota_after_InvalidateCache (r : FileQuotaRepository) (disk : Disk)
    (now stored : Z) (userID : string) :
  fst (QuotaRepo.GetQuota (InvalidateCache r userID) disk now stored userID)
  = calculateQuota r disk userID.
Proof.
  unfold QuotaRepo.GetQuota, InvalidateCache. cbn [cache withCache].
  rewrite lookup_delete_eq.
  change (calculateQuota (withCache r (delete userID (cache r))) disk userID)
    with (calculateQuota r disk userID).
  destruct (calculateQuota r disk userID); reflexivity.
Qed.

(** X3: on a freshly counted quota the creation check looks at the
    client directories on disk: with the cache entry invalidated,
    [CheckCanCreateClient] passes exactly when the user has fewer client
    directories than the configured maximum; plain files among the entries
    and the storage in use do not count. *)
Theorem creation_check_counts_client_directories (r : FileQuotaRepository)
    (disk : Disk) (now stored : Z) (userID : string) (entries : list bool) (used : Z) :
  clientEntries disk userID = Some (Ok entries) ->
  CalculateUsage disk userID = Ok used ->
  CheckCanCreateClient
    (fun u => fst (QuotaRepo.GetQuota (InvalidateCache r u) disk now stored u)) userID
  = None
  <-> Z.of_nat (length (List.filter (fun isDir => isDir) entries)) < maxClientsPerUser r.
Proof.
  intros Hentries Hused.
  unfold CheckCanCreateClient, QuotaService.GetQuota.
  rewrite GetQuota_after_InvalidateCache.
  unfold calculateQuota, CountClients. rewrite Hused, Hentries.
  rewrite CountClients_count.
  unfold CanCreateClient, IsClientsLimitReached. cbn [ClientsCount MaxClients UpdateUsage NewQuota].
  rewrite Z.add_0_l.
  destruct (Z.leb_spec (maxClientsPerUser r)
              (Z.of_nat (length (List.filter (fun isDir => isDir) entries))));
    cbn [negb]; split; try discriminate; try reflexivity; lia.
Qed.

Lemma creation_check_counts_client_directories_witness :
  CheckCanCreateClient
    (fun u => fst (QuotaRepo.GetQuota
                     (InvalidateCache (NewFileQuotaRepository 3600 1000 2) u)
                     sampleDisk 0 0 u)) "u1"
  <> None.
Proof.
  intros H.
  apply (creation_check_counts_client_directories
           (NewFileQuotaRepository 3600 1000 2) sampleDisk 0 0 "u1"
           [true; false; true] 700 eq_refl eq_refl) in H.
  cbn in H. lia.
Defined.

End QuotaServiceFacts.

(** ** Batch operations on clients *)

Module ClientBatchFacts.
Import GoStrings ClientService ClientBatch ClientBatchSamples.

Lemma collectIDs_elem (ids : list string) (seen : gset string) (x : string) :
  x ∈ collectIDs ids seen <->
  x <> "" /\ (x ∉ seen) /\ exists id, id ∈ ids /\ TrimSpace id = x.
Proof.
  revert seen. induction ids as [| id rest IH]; intros seen; cbn [collectIDs].
  - split; [intros H; apply elem_of_nil in H; contradiction |].
    intros (_ & _ & id & Hid & _). apply elem_of_nil in Hid. contradiction.
  - destruct (String.eqb_spec (TrimSpace id) "") as [Hblank | Hfull].
    + rewrite IH. split.
      * intros (Hx & Hs & id' & Hin & Heq). repeat split; try assumption.
        exists id'. split; [now right | assumption].
      * intros (Hx & Hs & id' & Hin & Heq). repeat split; try assumption.
        apply elem_of_cons in Hin as [-> | Hin]; [congruence |].
        exists id'. split; assumption.
    + destruct (decide (TrimSpace id ∈ seen)) as [Hseen | Hnew].
      * rewrite IH. split.
        -- intros (Hx & Hs & id' & Hin & Heq). repeat split; try assumption.
           exists id'. split; [now right | assumption].
        -- intros (Hx & Hs & id' & Hin & Heq). repeat split; try assumption.
           apply elem_of_cons in Hin as [-> | Hin]; [congruence |].
           exists id'. split; assumption.
      * rewrite elem_of_cons, IH. split.
        -- intros [-> | (Hx & Hs & id' & Hin & Heq)].
           ++ repeat split; try assumption. exists id. split; [now left | reflexivity].
           ++ apply not_elem_of_union in Hs as [_ Hs].
              repeat split; try assumption.
              exists id'. split; [now right | assumption].
        -- intros (Hx & Hs & id' & Hin & Heq).
           destruct (decide (x = TrimSpace id)) as [-> | Hne]; [now left |].
           right. repeat split; [assumption | |].
           { apply not_elem_of_union. split; [| assumption].
             apply not_elem_of_singleton. assumption. }
           apply elem_of_cons in Hin as [-> | Hin]; [congruence |].
           exists id'. split; assumption.
Qed.

Lemma collectIDs_NoDup (ids : list string) (seen : gset string) :
  NoDup (collectIDs ids seen).
Proof.
  revert seen. induction ids as [| id rest IH]; intros seen; cbn [collectIDs].
  - apply NoDup_nil_2.
  - destruct (String.eqb (TrimSpace id) ""); [apply IH |].
    destruct (decide (TrimSpace id ∈ seen)); [apply IH |].
    apply NoDup_cons. split; [| apply IH].
    rewrite collectIDs_elem. intros (_ & Hs & _).
    apply not_elem_of_union in Hs as [Hs _]. apply Hs, elem_of_singleton. reflexivity.
Qed.

Lemma collectIDs_sublist (ids : list string) (seen : gset string) :
  sublist (collectIDs ids seen) (TrimSpace <$> ids).
Proof.
  revert seen. induction ids as [| id rest IH]; intros seen; cbn [collectIDs fmap list_fmap].
  - constructor.
  - destruct (String.eqb (TrimSpace id) ""); [apply sublist_cons, IH |].
    destruct (decide (TrimSpace id ∈ seen)); [apply sublist_cons, IH |].
    apply sublist_skip, IH.
Qed.

Section Batch.

Variable World : Type.
Variable GetByUserID : World -> string -> result string (list Client).
Variable Get : World -> string -> result string Client.
Variable Start : World -> string -> World * option string.
Variable Stop : World -> string -> World * option string.

(** X4: for a request that lists identifiers and does not ask for
    all clients, the targets of a batch operation are the listed
    identifiers trimmed of surrounding white space, in the order listed,
    each once, blank ones left out; the client repository is not
    consulted. *)
Theorem explicit_targets_trimmed_and_distinct (w : World) (userID : string)
    (req : ClientBatchRequest) :
  All req = false -> ClientIDs req <> [] ->
  exists ids,
    getBatchTargetClientIDs World GetByUserID w userID (Some req) = Ok ids /\
    NoDup ids /\
    sublist ids (TrimSpace <$> ClientIDs req) /\
    forall x, x ∈ ids <-> x <> "" /\ exists id, id ∈ ClientIDs req /\ TrimSpace id = x.
Proof.
  intros Hall Hids. unfold getBatchTargetClientIDs. rewrite Hall.
  destruct (ClientIDs req) as [| id rest] eqn:E; [contradiction |].
  cbn [length Nat.eqb orb].
  eexists. split; [reflexivity |].
  split; [apply collectIDs_NoDup |]. split; [apply collectIDs_sublist |].
  intros x. rewrite collectIDs_elem. split.
  - intros (Hx & _ & Hid). split; assumption.
  - intros (Hx & Hid). repeat split; [assumption | apply not_elem_of_empty | assumption].
Qed.

Lemma batchLoop_accounts (operate : World -> string -> World * option string)
    (userID : string) (clientIDs : list string) (w : World)
    (response : ClientBatchResponse) :
  exists results,
    let out := snd (batchLoop World Get operate userID clientIDs w response) in
    b_Results out = b_Results response ++ results /\
    map b_ClientID results = clientIDs /\
    b_Total out = b_Total response /\
    b_Successful out = b_Successful response + successes results /\
    b_Failed out = b_Failed response + failures results.
Proof.
  revert w response. induction clientIDs as [| clientID rest IH]; intros w response.
  - exists []. cbn. rewrite app_nil_r. unfold successes, failures. cbn.
    repeat split; lia.
  - cbn [batchLoop].
    assert (Hfail : forall w1 msg,
      exists results,
        let out := snd (batchLoop World Get operate userID rest w1
                          (failedResult response clientID msg)) in
        b_Results out = b_Results response ++ results /\
        map b_ClientID results = clientID :: rest /\
        b_Total out = b_Total response /\
        b_Successful out = b_Successful response + successes results /\
        b_Failed out = b_Failed response + failures results).
    { intros w1 msg.
      destruct (IH w1 (failedResult response clientID msg))
        as (results & Hr & Hids & Ht & Hs & Hf).
      exists ({| b_ClientID := clientID; b_Success := false; b_Message := msg |}
              :: results).
      cbn zeta in *. rewrite Hr, Ht, Hs, Hf. cbn [failedResult b_Results b_Total
        b_Successful b_Failed map b_ClientID]. rewrite <- app_assoc, Hids.
      unfold successes, failures. cbn [List.filter b_Success negb length app].
      repeat split; lia. }
    destruct (Get w clientID) as [client | e]; [| apply Hfail].
    destruct (negb (String.eqb (OwnerID client) userID)); [apply Hfail |].
    destruct (operate w clientID) as [w1 [msg |]]; [apply Hfail |].
    destruct (IH w1 (succeededResult response clientID))
      as (results & Hr & Hids & Ht & Hs & Hf).
    exists ({| b_ClientID := clientID; b_Success := true; b_Message := "" |} :: results).
    cbn zeta in *. rewrite Hr, Ht, Hs, Hf. cbn [succeededResult b_Results b_Total
      b_Successful b_Failed map b_ClientID]. rewrite <- app_assoc, Hids.
    unfold successes, failures. cbn [List.filter b_Success negb length app].
    repeat split; lia.
Qed.

Lemma successes_failures (results : list ClientBatchResult) :
  successes results + failures results = Z.of_nat (length results).
Proof.
  unfold successes, failures. induction results as [| r results IH]; [reflexivity |].
  cbn [List.filter length]. destruct (b_Success r); cbn [negb length]; lia.
Qed.

Lemma batch_accounts (operate : World -> string -> World * option string)
    (w w' : World) (userID : string) (req : option ClientBatchRequest)
    (ids : list string) (response : ClientBatchResponse) :
  getBatchTargetClientIDs World GetByUserID w userID req = Ok ids ->
  batch World GetByUserID Get operate w userID req = (w', Ok response) ->
  map b_ClientID (b_Results response) = ids /\
  b_Total response = Z.of_nat (length ids) /\
  b_Successful response = successes (b_Results response) /\
  b_Failed response = failures (b_Results response) /\
  b_Successful response + b_Failed response = b_Total response.
Proof.
  intros Hids. unfold batch. rewrite Hids.
  destruct ids as [| id rest].
  - cbn. intros [= <- <-]. cbn. unfold successes, failures. cbn. repeat split.
  - cbn [length Nat.eqb].
    set (r0 := {| b_Total := Z.of_nat (S (length rest)); b_Successful := 0;
                  b_Failed := 0; b_Results := [] |}).
    destruct (batchLoop_accounts operate userID (id :: rest) w r0)
      as (results & Hr & Hmap & Ht & Hs & Hf).
    destruct (batchLoop World Get operate userID (id :: rest) w r0) as [w1 out].
    cbn [snd] in *. intros [= <- <-].
    cbn [b_Results b_Total b_Successful b_Failed r0 app] in *.
    rewrite Hr, Ht, Hs, Hf.
    assert (Hlen : length results = S (length rest)).
    { rewrite <- (length_map b_ClientID), Hmap. reflexivity. }
    pose proof (successes_failures results) as Hsum. rewrite Hlen in Hsum.
    cbn [length]. repeat split; try assumption; lia.
Qed.

(** X5: a batch start or stop reports on every target, once and in
    target order: the results name the targets one for one, the total is
    their number, and the successful and failed counts are the numbers of
    results marked so, adding up to the total. *)
Theorem batch_reports_every_target (w w' : World) (userID : string)
    (req : option ClientBatchRequest) (ids : list string)
    (response : ClientBatchResponse) :
  getBatchTargetClientIDs World GetByUserID w userID req = Ok ids ->
  BatchStart World GetByUserID Get Start w userID req = (w', Ok response)
  \/ BatchStop World GetByUserID Get Stop w userID req = (w', Ok response) ->
  map b_ClientID (b_Results response) = ids /\
  b_Total response = Z.of_nat (length ids) /\
  b_Successful response = successes (b_Results response) /\
  b_Failed response = failures (b_Results response) /\
  b_Successful response + b_Failed response = b_Total response.
Proof.
  intros Hids [H | H]; eapply batch_accounts; eassumption.
Qed.

Lemma batchLoop_foreign (operate : World -> string -> World * option string)
    (userID : string) (clientIDs : list string) (w : World)
    (response : ClientBatchResponse) :
  (forall id, id ∈ clientIDs ->
     match Get w id with
     | Ok client => OwnerID client <> userID
     | Err _ => True
     end) ->
  fst (batchLoop World Get operate userID clientIDs w response) = w /\
  b_Successful (snd (batchLoop World Get operate userID clientIDs w response))
  = b_Successful response.
Proof.
  revert response. induction clientIDs as [| clientID rest IH]; intros response Hforeign.
  - split; reflexivity.
  - cbn [batchLoop]. pose proof (Hforeign clientID ltac:(left)) as Hc.
    assert (Hrest : forall id, id ∈ rest ->
              match Get w id with
              | Ok client => OwnerID client <> userID
              | Err _ => True
              end) by (intros id Hid; apply Hforeign; now right).
    destruct (Get w clientID) as [client | e].
    + destruct (String.eqb_spec (OwnerID client) userID) as [Heq | Hne];
        [contradiction |]. cbn [negb].
      destruct (IH (failedResult response clientID
                      "client does not belong to current user") Hrest) as [-> ->].
      split; reflexivity.
    + destruct (IH (failedResult response clientID ("failed to load client: " ++ e)%string)
                  Hrest) as [-> ->].
      split; reflexivity.
Qed.

(** X6: a batch start or stop never operates on a client of
    another user: when none of the targets loads as a client of the
    calling user, neither [Start] nor [Stop] is applied, the state is left
    as it was, and no result is marked successful. *)
Theorem batch_leaves_foreign_clients_alone (w : World) (userID : string)
    (req : option ClientBatchRequest) (ids : list string) :
  getBatchTargetClientIDs World GetByUserID w userID req = Ok ids ->
  (forall id, id ∈ ids ->
     match Get w id with
     | Ok client => OwnerID client <> userID
     | Err _ => True
     end) ->
  exists started stopped,
    BatchStart World GetByUserID Get Start w userID req = (w, Ok started) /\
    BatchStop World GetByUserID Get Stop w userID req = (w, Ok stopped) /\
    b_Successful started = 0 /\ b_Successful stopped = 0 /\
    b_Failed started = Z.of_nat (length ids) /\
    b_Failed stopped = Z.of_nat (length ids).
Proof.
  intros Hids Hforeign.
  assert (Hone : forall operate, exists response,
            batch World GetByUserID Get operate w userID req = (w, Ok response) /\
            b_Successful response = 0 /\ b_Failed response = Z.of_nat (length ids)).
  { intros operate.
    assert (Hex : exists response,
              batch World GetByUserID Get operate w userID req = (w, Ok response) /\
              b_Successful response = 0).
    { unfold batch. rewrite Hids.
      destruct (length ids =? 0)%nat; [eexists; split; reflexivity |].
      match goal with
      | |- context [batchLoop World Get operate userID ids w ?r0] =>
        destruct (batchLoop_foreign operate userID ids w r0 Hforeign) as [Hw Hs];
        destruct (batchLoop World Get operate userID ids w r0) as [w1 out]
      end.
      cbn [fst snd] in *. subst w1. exists out. split; [reflexivity | exact Hs]. }
    destruct Hex as (response & Hrun & Hs). exists response.
    split; [exact Hrun |]. split; [exact Hs |].
    destruct (batch_accounts operate w w userID req ids response Hids Hrun)
      as (_ & Ht & _ & _ & Hsum). lia. }
  destruct (Hone Start) as (started & H1 & H2 & H3).
  destruct (Hone Stop) as (stopped & H4 & H5 & H6).
  exists started, stopped. repeat split; assumption.
Qed.

End Batch.

Lemma explicit_targets_trimmed_and_distinct_witness :
  exists ids,
    getBatchTargetClientIDs unit (fun _ _ => Err "unused") tt "u1"
      (Some {| ClientIDs := [" a "; "b"; ""; "a"; "  "]; All := false |}) = Ok ids /\
    NoDup ids /\ ("a" ∈ ids).
Proof.
  destruct (explicit_targets_trimmed_and_distinct unit (fun _ _ => Err "unused") tt "u1"
              {| ClientIDs := [" a "; "b"; ""; "a"; "  "]; All := false |}
              eq_refl ltac:(discriminate)) as (ids & Hrun & Hnd & _ & Hin).
  exists ids. split; [exact Hrun |]. split; [exact Hnd |].
  apply Hin. split; [discriminate |]. exists " a ". split; [left | reflexivity].
Defined.

Lemma batch_reports_every_target_witness :
  exists w' response,
    BatchStart sampleWorld sampleGetByUserID sampleGet sampleStart [] "u1"
      (Some {| ClientIDs := ["c1"; "c9"; "c2"]; All := false |}) = (w', Ok response) /\
    map b_ClientID (b_Results response) = ["c1"; "c9"; "c2"] /\
    b_Successful response + b_Failed response = 3.
Proof.
  eexists _, _. split; [vm_compute; reflexivity |].
  match goal with
  | |- map b_ClientID (b_Results ?resp) = _ /\ _ =>
    destruct (batch_reports_every_target sampleWorld sampleGetByUserID sampleGet
                sampleStart sampleStop [] ["c1"] "u1"
                (Some {| ClientIDs := ["c1"; "c9"; "c2"]; All := false |})
                ["c1"; "c9"; "c2"] resp)
      as (Hmap & Ht & _ & _ & Hsum)
  end.
  - vm_compute. reflexivity.
  - left. vm_compute. reflexivity.
  - split; [exact Hmap |]. rewrite Hsum, Ht. reflexivity.
Defined.

Lemma batch_leaves_foreign_clients_alone_witness :
  exists started,
    BatchStart sampleWorld sampleGetByUserID sampleGet sampleStart [] "u1"
      (Some {| ClientIDs := ["c2"; "c9"]; All := false |}) = ([], Ok started) /\
    b_Successful started = 0.
Proof.
  destruct (batch_leaves_foreign_clients_alone sampleWorld sampleGetByUserID sampleGet
              sampleStart sampleStop [] "u1"
              (Some {| ClientIDs := ["c2"; "c9"]; All := false |}) ["c2"; "c9"])
    as (started & stopped & H1 & _ & H2 & _).
  - vm_compute. reflexivity.
  - intros id Hid.
    apply elem_of_cons in Hid as [-> | Hid];
      [| apply list_elem_of_singleton in Hid as ->].
    + vm_compute. discriminate.
    + vm_compute. exact I.
  - exists started. split; assumption.
Defined.

End ClientBatchFacts.

(** ** Deleting and sweeping stored events *)

Module StoreFacts.
Import EventRepo DeleteSpec StoreSamples Retention DeleteFacts.

(** X7: [Delete] fails exactly when the client has no stored record
    of the event, and a failed [Delete] leaves the store as it was; in
    every case the directories of the other clients are untouched. *)
Theorem Delete_fails_only_without_record (fs : Store) (clientID eventID other : string) :
  (snd (Delete fs clientID eventID) <> None <-> copiesIn fs clientID eventID = 0%nat) /\
  (snd (Delete fs clientID eventID) <> None -> fst (Delete fs clientID eventID) = fs) /\
  (other <> clientID -> fst (Delete fs clientID eventID) !! other = fs !! other).
Proof.
  split; [| split].
  - pose proof (Delete_error fs clientID eventID) as H.
    destruct (snd (Delete fs clientID eventID)) as [e |].
    + split; [intros _ | discriminate].
      destruct (copiesIn fs clientID eventID); [reflexivity |].
      assert (Some e = None) by (apply H; lia). discriminate.
    + split; [intros Hn; contradiction |].
      intros H0. assert (0 < copiesIn fs clientID eventID)%nat by (apply H; reflexivity).
      lia.
  - unfold Delete. destruct (fs !! clientID) as [dir |]; [| reflexivity].
    destruct (decide (eventID ∈ jsons (flat dir))); [intros H; contradiction |].
    destruct (deleteFromDateDirs (dateDirs dir) eventID);
      [intros H; contradiction | reflexivity].
  - intros Hne. unfold Delete. destruct (fs !! clientID) as [dir |]; [| reflexivity].
    destruct (decide (eventID ∈ jsons (flat dir))); cbn [fst].
    + apply lookup_insert_ne. congruence.
    + destruct (deleteFromDateDirs (dateDirs dir) eventID); cbn [fst];
        [apply lookup_insert_ne; congruence | reflexivity].
Qed.

Lemma Delete_fails_only_without_record_witness :
  copiesIn sampleStore "client-1" "missing" = 0%nat /\
  fst (Delete sampleStore "client-1" "missing") = sampleStore.
Proof.
  destruct (Delete_fails_only_without_record sampleStore "client-1" "missing" "client-2")
    as (Hiff & Hsame & _).
  assert (Hfail : snd (Delete sampleStore "client-1" "missing") <> None)
    by (vm_compute; discriminate).
  split; [apply Hiff; exact Hfail | apply Hsame; exact Hfail].
Defined.

(** X8: deleting an event that is stored once succeeds, and
    deleting it again reports that the event is not found and changes
    nothing. *)
Theorem Delete_twice_not_found (fs : Store) (clientID eventID : string) :
  copiesIn fs clientID eventID = 1%nat ->
  let fs' := fst (Delete fs clientID eventID) in
  snd (Delete fs clientID eventID) = None /\
  Delete fs' clientID eventID = (fs', Some (EventNotFound eventID)).
Proof.
  intros Hone fs'.
  assert (Hok : snd (Delete fs clientID eventID) = None).
  { apply Delete_error. lia. }
  split; [exact Hok |].
  assert (Hgone : copiesIn fs' clientID eventID = 0%nat).
  { unfold fs'. rewrite Delete_copies.
    destruct (decide (eventID = eventID)); [| contradiction]. rewrite Hone. reflexivity. }
  assert (Hdir : is_Some (fs' !! clientID)).
  { unfold fs', Delete. unfold copiesIn in Hone.
    destruct (fs !! clientID) as [dir |] eqn:Hd; [| discriminate].
    destruct (decide (eventID ∈ jsons (flat dir))); cbn [fst].
    - rewrite lookup_insert_eq. eexists. reflexivity.
    - destruct (deleteFromDateDirs (dateDirs dir) eventID); cbn [fst].
      + rewrite lookup_insert_eq. eexists. reflexivity.
      + rewrite Hd. eexists. reflexivity. }
  destruct Hdir as [dir' Hdir'].
  unfold copiesIn in Hgone. rewrite Hdir' in Hgone. unfold copies, holds in Hgone.
  unfold Delete. rewrite Hdir'.
  destruct (decide (eventID ∈ jsons (flat dir'))); [discriminate |].
  destruct (deleteFromDateDirs (dateDirs dir') eventID) as [dirs' |] eqn:Hdd;
    [| reflexivity].
  exfalso.
  assert (Hz : holdsInDateDirs (dateDirs dir') eventID = 0%nat) by lia.
  clear - Hdd Hz. revert dirs' Hdd Hz.
  induction (dateDirs dir') as [| [name d] dirs IH]; intros dirs'; cbn; [discriminate |].
  unfold holds. destruct (decide (eventID ∈ jsons d)); [lia |].
  destruct (deleteFromDateDirs dirs eventID) eqn:E; [| discriminate].
  intros _ Hz. eapply IH; [reflexivity | lia].
Qed.

Lemma Delete_twice_not_found_witness :
  snd (Delete sampleStore "client-1" "e3") = None /\
  snd (Delete (fst (Delete sampleStore "client-1" "e3")) "client-1" "e3")
  = Some (EventNotFound "e3").
Proof.
  destruct (Delete_twice_not_found sampleStore "client-1" "e3") as [H1 H2].
  - vm_compute. reflexivity.
  - split; [exact H1 |]. rewrite H2. reflexivity.
Defined.

Section Sweep.

Variable parseDate : string -> option Z.
Variable cutoffDate : Z -> Z.

Lemma sweepDateDirs_elem (dirs : list (string * Dir)) (cutoff : Z) (entry : string * Dir) :
  entry ∈ sweepDateDirs parseDate dirs cutoff <->
  entry ∈ dirs /\ forall t, parseDate (fst entry) = Some t -> cutoff <= t.
Proof.
  induction dirs as [| [name d] dirs IH]; cbn [sweepDateDirs].
  - split; [intros H | intros [H _]]; apply elem_of_nil in H; contradiction.
  - destruct (parseDate name) as [t |] eqn:Hp.
    + destruct (Z.ltb_spec t cutoff) as [Hlt | Hge].
      * rewrite IH, elem_of_cons. split; [tauto |].
        intros [[-> | Hin] Hdate]; [| tauto].
        specialize (Hdate t Hp). lia.
      * rewrite !elem_of_cons, IH. split; [| tauto].
        intros [-> | [Hin Hdate]]; [| tauto].
        split; [now left |]. cbn [fst]. intros t' Ht'. congruence.
    + rewrite !elem_of_cons, IH. split; [| tauto].
      intros [-> | [Hin Hdate]]; [| tauto].
      split; [now left |]. cbn [fst]. intros t' Ht'. congruence.
Qed.

Lemma sweepDateDirs_sublist (dirs : list (string * Dir)) (cutoff : Z) :
  sublist (sweepDateDirs parseDate dirs cutoff) dirs.
Proof.
  induction dirs as [| [name d] dirs IH]; cbn [sweepDateDirs]; [constructor |].
  destruct (parseDate name) as [t |]; [| apply sublist_skip, IH].
  destruct (t <? cutoff); [apply sublist_cons, IH | apply sublist_skip, IH].
Qed.

(** X9: the retention sweep removes whole date directories and
    nothing else: with a non-zero retention it returns nil for a client
    that has an events directory, keeps the records stored directly under
    it, keeps the date directories in order, removing exactly those whose
    name is a date before the cut-off (a name that is no date stays), and
    does not touch the other clients. *)
Theorem CleanupOldEvents_removes_only_old_date_dirs (fs : Store)
    (clientID : string) (retentionDays : Z) (dir : EventsDir) :
  retentionDays <> 0 ->
  fs !! clientID = Some dir ->
  exists dir',
    CleanupOldEvents parseDate cutoffDate fs clientID retentionDays
    = (<[clientID := dir']> fs, None) /\
    flat dir' = flat dir /\
    sublist (dateDirs dir') (dateDirs dir) /\
    forall entry,
      entry ∈ dateDirs dir' <->
      entry ∈ dateDirs dir /\
      forall t, parseDate (fst entry) = Some t -> cutoffDate retentionDays <= t.
Proof.
  intros Hdays Hdir. unfold CleanupOldEvents.
  destruct (Z.eqb_spec retentionDays 0) as [H0 | _]; [contradiction |].
  rewrite Hdir. eexists. split; [reflexivity |]. cbn [flat dateDirs].
  split; [reflexivity |]. split; [apply sweepDateDirs_sublist |].
  intros entry. apply sweepDateDirs_elem.
Qed.

Lemma sweepDateDirs_again (dirs : list (string * Dir)) (cutoff cutoff' : Z) :
  cutoff' <= cutoff ->
  sweepDateDirs parseDate (sweepDateDirs parseDate dirs cutoff) cutoff'
  = sweepDateDirs parseDate dirs cutoff.
Proof.
  intros Hle. induction dirs as [| [name d] dirs IH]; cbn [sweepDateDirs]; [reflexivity |].
  destruct (parseDate name) as [t |] eqn:Hp.
  - destruct (Z.ltb_spec t cutoff) as [Hlt | Hge]; [exact IH |].
    cbn [sweepDateDirs]. rewrite Hp.
    destruct (Z.ltb_spec t cutoff') as [Hlt' | _]; [lia |]. rewrite IH. reflexivity.
  - cbn [sweepDateDirs]. rewrite Hp, IH. reflexivity.
Qed.

(** X10: sweeping again removes nothing more: after a sweep, a
    second sweep with the same or an earlier cut-off leaves the store as
    the first one left it. *)
Theorem CleanupOldEvents_idempotent (fs : Store) (clientID : string)
    (retentionDays retentionDays' : Z) :
  cutoffDate retentionDays' <= cutoffDate retentionDays ->
  retentionDays <> 0 ->
  let fs' := fst (CleanupOldEvents parseDate cutoffDate fs clientID retentionDays) in
  fst (CleanupOldEvents parseDate cutoffDate fs' clientID retentionDays') = fs'.
Proof.
  intros Hle Hdays fs'. unfold fs', CleanupOldEvents.
  destruct (Z.eqb_spec retentionDays 0) as [H0 | _]; [contradiction |].
  destruct (retentionDays' =? 0); [reflexivity |].
  destruct (fs !! clientID) as [dir |] eqn:Hdir; cbn [fst].
  - rewrite lookup_insert_eq. cbn [fst flat dateDirs].
    rewrite sweepDateDirs_again by exact Hle.
    rewrite insert_insert_eq. reflexivity.
  - rewrite Hdir. reflexivity.
Qed.

End Sweep.

Lemma CleanupOldEvents_removes_only_old_date_dirs_witness :
  exists dir',
    CleanupOldEvents dayNumber (fun days => 20 - days) datedStore "client-1" 7
    = (<["client-1" := dir']> datedStore, None) /\
    flat dir' = {| jsons := {[ "e1" ]}; scripts := ∅ |} /\
    (("notes", {| jsons := {[ "e4" ]}; scripts := ∅ |}) ∈ dateDirs dir') /\
    (("day-03", {| jsons := {[ "e2" ]}; scripts := ∅ |}) ∉ dateDirs dir').
Proof.
  destruct (CleanupOldEvents_removes_only_old_date_dirs dayNumber (fun days => 20 - days)
              datedStore "client-1" 7
              {| flat := {| jsons := {[ "e1" ]}; scripts := ∅ |};
                 dateDirs := [("day-03", {| jsons := {[ "e2" ]}; scripts := ∅ |});
                              ("day-15", {| jsons := {[ "e3" ]}; scripts := ∅ |});
                              ("notes", {| jsons := {[ "e4" ]}; scripts := ∅ |})] |})
    as (dir' & Hrun & Hflat & _ & Hin).
  - discriminate.
  - reflexivity.
  - exists dir'. split; [exact Hrun |]. split; [exact Hflat |]. split.
    + apply Hin. split; [cbn [dateDirs]; right; right; left |].
      cbn. discriminate.
    + intros H. apply Hin in H as [_ H]. specialize (H 3 eq_refl). cbn in H. lia.
Defined.

Lemma CleanupOldEvents_idempotent_witness :
  fst (CleanupOldEvents dayNumber (fun days => 20 - days)
         (fst (CleanupOldEvents dayNumber (fun days => 20 - days) datedStore "client-1" 7))
         "client-1" 30)
  = fst (CleanupOldEvents dayNumber (fun days => 20 - days) datedStore "client-1" 7).
Proof.
  apply (CleanupOldEvents_idempotent dayNumber (fun days => 20 - days) datedStore
           "client-1" 7 30); [cbn; lia | discriminate].
Defined.

End StoreFacts.

(** ** Replaying stored events *)

Module ReplayFacts.
Import Event Replay ReplaySpec.

Section Service.

Variable World : Type.
Variable getEvent : World -> string -> result string Event.
Variable exchange : World -> Event -> Exchange * World.
Variable formatInt : Z -> string.

Lemma replayEvent_wellReported (w : World) (eventID : string) :
  EventID (fst (replayEvent World getEvent exchange formatInt w eventID)) = eventID /\
  wellReported (fst (replayEvent World getEvent exchange formatInt w eventID)).
Proof.
  unfold replayEvent, wellReported.
  destruct (getEvent w eventID) as [event | e]; cbn.
  - destruct (exchange w event) as [[e | e | status latency body] w']; cbn.
    + repeat split; try discriminate; lia.
    + repeat split; try discriminate; lia.
    + split; [reflexivity |].
      destruct (Z.leb_spec 200 status), (Z.ltb_spec status 300); cbn;
        repeat split; try discriminate; try reflexivity; lia.
  - repeat split; try discriminate; lia.
Qed.

Lemma replayAll_accounts (w : World) (eventIDs : list string)
    (response : EventReplayResponse) :
  exists results,
    let out := fst (replayAll World getEvent exchange formatInt w eventIDs response) in
    Results out = Results response ++ results /\
    map EventID results = eventIDs /\
    Forall wellReported results /\
    Total out = Total response /\
    Successful out = Successful response + succeeded results /\
    Failed out = Failed response + failed results.
Proof.
  revert w response. induction eventIDs as [| eventID rest IH]; intros w response.
  - exists []. cbn. rewrite app_nil_r. unfold succeeded, failed. cbn.
    repeat split; try lia. constructor.
  - cbn [replayAll].
    destruct (replayEvent_wellReported w eventID) as [Hid Hwell].
    destruct (replayEvent World getEvent exchange formatInt w eventID) as [result w1]. cbn [fst] in Hid, Hwell.
    match goal with
    | |- context [replayAll World getEvent exchange formatInt w1 rest ?resp] =>
      destruct (IH w1 resp) as (results & Hr & Hids & Hall & Ht & Hs & Hf)
    end.
    exists (result :: results). cbn zeta in *.
    rewrite Hr, Ht, Hs, Hf. cbn [Results Total Successful Failed map].
    rewrite <- app_assoc, Hid, Hids. unfold succeeded, failed.
    cbn [List.filter app].
    split; [reflexivity |]. split; [reflexivity |].
    split; [constructor; assumption |]. split; [reflexivity |].
    destruct (Success result); cbn [negb length]; split; lia.
Qed.

Lemma succeeded_failed (results : list EventReplayResult) :
  succeeded results + failed results = Z.of_nat (length results).
Proof.
  unfold succeeded, failed. induction results as [| r results IH]; [reflexivity |].
  cbn [List.filter length]. destruct (Success r); cbn [negb length]; lia.
Qed.

(** X11: once the client is found, a replay always returns a
    response, never an error, and the response accounts for every
    requested event: one result per identifier, in request order (an
    identifier given twice is replayed twice), the total is the number of
    identifiers, and the successful and failed counts are the numbers of
    results marked so, adding up to the total.  A failed replay does not
    stop the ones after it. *)
Theorem Replay_reports_every_event (w : World) (eventIDs : list string) :
  exists response w',
    Replay World getEvent exchange formatInt w None eventIDs = (Ok response, w') /\
    map EventID (Results response) = eventIDs /\
    Total response = Z.of_nat (length eventIDs) /\
    Successful response = succeeded (Results response) /\
    Failed response = failed (Results response) /\
    Successful response + Failed response = Total response.
Proof.
  unfold Replay.
  set (r0 := {| Total := Z.of_nat (length eventIDs); Successful := 0; Failed := 0;
                Results := [] |}).
  destruct (replayAll_accounts w eventIDs r0) as (results & Hr & Hids & _ & Ht & Hs & Hf).
  destruct (replayAll World getEvent exchange formatInt w eventIDs r0) as [response w']. cbn [fst] in *.
  exists response, w'. split; [reflexivity |].
  cbn [r0 Results Total Successful Failed app] in *.
  rewrite Hr, Ht, Hs, Hf.
  assert (Hlen : length results = length eventIDs).
  { rewrite <- (length_map EventID), Hids. reflexivity. }
  pose proof (succeeded_failed results) as Hsum. rewrite Hlen in Hsum.
  repeat split; try assumption; lia.
Qed.

(** X12: every result of a replay is marked successful exactly when
    the target answered with a status from 200 to 299, a successful result
    carries no error message, and every failed one carries a message (an
    event that could not be read, a request that could not be sent, or the
    status and body of the answer). *)
Theorem Replay_results_well_reported (w w' : World) (eventIDs : list string)
    (response : EventReplayResponse) (r : EventReplayResult) :
  Replay World getEvent exchange formatInt w None eventIDs = (Ok response, w') ->
  r ∈ Results response ->
  (Success r = true <-> 200 <= r_StatusCode r < 300) /\
  (Success r = true -> r_ErrorMessage r = "") /\
  (Success r = false -> r_ErrorMessage r <> "").
Proof.
  unfold Replay.
  set (r0 := {| Total := Z.of_nat (length eventIDs); Successful := 0; Failed := 0;
                Results := [] |}).
  destruct (replayAll_accounts w eventIDs r0) as (results & Hr & _ & Hall & _).
  destruct (replayAll World getEvent exchange formatInt w eventIDs r0) as [out w1].
  cbn [fst] in *. intros [= <- <-].
  cbn [r0 Results app] in Hr. rewrite Hr. intros Hin.
  rewrite List.Forall_forall in Hall. apply (Hall r).
  apply list_elem_of_In. exact Hin.
Qed.

End Service.

Lemma Replay_results_well_reported_witness :
  exists response w',
    Replay (list Z) scriptedGet scriptedExchange (fun _ => "502") [204; 502] None
      ["e1"; "missing"; "e1"] = (Ok response, w') /\
    forall r, r ∈ Results response ->
      Success r = true <-> 200 <= r_StatusCode r < 300.
Proof.
  eexists _, _. split; [reflexivity |].
  intros r Hr.
  eapply (Replay_results_well_reported (list Z) scriptedGet scriptedExchange
            (fun _ => "502") [204; 502] _ ["e1"; "missing"; "e1"] _ r eq_refl Hr).
Defined.

End ReplayFacts.

(** ** Log files: search and pagination *)

Module LogServiceFacts.
Import GoStrings EventRepo LogHub ProcessService LogService ListSpec PageFacts LogSamples.

Lemma handlerPage_range (page : Z) : 1 <= handlerPage page.
Proof. unfold handlerPage. destruct (Z.ltb_spec page 1); lia. Qed.

Lemma handlerPageSize_range (pageSize : Z) : 1 <= handlerPageSize pageSize <= 1000.
Proof.
  unfold handlerPageSize.
  destruct (Z.ltb_spec pageSize 1), (Z.ltb_spec 1000 pageSize); cbn [orb]; lia.
Qed.

Lemma matchingLines_filter (ToLower : string -> string) (lines : list string)
    (search : string) :
  matchingLines ToLower lines search
  = List.filter (fun line => (String.eqb search "")
                             || Contains (ToLower line) (ToLower search)) lines.
Proof.
  induction lines as [| line lines IH]; cbn [matchingLines List.filter]; [reflexivity |].
  rewrite IH.
  destruct (String.eqb search ""), (Contains (ToLower line) (ToLower search));
    reflexivity.
Qed.

Section Service.

Variable ToLower : string -> string.
Variable validDate : string -> bool.
Variable logFileAt : string -> string -> string -> LogFile.

(** X13: behind the handler's clamps (a page below one reads as one,
    a page size outside 1..1000 as 100) a readable log file is paged
    without error as long as the offset stays within the 64-bit range: the
    page holds the matching lines from offset (page-1)*size on, at most
    size of them, in file order, and the total counts all matching
    lines.  A line matches when the search term is empty or the line,
    lower-cased by [strings.ToLower], contains the term lower-cased the
    same way. *)
Theorem HandleGetLogs_pages_matching_lines (userID clientID date : string)
    (page pageSize : Z) (search : string) (lines : list string) :
  validDate date = true ->
  logFileAt userID clientID date = Scanned lines None ->
  let size := handlerPageSize pageSize in
  let offset := (handlerPage page - 1) * size in
  offset + size < 2 ^ 63 ->
  HandleGetLogs ToLower validDate logFileAt userID clientID date page pageSize search
  = LogsOk (firstn (Z.to_nat size)
              (skipn (Z.to_nat offset) (matchingLines ToLower lines search)))
           (Z.of_nat (length (matchingLines ToLower lines search))).
Proof.
  intros Hdate Hfile size offset Hfits.
  unfold HandleGetLogs, GetLogs, getLogFile. rewrite Hdate, Hfile.
  fold size. fold offset.
  pose proof (handlerPage_range page) as Hp.
  pose proof (handlerPageSize_range pageSize) as Hs. fold size in Hs.
  assert (H0 : 0 <= offset) by (unfold offset; nia).
  rewrite (wrap64_small offset) by lia.
  rewrite (wrap64_small (offset + size)) by lia.
  set (allLines := matchingLines ToLower lines search).
  set (total := Z.of_nat (length allLines)).
  destruct (Z.leb_spec total offset) as [Hpast | Hin].
  - rewrite skipn_all2 by (subst total; lia). rewrite firstn_nil. reflexivity.
  - destruct (Z.ltb_spec total (offset + size)) as [Hshort | Hfull].
    + rewrite sliceRange_ok by (subst total; lia).
      f_equal.
      rewrite !firstn_all2; [reflexivity | |]; rewrite length_skipn; subst total; lia.
    + rewrite sliceRange_ok by (subst total; lia).
      replace (offset + size - offset) with size by lia. reflexivity.
Qed.

(** X14: the handler's clamps do not bound the page number from
    above: when the offset (page-1)*size wraps to a negative 64-bit value,
    the slice expression of [GetLogs] panics on every readable log file,
    whatever its lines. *)
Theorem HandleGetLogs_panics_on_wrapped_offset (userID clientID date : string)
    (page pageSize : Z) (search : string) (lines : list string) :
  validDate date = true ->
  logFileAt userID clientID date = Scanned lines None ->
  wrap64 ((handlerPage page - 1) * handlerPageSize pageSize) < 0 ->
  HandleGetLogs ToLower validDate logFileAt userID clientID date page pageSize search
  = LogsPanic.
Proof.
  intros Hdate Hfile Hneg.
  unfold HandleGetLogs, GetLogs, getLogFile. rewrite Hdate, Hfile.
  set (start := wrap64 ((handlerPage page - 1) * handlerPageSize pageSize)) in *.
  set (total := Z.of_nat (length (matchingLines ToLower lines search))).
  destruct (Z.leb_spec total start) as [Hpast | _]; [subst total; lia |].
  unfold sliceRange.
  destruct (Z.leb_spec 0 start) as [Hpos | _]; [lia |]. reflexivity.
Qed.

End Service.

Lemma HandleGetLogs_pages_matching_lines_witness :
  HandleGetLogs asciiLower (fun _ => true) (fun _ _ _ => Scanned sampleLog None)
    "u1" "c1" "2025-10-01" 2 2 "ERROR"
  = LogsOk ["d Error x"] 3.
Proof.
  rewrite (HandleGetLogs_pages_matching_lines asciiLower (fun _ => true)
             (fun _ _ _ => Scanned sampleLog None) "u1" "c1" "2025-10-01" 2 2 "ERROR"
             sampleLog eq_refl eq_refl);
    [reflexivity | vm_compute; reflexivity].
Defined.

Lemma HandleGetLogs_panics_on_wrapped_offset_witness :
  HandleGetLogs asciiLower (fun _ => true) (fun _ _ _ => Scanned sampleLog None)
    "u1" "c1" "2025-10-01" (2 ^ 63 - 1) 100 ""
  = LogsPanic.
Proof.
  apply (HandleGetLogs_panics_on_wrapped_offset asciiLower (fun _ => true)
           (fun _ _ _ => Scanned sampleLog None) "u1" "c1" "2025-10-01"
           (2 ^ 63 - 1) 100 "" sampleLog eq_refl eq_refl).
  vm_compute. reflexivity.
Defined.

End LogServiceFacts.

(** ** The log hub: subscribing, unsubscribing, closing *)

Module LogHubMoreFacts.
Import LogHub LogHubSamples LogHubSpec LogHubFacts.

Lemma listenersOpen_dom (chans : Chans) (p : ProcessInfo) (ch : nat) :
  listenersOpen chans p -> ch ∈ LogListeners p -> ch ∈ dom chans.
Proof.
  intros [_ Hopen] Hch. destruct (Hopen ch Hch) as (c & Hc & _).
  apply elem_of_dom. eexists. exact Hc.
Qed.

Lemma fresh_not_listener (chans : Chans) (p : ProcessInfo) :
  listenersOpen chans p -> fresh (dom chans) ∉ LogListeners p.
Proof.
  intros Hopen Hin. apply (is_fresh (dom chans)).
  eapply listenersOpen_dom; eassumption.
Qed.

Lemma AddLog_keeps_hub (chans : Chans) (p : ProcessInfo) (line : string) :
  listenersOpen chans p ->
  exists chans',
    AddLog chans p line = Done (chans', withLogLines p (LogLines p ++ [line])) /\
    listenersOpen chans' (withLogLines p (LogLines p ++ [line])) /\
    (forall ch c, ch ∈ LogListeners p -> chans !! ch = Some c ->
       chans' !! ch = Some (if hasRoom c then pushLine c line else c)) /\
    (forall ch, ch ∉ LogListeners p -> chans' !! ch = chans !! ch).
Proof.
  intros [Hnd Hopen]. unfold AddLog. cbn [LogListeners withLogLines].
  destruct (broadcast_open chans (LogListeners p) line Hnd Hopen)
    as (chans' & Hrun & Hin & Hout).
  rewrite Hrun. cbn. exists chans'. split; [reflexivity |].
  split; [| split; assumption].
  split; [exact Hnd |]. cbn [LogListeners withLogLines].
  intros ch Hch. destruct (Hopen ch Hch) as (c & Hc & Hcl).
  eexists. split; [apply (Hin ch c Hch Hc) |].
  destruct (hasRoom c); [| exact Hcl]. exact Hcl.
Qed.

(** What a run of lines leaves in the buffer of an open channel. *)
Lemma addLogs_buffer (chans : Chans) (p : ProcessInfo) (lines : list string)
    (ch : nat) (c : Chan) :
  listenersOpen chans p -> ch ∈ LogListeners p -> chans !! ch = Some c ->
  exists chans' p',
    addLogs chans p lines = Done (chans', p') /\
    listenersOpen chans' p' /\
    LogLines p' = LogLines p ++ lines /\
    LogListeners p' = LogListeners p /\
    chans' !! ch
    = Some {| buf := buf c ++ firstn (cap c - length (buf c)) lines;
              cap := cap c; closed := closed c |}.
Proof.
  revert chans p c. induction lines as [| line lines IH]; intros chans p c Hhub Hch Hc.
  - exists chans, p. cbn [addLogs]. rewrite firstn_nil, !app_nil_r.
    repeat split; try assumption; try apply Hhub.
    rewrite Hc. destruct c; reflexivity.
  - cbn [addLogs].
    destruct (AddLog_keeps_hub chans p line Hhub) as (chans1 & Hrun & Hhub1 & Hin & _).
    rewrite Hrun. cbn.
    specialize (Hin ch c Hch Hc).
    destruct (IH chans1 (withLogLines p (LogLines p ++ [line])) _ Hhub1 Hch Hin)
      as (chans' & p' & Hrest & Hhub' & Hlines & Hls & Hbuf).
    exists chans', p'. split; [exact Hrest |]. split; [exact Hhub' |].
    split; [rewrite Hlines; cbn [LogLines withLogLines]; rewrite <- app_assoc; reflexivity |].
    split; [rewrite Hls; reflexivity |].
    rewrite Hbuf. unfold hasRoom.
    destruct (Nat.ltb_spec (length (buf c)) (cap c)) as [Hroom | Hfull].
    + cbn [pushLine buf cap closed]. rewrite length_app. cbn [length].
      replace (cap c - length (buf c))%nat
        with (S (cap c - (length (buf c) + 1)))%nat by lia.
      cbn [firstn]. rewrite <- app_assoc. reflexivity.
    + replace (cap c - length (buf c))%nat with 0%nat by lia.
      cbn [firstn]. reflexivity.
Qed.

(** X15: a subscriber that does not read loses the newest lines, not
    the oldest: after [AddLogListener], a run of [AddLog] calls completes
    without blocking, the history grows by every line, and the new
    channel is open and holds the first hundred of the lines, in order;
    the lines beyond the hundredth were dropped for it. *)
Theorem unread_subscriber_keeps_first_hundred (chans : Chans) (p : ProcessInfo)
    (lines : list string) :
  listenersOpen chans p ->
  let '(chans1, p1, ch) := AddLogListener chans p in
  exists chans2 p2,
    addLogs chans1 p1 lines = Done (chans2, p2) /\
    LogLines p2 = LogLines p ++ lines /\
    chans2 !! ch = Some {| buf := firstn 100 lines; cap := 100; closed := false |}.
Proof.
  intros Hhub.
  pose proof (AddLogListener_listenersOpen chans p Hhub
                (fun ch => listenersOpen_dom chans p ch Hhub)) as Hhub1.
  unfold AddLogListener in *.
  set (ch := fresh (dom chans)) in *.
  destruct (addLogs_buffer (<[ch := {| buf := []; cap := 100; closed := false |}]> chans)
              (withLogListeners p (LogListeners p ++ [ch])) lines ch
              {| buf := []; cap := 100; closed := false |} Hhub1)
    as (chans2 & p2 & Hrun & _ & Hlines & _ & Hbuf).
  - cbn [LogListeners withLogListeners]. apply elem_of_app. right. left.
  - apply lookup_insert_eq.
  - exists chans2, p2. split; [exact Hrun |]. split; [exact Hlines |].
    rewrite Hbuf. reflexivity.
Qed.

Lemma unread_subscriber_keeps_first_hundred_witness :
  exists chans2 p2,
    addLogs (<[fresh (dom twoListeners) := newChan]> twoListeners)
      (withLogListeners twoListenersHub [1%nat; 2%nat; fresh (dom twoListeners)])
      ["line 3"; "line 4"] = Done (chans2, p2) /\
    chans2 !! fresh (dom twoListeners)
    = Some {| buf := ["line 3"; "line 4"]; cap := 100; closed := false |}.
Proof.
  pose proof (unread_subscriber_keeps_first_hundred twoListeners twoListenersHub
                ["line 3"; "line 4"]) as H.
  unfold AddLogListener in H.
  destruct H as (chans2 & p2 & Hrun & _ & Hbuf).
  - split.
    + apply (bool_decide_unpack (NoDup [1%nat; 2%nat])). vm_compute. exact I.
    + intros ch Hch. cbn in Hch.
      apply elem_of_cons in Hch as [-> | Hch];
        [| apply list_elem_of_singleton in Hch as ->];
        eexists; split; reflexivity.
  - exists chans2, p2. split; [exact Hrun | exact Hbuf].
Defined.

Lemma removeFirst_absent (ch : nat) (ls : list nat) :
  ch ∉ ls -> removeFirst ch ls = None.
Proof.
  induction ls as [| l ls IH]; intros Hout; cbn [removeFirst]; [reflexivity |].
  apply not_elem_of_cons in Hout as [Hne Hout].
  destruct (decide (l = ch)); [congruence |]. rewrite IH by assumption. reflexivity.
Qed.

Lemma removeFirst_present (ch : nat) (ls : list nat) :
  ch ∈ ls -> NoDup ls ->
  exists ls', removeFirst ch ls = Some ls' /\
    (ch ∉ ls') /\ NoDup ls' /\ sublist ls' ls /\
    forall x, x ∈ ls' <-> x ∈ ls /\ x <> ch.
Proof.
  induction ls as [| l ls IH]; intros Hin Hnd; [apply elem_of_nil in Hin; contradiction |].
  apply NoDup_cons in Hnd as [Hl Hnd]. cbn [removeFirst].
  destruct (decide (l = ch)) as [-> | Hne].
  - exists ls. split; [reflexivity |]. split; [assumption |]. split; [assumption |].
    split; [apply sublist_cons; reflexivity |].
    intros x. rewrite elem_of_cons. split.
    + intros Hx. split; [now right |]. intros ->. contradiction.
    + intros [[-> | Hx] Hxne]; [contradiction | assumption].
  - apply elem_of_cons in Hin as [-> | Hin]; [contradiction |].
    destruct (IH Hin Hnd) as (ls' & Hrun & Hgone & Hnd' & Hsub & Hiff).
    rewrite Hrun. cbn. exists (l :: ls'). split; [reflexivity |].
    split; [rewrite not_elem_of_cons; split; [congruence | assumption] |].
    split; [apply NoDup_cons; split; [rewrite Hiff; tauto | assumption] |].
    split; [apply sublist_skip; assumption |].
    intros x. rewrite !elem_of_cons, Hiff. split.
    + intros [-> | [Hx Hxne]]; [split; [now left | congruence] | tauto].
    + intros [[-> | Hx] Hxne]; [now left | right; tauto].
Qed.

(** X16: [RemoveLogListener] on a channel the hub does not list
    changes nothing and closes nothing; on a listed channel it closes
    that channel, takes it off the list, keeps the other subscribers in
    order, and leaves every other channel as it was, so that the hub
    still has only open, distinct subscribers. *)
Theorem RemoveLogListener_closes_only_that_channel (chans : Chans) (p : ProcessInfo)
    (ch : nat) :
  listenersOpen chans p ->
  (ch ∉ LogListeners p -> RemoveLogListener chans p ch = Done (chans, p)) /\
  (ch ∈ LogListeners p ->
   exists chans' p' c,
     RemoveLogListener chans p ch = Done (chans', p') /\
     chans !! ch = Some c /\ chans' !! ch = Some (closeChan c) /\
     (forall other, other <> ch -> chans' !! other = chans !! other) /\
     (forall x, x ∈ LogListeners p' <-> x ∈ LogListeners p /\ x <> ch) /\
     sublist (LogListeners p') (LogListeners p) /\
     LogLines p' = LogLines p /\
     listenersOpen chans' p').
Proof.
  intros [Hnd Hopen]. unfold RemoveLogListener. split.
  - intros Hout. rewrite removeFirst_absent by assumption. reflexivity.
  - intros Hin.
    destruct (removeFirst_present ch (LogListeners p) Hin Hnd)
      as (ls' & Hrun & Hgone & Hnd' & Hsub & Hiff).
    destruct (Hopen ch Hin) as (c & Hc & Hcl).
    rewrite Hrun. unfold closeAt. rewrite Hc, Hcl. cbn.
    eexists _, _, c. split; [reflexivity |]. split; [reflexivity |].
    split; [apply lookup_insert_eq |].
    split; [intros other Hne; apply lookup_insert_ne; congruence |].
    cbn [LogListeners LogLines withLogListeners].
    split; [exact Hiff |]. split; [exact Hsub |]. split; [reflexivity |].
    split; [exact Hnd' |]. cbn [LogListeners withLogListeners].
    intros x Hx. apply Hiff in Hx as [Hx Hne].
    destruct (Hopen x Hx) as (cx & Hcx & Hclx). exists cx. split; [| exact Hclx].
    rewrite lookup_insert_ne by congruence. exact Hcx.
Qed.

Lemma RemoveLogListener_closes_only_that_channel_witness :
  exists chans' p',
    RemoveLogListener twoListeners twoListenersHub 2%nat = Done (chans', p') /\
    chans' !! 2%nat
    = Some {| buf := ["line 1"; "line 2"]; cap := 2; closed := true |} /\
    RemoveLogListener twoListeners twoListenersHub 7%nat
    = Done (twoListeners, twoListenersHub).
Proof.
  destruct (RemoveLogListener_closes_only_that_channel twoListeners twoListenersHub 2%nat)
    as [_ Hin].
  - split.
    + apply (bool_decide_unpack (NoDup [1%nat; 2%nat])). vm_compute. exact I.
    + intros ch Hch. cbn in Hch.
      apply elem_of_cons in Hch as [-> | Hch];
        [| apply list_elem_of_singleton in Hch as ->];
        eexists; split; reflexivity.
  - destruct Hin as (chans' & p' & c & Hrun & Hc & Hc' & _); [right; left |].
    exists chans', p'. split; [exact Hrun |]. split.
    + rewrite Hc'. f_equal.
      assert (Some c = Some {| buf := ["line 1"; "line 2"]; cap := 2; closed := false |})
        as [= ->] by (rewrite <- Hc; reflexivity).
      reflexivity.
    + reflexivity.
Defined.

Lemma closeEach_spec (chs : Chans) (ls : list nat) :
  NoDup ls ->
  (forall ch, ch ∈ ls -> exists c, chs !! ch = Some c /\ closed c = false) ->
  exists chs',
    closeEach chs ls = Done chs' /\
    (forall ch c, ch ∈ ls -> chs !! ch = Some c -> chs' !! ch = Some (closeChan c)) /\
    (forall ch, ch ∉ ls -> chs' !! ch = chs !! ch).
Proof.
  revert chs. induction ls as [| l ls IH]; intros chs Hnd Hopen.
  - exists chs. split; [reflexivity |]. split; [| reflexivity].
    intros ch c Hin. apply elem_of_nil in Hin. contradiction.
  - apply NoDup_cons in Hnd as [Hl Hnd].
    destruct (Hopen l) as (c & Hc & Hcopen); [left |].
    cbn [closeEach]. unfold closeAt. rewrite Hc, Hcopen. cbn.
    destruct (IH (<[l := closeChan c]> chs) Hnd) as (chs' & Hrun & Hin & Hout).
    { intros ch Hch. rewrite lookup_insert_ne by (intros ->; contradiction).
      apply Hopen. now right. }
    exists chs'. split; [exact Hrun |]. split.
    + intros ch c' Hch Hc'. apply elem_of_cons in Hch as [-> | Hch].
      * rewrite Hout by assumption. rewrite lookup_insert_eq.
        rewrite Hc in Hc'. injection Hc' as <-. reflexivity.
      * apply Hin; [assumption |].
        rewrite lookup_insert_ne by (intros ->; contradiction). assumption.
    + intros ch Hch. apply not_elem_of_cons in Hch as [Hne Hch].
      rewrite Hout by assumption. apply lookup_insert_ne. congruence.
Qed.

(** X17: [CloseAllLogListeners] closes every subscriber channel,
    each once, touches no other channel, and empties the list, so that
    nothing is sent to a closed channel afterwards: a later [AddLog] only
    records the line, and a later [RemoveLogListener] of any channel does
    nothing. *)
Theorem CloseAllLogListeners_then_hub_is_silent (chans : Chans) (p : ProcessInfo)
    (line : string) (late : nat) :
  listenersOpen chans p ->
  exists chans',
    CloseAllLogListeners chans p = Done (chans', withLogListeners p []) /\
    (forall ch c, ch ∈ LogListeners p -> chans !! ch = Some c ->
       chans' !! ch = Some (closeChan c)) /\
    (forall ch, ch ∉ LogListeners p -> chans' !! ch = chans !! ch) /\
    AddLog chans' (withLogListeners p []) line
    = Done (chans', withLogLines (withLogListeners p []) (LogLines p ++ [line])) /\
    RemoveLogListener chans' (withLogListeners p []) late
    = Done (chans', withLogListeners p []).
Proof.
  intros [Hnd Hopen]. unfold CloseAllLogListeners.
  destruct (closeEach_spec chans (LogListeners p) Hnd Hopen) as (chans' & Hrun & Hin & Hout).
  rewrite Hrun. cbn. exists chans'. split; [reflexivity |].
  split; [exact Hin |]. split; [exact Hout |]. split; reflexivity.
Qed.

Lemma CloseAllLogListeners_then_hub_is_silent_witness :
  exists chans',
    CloseAllLogListeners twoListeners twoListenersHub
    = Done (chans', withLogListeners twoListenersHub []) /\
    chans' !! 1%nat = Some {| buf := ["line 2"]; cap := 100; closed := true |}.
Proof.
  destruct (CloseAllLogListeners_then_hub_is_silent twoListeners twoListenersHub
              "line 3" 1%nat) as (chans' & Hrun & Hin & _).
  - split.
    + apply (bool_decide_unpack (NoDup [1%nat; 2%nat])). vm_compute. exact I.
    + intros ch Hch. cbn in Hch.
      apply elem_of_cons in Hch as [-> | Hch];
        [| apply list_elem_of_singleton in Hch as ->];
        eexists; split; reflexivity.
  - exists chans'. split; [exact Hrun |].
    rewrite (Hin 1%nat {| buf := ["line 2"]; cap := 100; closed := false |});
      [reflexivity | left | reflexivity].
Defined.

End LogHubMoreFacts.

(** ** The supervisor's invariant *)

Module SupervisorMoreFacts.
Import LogHub ProcessService LogService Supervision.
Import SupervisorSamples SupervisorSpec LogHubSpec LogHubFacts LogHubMoreFacts SupervisorFacts.

Lemma wellFormed_new (autoRestart : bool) (maxRestartCount : Z) :
  wellFormed (NewProcessService autoRestart maxRestartCount).
Proof.
  split; cbn [NewProcessService processes ctxs chans ProcessService.maxRestartCount];
    intros; try (rewrite lookup_empty in *; discriminate).
Qed.

Lemma listenersOpen_ext (chs : Chans) (p p' : ProcessInfo) :
  LogListeners p' = LogListeners p -> listenersOpen chs p -> listenersOpen chs p'.
Proof. unfold listenersOpen. intros ->. tauto. Qed.

Lemma listenersOpen_none (chs : Chans) (p : ProcessInfo) :
  LogListeners p = [] -> listenersOpen chs p.
Proof.
  intros H. unfold listenersOpen. rewrite H. split; [apply NoDup_nil_2 |].
  intros ch Hch. apply elem_of_nil in Hch. contradiction.
Qed.

(** Replacing the context at one address, and possibly shrinking the
    registry, keeps the state well formed as long as the new context is
    sound and the channels of the other hubs are left alone. *)
Lemma wellFormed_update (s : ProcessService) (ps' : gmap string nat) (r : nat)
    (ctx ctx' : processContext) (chans' : Chans) :
  wellFormed s ->
  ctxs s !! r = Some ctx ->
  (forall key r', ps' !! key = Some r' ->
     processes s !! key = Some r' /\
     (r' = r -> stopChan_closed ctx' = false /\ is_Some (cmd_Process ctx'))) ->
  0 <= restartCount ctx' <= Z.max 0 (maxRestartCount s) ->
  listenersOpen chans' (processInfo ctx') ->
  (forall ch, ch ∈ LogListeners (processInfo ctx') ->
     ch ∈ LogListeners (processInfo ctx) \/ ch ∉ dom (chans s)) ->
  (forall ch, ch ∉ LogListeners (processInfo ctx) -> ch ∈ dom (chans s) ->
     chans' !! ch = chans s !! ch) ->
  wellFormed (withRegistry s ps' (<[r := ctx']> (ctxs s)) chans').
Proof.
  intros Hwf Hctx Hreg Hcount Hhub Hnew Hrest.
  assert (Hother : forall r2 ctx2, r2 <> r -> ctxs s !! r2 = Some ctx2 ->
            forall ch, ch ∈ LogListeners (processInfo ctx2) ->
              (ch ∉ LogListeners (processInfo ctx)) /\ ch ∈ dom (chans s)).
  { intros r2 ctx2 Hne H2 ch Hch. split.
    - intros Hin. apply Hne. exact (wf_apart s Hwf r2 r ctx2 ctx ch H2 Hctx Hch Hin).
    - eapply listenersOpen_dom; [exact (wf_hubs s Hwf r2 ctx2 H2) | exact Hch]. }
  split; cbn [processes ctxs chans withRegistry maxRestartCount].
  - intros key r' Hkey. destruct (Hreg key r' Hkey) as [Hold Hsame].
    destruct (decide (r' = r)) as [-> | Hne].
    + exists ctx'. rewrite lookup_insert_eq. destruct (Hsame eq_refl). auto.
    + rewrite lookup_insert_ne by congruence. exact (wf_registered s Hwf key r' Hold).
  - intros k1 k2 r' H1 H2. destruct (Hreg k1 r' H1) as [H1' _].
    destruct (Hreg k2 r' H2) as [H2' _]. exact (wf_one_handle s Hwf k1 k2 r' H1' H2').
  - intros r2 ctx2 H2. destruct (decide (r2 = r)) as [-> | Hne].
    + rewrite lookup_insert_eq in H2. injection H2 as <-. exact Hhub.
    + rewrite lookup_insert_ne in H2 by congruence.
      destruct (wf_hubs s Hwf r2 ctx2 H2) as [Hnd Hopen]. split; [exact Hnd |].
      intros ch Hch. destruct (Hother r2 ctx2 Hne H2 ch Hch) as [Hout Hdom].
      rewrite (Hrest ch Hout Hdom). exact (Hopen ch Hch).
  - intros r1 r2 ctx1 ctx2 ch H1 H2 Hin1 Hin2.
    destruct (decide (r1 = r)) as [-> | Hne1], (decide (r2 = r)) as [-> | Hne2];
      try reflexivity.
    + rewrite lookup_insert_eq in H1. injection H1 as <-.
      rewrite lookup_insert_ne in H2 by congruence.
      destruct (Hother r2 ctx2 Hne2 H2 ch Hin2) as [Hout Hdom].
      destruct (Hnew ch Hin1); contradiction.
    + rewrite lookup_insert_eq in H2. injection H2 as <-.
      rewrite lookup_insert_ne in H1 by congruence.
      destruct (Hother r1 ctx1 Hne1 H1 ch Hin1) as [Hout Hdom].
      destruct (Hnew ch Hin2); contradiction.
    + rewrite lookup_insert_ne in H1, H2 by congruence.
      exact (wf_apart s Hwf r1 r2 ctx1 ctx2 ch H1 H2 Hin1 Hin2).
  - intros r2 ctx2 H2. destruct (decide (r2 = r)) as [-> | Hne].
    + rewrite lookup_insert_eq in H2. injection H2 as <-. exact Hcount.
    + rewrite lookup_insert_ne in H2 by congruence. exact (wf_restarts s Hwf r2 ctx2 H2).
Qed.

Lemma wellFormed_Start (s : ProcessService) (now : Z) (key : string) (os : Spawn) :
  wellFormed s -> wellFormed (fst (Start s now key os)).
Proof.
  intros Hwf. unfold Start. destruct (alreadyRunning s key); [exact Hwf |].
  destruct os as [e | e | pid]; [exact Hwf | exact Hwf |]. cbn [fst].
  pose proof (is_fresh (dom (ctxs s))) as Hfresh.
  set (r := fresh (dom (ctxs s))) in *.
  assert (Hnone : ctxs s !! r = None) by (apply not_elem_of_dom; exact Hfresh).
  split; cbn [processes ctxs chans withRegistry maxRestartCount].
  - intros k r' Hk. destruct (decide (k = key)) as [-> | Hne].
    + rewrite lookup_insert_eq in Hk. injection Hk as <-.
      eexists. rewrite lookup_insert_eq. split; [reflexivity |].
      split; [reflexivity |]. eexists. reflexivity.
    + rewrite lookup_insert_ne in Hk by congruence.
      destruct (wf_registered s Hwf k r' Hk) as (ctx & Hc & Ho & Hp).
      exists ctx. rewrite lookup_insert_ne by congruence. auto.
  - intros k1 k2 r' H1 H2.
    destruct (decide (k1 = key)) as [-> | Hne1], (decide (k2 = key)) as [-> | Hne2];
      try reflexivity.
    + rewrite lookup_insert_eq in H1. injection H1 as <-.
      rewrite lookup_insert_ne in H2 by congruence.
      destruct (wf_registered s Hwf k2 r H2) as (ctx & Hc & _). congruence.
    + rewrite lookup_insert_eq in H2. injection H2 as <-.
      rewrite lookup_insert_ne in H1 by congruence.
      destruct (wf_registered s Hwf k1 r H1) as (ctx & Hc & _). congruence.
    + rewrite lookup_insert_ne in H1, H2 by congruence.
      exact (wf_one_handle s Hwf k1 k2 r' H1 H2).
  - intros r2 ctx2 H2. destruct (decide (r2 = r)) as [-> | Hne].
    + rewrite lookup_insert_eq in H2. injection H2 as <-.
      apply listenersOpen_none. reflexivity.
    + rewrite lookup_insert_ne in H2 by congruence. exact (wf_hubs s Hwf r2 ctx2 H2).
  - intros r1 r2 ctx1 ctx2 ch H1 H2 Hin1 Hin2.
    destruct (decide (r1 = r)) as [-> | Hne1].
    { rewrite lookup_insert_eq in H1. injection H1 as <-.
      apply elem_of_nil in Hin1. contradiction. }
    destruct (decide (r2 = r)) as [-> | Hne2].
    { rewrite lookup_insert_eq in H2. injection H2 as <-.
      apply elem_of_nil in Hin2. contradiction. }
    rewrite lookup_insert_ne in H1, H2 by congruence.
    exact (wf_apart s Hwf r1 r2 ctx1 ctx2 ch H1 H2 Hin1 Hin2).
  - intros r2 ctx2 H2. destruct (decide (r2 = r)) as [-> | Hne].
    + rewrite lookup_insert_eq in H2. injection H2 as <-. cbn. lia.
    + rewrite lookup_insert_ne in H2 by congruence. exact (wf_restarts s Hwf r2 ctx2 H2).
Qed.

Lemma monitorCtx_listeners (s : ProcessService) (ctx : processContext)
    (err : option string) :
  LogListeners (processInfo (monitorCtx s ctx err)) = LogListeners (processInfo ctx).
Proof.
  unfold monitorCtx. destruct (stopChan_closed ctx); [reflexivity |].
  destruct err; reflexivity.
Qed.

Lemma monitorCtx_stopChan (s : ProcessService) (ctx : processContext)
    (err : option string) :
  stopChan_closed (monitorCtx s ctx err) = stopChan_closed ctx.
Proof.
  unfold monitorCtx. destruct (stopChan_closed ctx) eqn:E; [exact E | reflexivity].
Qed.

Lemma monitorCtx_restartCount (s : ProcessService) (ctx : processContext)
    (err : option string) :
  0 <= restartCount ctx <= Z.max 0 (maxRestartCount s) ->
  0 <= restartCount (monitorCtx s ctx err) <= Z.max 0 (maxRestartCount s).
Proof.
  intros H. unfold monitorCtx. destruct (stopChan_closed ctx); [exact H |].
  cbn [restartCount]. destruct (autoRestart s); cbn [andb]; [| exact H].
  destruct (Z.ltb_spec (restartCount ctx) (maxRestartCount s)); lia.
Qed.

Lemma wellFormed_monitorProcess (s : ProcessService) (r : nat) (err : option string) :
  wellFormed s -> wellFormed (monitorProcess s r err).
Proof.
  intros Hwf. unfold monitorProcess.
  destruct (ctxs s !! r) as [ctx |] eqn:Hctx; [| exact Hwf].
  apply (wellFormed_update s (processes s) r ctx); try assumption.
  - intros key r' Hkey. split; [exact Hkey |]. intros ->.
    destruct (wf_registered s Hwf key r Hkey) as (ctx0 & Hc & Ho & Hp).
    rewrite Hctx in Hc. injection Hc as <-.
    rewrite monitorCtx_stopChan, monitorCtx_cmd. auto.
  - apply monitorCtx_restartCount. exact (wf_restarts s Hwf r ctx Hctx).
  - apply (listenersOpen_ext _ (processInfo ctx)); [apply monitorCtx_listeners |].
    exact (wf_hubs s Hwf r ctx Hctx).
  - intros ch Hch. left. rewrite monitorCtx_listeners in Hch. exact Hch.
  - reflexivity.
Qed.

Lemma wellFormed_collectLine (s : ProcessService) (r : nat) (logLine : string) :
  wellFormed s -> exists s', collectLine s r logLine = Done s' /\ wellFormed s'.
Proof.
  intros Hwf. unfold collectLine.
  destruct (ctxs s !! r) as [ctx |] eqn:Hctx; [| exists s; split; [reflexivity | exact Hwf]].
  destruct (AddLog_keeps_hub (chans s) (processInfo ctx) logLine (wf_hubs s Hwf r ctx Hctx))
    as (chans' & Hrun & Hhub & _ & Hout).
  rewrite Hrun. cbn. eexists. split; [reflexivity |].
  apply (wellFormed_update s (processes s) r ctx); try assumption.
  - intros key r' Hkey. split; [exact Hkey |]. intros ->.
    destruct (wf_registered s Hwf key r Hkey) as (ctx0 & Hc & Ho & Hp).
    rewrite Hctx in Hc. injection Hc as <-. cbn [stopChan_closed cmd_Process]. auto.
  - exact (wf_restarts s Hwf r ctx Hctx).
  - intros ch Hch. left. exact Hch.
  - intros ch Hch _. apply Hout. exact Hch.
Qed.

Lemma wellFormed_listenAt (s : ProcessService) (r : nat) (ctx : processContext) :
  wellFormed s -> ctxs s !! r = Some ctx -> wellFormed (fst (listenAt s r ctx)).
Proof.
  intros Hwf Hctx. unfold listenAt.
  pose proof (AddLogListener_listenersOpen (chans s) (processInfo ctx)
                (wf_hubs s Hwf r ctx Hctx)
                (fun ch => listenersOpen_dom (chans s) (processInfo ctx) ch
                             (wf_hubs s Hwf r ctx Hctx))) as Hhub.
  unfold AddLogListener in *. cbn [fst].
  pose proof (is_fresh (dom (chans s))) as Hfresh.
  set (ch0 := fresh (dom (chans s))) in *.
  apply (wellFormed_update s (processes s) r ctx); try assumption.
  - intros key r' Hkey. split; [exact Hkey |]. intros ->.
    destruct (wf_registered s Hwf key r Hkey) as (ctx0 & Hc & Ho & Hp).
    rewrite Hctx in Hc. injection Hc as <-. cbn [stopChan_closed cmd_Process]. auto.
  - exact (wf_restarts s Hwf r ctx Hctx).
  - cbn [processInfo LogListeners withLogListeners]. intros ch Hch.
    apply elem_of_app in Hch as [Hch | Hch]; [left; exact Hch |].
    apply list_elem_of_singleton in Hch as ->. right. exact Hfresh.
  - intros ch _ Hdom. apply lookup_insert_ne. intros <-. contradiction.
Qed.

Lemma wellFormed_Stop (s : ProcessService) (key : string) :
  wellFormed s ->
  exists s' e,
    Stop s key = Done (s', e) /\ wellFormed s' /\
    processes s' = delete key (processes s) /\
    (e = None <-> is_Some (processes s !! key)).
Proof.
  intros Hwf. unfold Stop.
  destruct (processes s !! key) as [r |] eqn:Hkey.
  - destruct (wf_registered s Hwf key r Hkey) as (ctx & Hctx & Hopen & Hproc).
    rewrite Hctx, Hopen.
    destruct (wf_hubs s Hwf r ctx Hctx) as [Hnd Hall].
    destruct (closeEach_spec (chans s) (LogListeners (processInfo ctx)) Hnd Hall)
      as (chans' & Hrun & _ & Hout).
    unfold CloseAllLogListeners. rewrite Hrun. cbn.
    eexists _, _. split; [reflexivity |]. split; [| split; [reflexivity |]].
    + apply (wellFormed_update s (delete key (processes s)) r ctx); try assumption.
      * intros k r' Hk. apply lookup_delete_Some in Hk as [Hne Hk].
        split; [exact Hk |]. intros ->. exfalso. apply Hne.
        exact (wf_one_handle s Hwf key k r Hkey Hk).
      * exact (wf_restarts s Hwf r ctx Hctx).
      * apply listenersOpen_none. reflexivity.
      * cbn [processInfo LogListeners withLogListeners]. intros ch Hch.
        apply elem_of_nil in Hch. contradiction.
      * intros ch Hch _. apply Hout. exact Hch.
    + split; [intros _; eexists; reflexivity | reflexivity].
  - exists s, (Some (NotRunning key)). split; [reflexivity |]. split; [exact Hwf |].
    split; [symmetry; apply delete_id; exact Hkey |].
    split; [discriminate | intros [r Hr]; discriminate].
Qed.

Lemma wellFormed_perform (s : ProcessService) (c : Call) :
  wellFormed s -> exists s', perform s c = Done s' /\ wellFormed s'.
Proof.
  intros Hwf. destruct c as [now key os | key | r err | r logLine | r]; cbn [perform].
  - eexists. split; [reflexivity |]. apply wellFormed_Start. exact Hwf.
  - destruct (wellFormed_Stop s key Hwf) as (s' & e & Hrun & Hwf' & _).
    rewrite Hrun. cbn. exists s'. split; [reflexivity | exact Hwf'].
  - eexists. split; [reflexivity |]. apply wellFormed_monitorProcess. exact Hwf.
  - apply wellFormed_collectLine. exact Hwf.
  - destruct (ctxs s !! r) as [ctx |] eqn:Hctx.
    + eexists. split; [reflexivity |]. apply wellFormed_listenAt; assumption.
    + exists s. split; [reflexivity | exact Hwf].
Qed.

Lemma wellFormed_run (s : ProcessService) (calls : list Call) :
  wellFormed s -> exists s', run s calls = Done s' /\ wellFormed s'.
Proof.
  revert s. induction calls as [| c calls IH]; intros s Hwf; cbn [run].
  - exists s. split; [reflexivity | exact Hwf].
  - destruct (wellFormed_perform s c Hwf) as (s1 & Hrun & Hwf1).
    rewrite Hrun. cbn. apply IH. exact Hwf1.
Qed.

Lemma wellFormed_IsRunning (s : ProcessService) (key : string) :
  wellFormed s -> IsRunning s key = true <-> is_Some (processes s !! key).
Proof.
  intros Hwf. unfold IsRunning, alreadyRunning, lookupCtx.
  destruct (processes s !! key) as [r |] eqn:Hkey; cbn.
  - destruct (wf_registered s Hwf key r Hkey) as (ctx & Hctx & _ & Hproc).
    rewrite Hctx. split; [intros _; eexists; reflexivity |].
    intros _. apply bool_decide_eq_true. exact Hproc.
  - split; [discriminate | intros [r Hr]; discriminate].
Qed.

(** X18: whatever sequence of starts, stops, observed exits,
    collected log lines and new subscribers a new supervisor goes
    through, no step panics or blocks (no channel is closed twice, no line
    is sent on a closed channel), and in the state reached a client counts
    as running exactly when it is registered, a registered client has a
    started process and an open stop channel, no two clients share a
    handle, and no restart counter is negative or above the configured
    maximum (above zero, when that maximum is negative). *)
Theorem supervisor_calls_never_panic (autoRestart : bool) (maxRestarts : Z)
    (calls : list Call) :
  exists s,
    run (NewProcessService autoRestart maxRestarts) calls = Done s /\
    wellFormed s /\
    forall key, IsRunning s key = true <-> is_Some (processes s !! key).
Proof.
  destruct (wellFormed_run (NewProcessService autoRestart maxRestarts) calls
              (wellFormed_new autoRestart maxRestarts)) as (s & Hrun & Hwf).
  exists s. split; [exact Hrun |]. split; [exact Hwf |].
  intros key. apply wellFormed_IsRunning. exact Hwf.
Qed.


Lemma wellFormed_started : wellFormed started.
Proof. apply wellFormed_Start, wellFormed_new. Qed.

(** What [Stop] does to a registered client of a well-formed state. *)
Lemma Stop_registered (s : ProcessService) (key : string) (r : nat)
    (ctx : processContext) :
  wellFormed s -> processes s !! key = Some r -> ctxs s !! r = Some ctx ->
  exists s',
    Stop s key = Done (s', None) /\ wellFormed s' /\
    processes s' = delete key (processes s) /\
    (forall r2, r2 <> r -> ctxs s' !! r2 = ctxs s !! r2) /\
    (forall ch c, ch ∈ LogListeners (processInfo ctx) -> chans s !! ch = Some c ->
       chans s' !! ch = Some (closeChan c)) /\
    (forall ch, ch ∉ LogListeners (processInfo ctx) -> chans s' !! ch = chans s !! ch).
Proof.
  intros Hwf Hkey Hctx.
  destruct (wellFormed_Stop s key Hwf) as (s' & e & Hrun & Hwf' & Hps & He).
  assert (e = None) as -> by (apply He; eexists; exact Hkey).
  exists s'. split; [exact Hrun |]. split; [exact Hwf' |]. split; [exact Hps |].
  unfold Stop in Hrun. rewrite Hkey, Hctx in Hrun.
  destruct (wf_registered s Hwf key r Hkey) as (ctx0 & Hc & Hopen & _).
  rewrite Hctx in Hc. injection Hc as <-. rewrite Hopen in Hrun.
  destruct (wf_hubs s Hwf r ctx Hctx) as [Hnd Hall].
  destruct (closeEach_spec (chans s) (LogListeners (processInfo ctx)) Hnd Hall)
    as (chans' & Hclose & Hin & Hout).
  unfold CloseAllLogListeners in Hrun. rewrite Hclose in Hrun. cbn in Hrun.
  injection Hrun as <-. cbn [ctxs chans withRegistry].
  split; [intros r2 Hne; apply lookup_insert_ne; congruence |].
  split; assumption.
Qed.

(** X19: stopping a registered client succeeds, closes each of its
    subscriber channels, and takes it off the registry, so that it no
    longer counts as running, has no process information, and a second
    [Stop] reports that the client is not running and changes nothing;
    the other clients count as running exactly as before. *)
Theorem Stop_unregisters_and_closes (s : ProcessService) (key : string) (r : nat)
    (ctx : processContext) :
  wellFormed s -> processes s !! key = Some r -> ctxs s !! r = Some ctx ->
  exists s',
    Stop s key = Done (s', None) /\
    IsRunning s' key = false /\
    GetProcessInfo s' key = Err (NotRunning key) /\
    Stop s' key = Done (s', Some (NotRunning key)) /\
    (forall other, other <> key -> IsRunning s' other = IsRunning s other) /\
    (forall ch, ch ∈ LogListeners (processInfo ctx) -> closedIn (chans s') ch).
Proof.
  intros Hwf Hkey Hctx.
  destruct (Stop_registered s key r ctx Hwf Hkey Hctx)
    as (s' & Hrun & Hwf' & Hps & Hctxs & Hin & _).
  assert (Hgone : processes s' !! key = None) by (rewrite Hps; apply lookup_delete_eq).
  exists s'. split; [exact Hrun |].
  split; [unfold IsRunning, alreadyRunning, lookupCtx; rewrite Hgone; reflexivity |].
  split; [unfold GetProcessInfo, lookupCtx; rewrite Hgone; reflexivity |].
  split; [unfold Stop; rewrite Hgone; reflexivity |].
  split.
  - intros other Hne. unfold IsRunning, alreadyRunning, lookupCtx.
    rewrite Hps, lookup_delete_ne by congruence.
    destruct (processes s !! other) as [r2 |] eqn:Hother; [| reflexivity]. cbn.
    rewrite Hctxs; [reflexivity |]. intros ->. apply Hne.
    exact (wf_one_handle s Hwf other key r Hother Hkey).
  - intros ch Hch. destruct (wf_hubs s Hwf r ctx Hctx) as [_ Hopen].
    destruct (Hopen ch Hch) as (c & Hc & _). exists (closeChan c).
    split; [exact (Hin ch c Hch Hc) | reflexivity].
Qed.

Lemma Stop_unregisters_and_closes_witness :
  exists s',
    Stop started "client-1" = Done (s', None) /\
    Stop s' "client-1" = Done (s', Some (NotRunning "client-1")).
Proof.
  destruct started_handle as (Hreg & ctx & Hctx & _).
  destruct (Stop_unregisters_and_closes started "client-1" handle ctx
              wellFormed_started Hreg Hctx) as (s' & H1 & _ & _ & H2 & _).
  exists s'. split; [exact H1 | exact H2].
Defined.

(** X20: [Restart] stops the client if it is running and starts it
    anew: when the spawn succeeds the client ends up running under the new
    process with a fresh log hub (no history, no subscriber), whether or
    not it was running before; when the spawn fails the error is returned
    and the client is left stopped. *)
Theorem Restart_ends_running_or_stopped (s : ProcessService) (now : Z)
    (key : string) :
  wellFormed s ->
  (forall pid, exists s',
     Restart s now key (Spawned pid) = Done (s', None) /\
     wellFormed s' /\ IsRunning s' key = true /\
     GetProcessInfo s' key = Ok (NewProcessInfo now key pid)) /\
  (forall cause, exists s',
     Restart s now key (SpawnStartError cause) = Done (s', Some (StartFailed cause)) /\
     wellFormed s' /\ IsRunning s' key = false).
Proof.
  intros Hwf.
  destruct (wellFormed_Stop s key Hwf) as (s1 & e & Hstop & Hwf1 & Hps & _).
  assert (Hgone : processes s1 !! key = None) by (rewrite Hps; apply lookup_delete_eq).
  assert (Hfree : alreadyRunning s1 key = false).
  { unfold alreadyRunning, lookupCtx. rewrite Hgone. reflexivity. }
  unfold Restart. rewrite Hstop. cbn. split.
  - intros pid. eexists. split; [unfold Start; rewrite Hfree; reflexivity |].
    split.
    { pose proof (wellFormed_Start s1 now key (Spawned pid) Hwf1) as H.
      unfold Start in H. rewrite Hfree in H. exact H. }
    split.
    + unfold IsRunning, alreadyRunning, lookupCtx. cbn [processes ctxs withRegistry].
      rewrite lookup_insert_eq. cbn. rewrite lookup_insert_eq. reflexivity.
    + unfold GetProcessInfo, lookupCtx. cbn [processes ctxs withRegistry].
      rewrite lookup_insert_eq. cbn. rewrite lookup_insert_eq. reflexivity.
  - intros cause. exists s1. split; [unfold Start; rewrite Hfree; reflexivity |].
    split; [exact Hwf1 |]. exact Hfree.
Qed.

Lemma Restart_ends_running_or_stopped_witness :
  exists s',
    Restart started 200 "client-1" (Spawned 4243) = Done (s', None) /\
    GetProcessInfo s' "client-1" = Ok (NewProcessInfo 200 "client-1" 4243).
Proof.
  destruct (Restart_ends_running_or_stopped started 200 "client-1" wellFormed_started)
    as [Hok _].
  destruct (Hok 4243) as (s' & Hrun & _ & _ & Hinfo).
  exists s'. split; [exact Hrun | exact Hinfo].
Defined.

Lemma closedIn_Stop (s s' : ProcessService) (key : string) (e : option ServiceError)
    (ch : nat) :
  wellFormed s -> Stop s key = Done (s', e) ->
  closedIn (chans s) ch -> closedIn (chans s') ch.
Proof.
  intros Hwf Hrun (c & Hc & Hcl).
  destruct (processes s !! key) as [r |] eqn:Hkey.
  - destruct (wf_registered s Hwf key r Hkey) as (ctx & Hctx & _).
    destruct (Stop_registered s key r ctx Hwf Hkey Hctx)
      as (s2 & Hrun2 & _ & _ & _ & Hin & Hout).
    rewrite Hrun in Hrun2. injection Hrun2 as <- _.
    destruct (decide (ch ∈ LogListeners (processInfo ctx))) as [Hch | Hch].
    + exists (closeChan c). split; [exact (Hin ch c Hch Hc) | reflexivity].
    + exists c. rewrite (Hout ch Hch). split; assumption.
  - unfold Stop in Hrun. rewrite Hkey in Hrun. injection Hrun as <- _.
    exists c. split; assumption.
Qed.

Lemma stopEach_spec (s : ProcessService) (clientIDs : list string) :
  wellFormed s ->
  exists s',
    stopEach s clientIDs = Done s' /\ wellFormed s' /\
    (forall key, processes s' !! key
                 = if decide (key ∈ clientIDs) then None else processes s !! key) /\
    (forall ch, closedIn (chans s) ch -> closedIn (chans s') ch) /\
    (forall key r ctx ch, key ∈ clientIDs ->
       processes s !! key = Some r -> ctxs s !! r = Some ctx ->
       ch ∈ LogListeners (processInfo ctx) -> closedIn (chans s') ch).
Proof.
  revert s. induction clientIDs as [| k rest IH]; intros s Hwf; cbn [stopEach].
  - exists s. split; [reflexivity |]. split; [exact Hwf |].
    split; [intros key; destruct (decide (key ∈ [])) as [H | _];
            [apply elem_of_nil in H; contradiction | reflexivity] |].
    split; [tauto |].
    intros key r ctx ch H. apply elem_of_nil in H. contradiction.
  - destruct (wellFormed_Stop s k Hwf) as (s1 & e & Hrun & Hwf1 & Hps & _).
    rewrite Hrun. cbn.
    destruct (IH s1 Hwf1) as (s' & Hrest & Hwf' & Hreg & Hmono & Hclosed).
    exists s'. split; [exact Hrest |]. split; [exact Hwf' |].
    split; [| split].
    + intros key. rewrite Hreg, Hps.
      destruct (decide (key ∈ rest)) as [Hin | Hout];
        destruct (decide (key ∈ k :: rest)) as [Hin' | Hout']; try reflexivity.
      * exfalso. apply Hout'. now right.
      * apply elem_of_cons in Hin' as [-> | Hin']; [apply lookup_delete_eq | contradiction].
      * apply lookup_delete_ne. intros ->. apply Hout'. now left.
    + intros ch Hch. apply Hmono. exact (closedIn_Stop s s1 k e ch Hwf Hrun Hch).
    + intros key r ctx ch Hkey Hp Hc Hch.
      destruct (decide (key = k)) as [-> | Hne].
      * apply Hmono.
        destruct (Stop_registered s k r ctx Hwf Hp Hc) as (s2 & Hrun2 & _ & _ & _ & Hin & _).
        rewrite Hrun in Hrun2. injection Hrun2 as <- _.
        destruct (wf_hubs s Hwf r ctx Hc) as [_ Hopen].
        destruct (Hopen ch Hch) as (c & Hcc & _).
        exists (closeChan c). split; [exact (Hin ch c Hch Hcc) | reflexivity].
      * apply elem_of_cons in Hkey as [-> | Hkey]; [contradiction |].
        assert (Hp1 : processes s1 !! key = Some r).
        { rewrite Hps. rewrite lookup_delete_ne by congruence. exact Hp. }
        assert (Hc1 : ctxs s1 !! r = Some ctx).
        { destruct (processes s !! k) as [rk |] eqn:Hk.
          - destruct (wf_registered s Hwf k rk Hk) as (ctxk & Hctxk & _).
            destruct (Stop_registered s k rk ctxk Hwf Hk Hctxk)
              as (s2 & Hrun2 & _ & _ & Hctxs & _).
            rewrite Hrun in Hrun2. injection Hrun2 as <- _.
            rewrite Hctxs; [exact Hc |]. intros ->. apply Hne.
            exact (wf_one_handle s Hwf key k rk Hp Hk).
          - unfold Stop in Hrun. rewrite Hk in Hrun. injection Hrun as <- _.
            exact Hc. }
        exact (Hclosed key r ctx ch Hkey Hp1 Hc1 Hch).
Qed.

(** X21: shutting down with [StopAll], in whatever order the
    registry's keys come up, completes without a panic, leaves no client
    registered or counted as running, and closes every subscriber channel
    of every client that was registered. *)
Theorem StopAll_stops_everything (order : list string -> list string)
    (s : ProcessService) :
  (forall l, order l ≡ₚ l) ->
  wellFormed s ->
  exists s',
    StopAll order s = Done s' /\
    processes s' = ∅ /\
    (forall key, IsRunning s' key = false) /\
    (forall key r ctx ch,
       processes s !! key = Some r -> ctxs s !! r = Some ctx ->
       ch ∈ LogListeners (processInfo ctx) -> closedIn (chans s') ch).
Proof.
  intros Horder Hwf. unfold StopAll.
  set (keys := order (map fst (map_to_list (processes s)))).
  assert (Hkeys : forall key r, processes s !! key = Some r -> key ∈ keys).
  { intros key r Hkey. unfold keys. rewrite Horder.
    apply list_elem_of_In, in_map_iff. exists (key, r). split; [reflexivity |].
    apply list_elem_of_In, elem_of_map_to_list. exact Hkey. }
  destruct (stopEach_spec s keys Hwf) as (s' & Hrun & Hwf' & Hreg & _ & Hclosed).
  assert (Hempty : processes s' = ∅).
  { apply map_eq. intros key. rewrite lookup_empty, Hreg.
    destruct (decide (key ∈ keys)) as [_ | Hout]; [reflexivity |].
    destruct (processes s !! key) as [r |] eqn:Hkey; [| reflexivity].
    exfalso. apply Hout. exact (Hkeys key r Hkey). }
  exists s'. split; [exact Hrun |]. split; [exact Hempty |]. split.
  - intros key. unfold IsRunning, alreadyRunning, lookupCtx.
    rewrite Hempty, lookup_empty. reflexivity.
  - intros key r ctx ch Hkey Hctx Hch.
    exact (Hclosed key r ctx ch (Hkeys key r Hkey) Hkey Hctx Hch).
Qed.

Lemma StopAll_stops_everything_witness :
  exists s', StopAll (fun l => l) started = Done s' /\ processes s' = ∅.
Proof.
  destruct (StopAll_stops_everything (fun l => l) started
              (fun l => reflexivity l) wellFormed_started) as (s' & Hrun & Hempty & _).
  exists s'. split; [exact Hrun | exact Hempty].
Defined.

(** X22: a log stream asked for a client that is not registered is
    refused and nothing is created; for a registered client the stream is
    a new open channel, the lines collected afterwards from the client's
    output are queued on it, and stopping the client closes it with the
    queued lines still in it. *)
Theorem StreamLogs_delivers_until_stop (s : ProcessService) (key : string) :
  wellFormed s ->
  (processes s !! key = None ->
   exists cause, StreamLogs s key = (s, Err cause)) /\
  (forall r, processes s !! key = Some r ->
   exists s1 ch,
     StreamLogs s key = (s1, Ok ch) /\ (ch ∉ dom (chans s)) /\
     chans s1 !! ch = Some newChan /\
     forall logLine, exists s2 s3,
       collectLine s1 r logLine = Done s2 /\
       chans s2 !! ch = Some {| buf := [logLine]; cap := 100; closed := false |} /\
       Stop s2 key = Done (s3, None) /\
       chans s3 !! ch = Some {| buf := [logLine]; cap := 100; closed := true |}).
Proof.
  intros Hwf. split.
  - intros Hnone. unfold StreamLogs. rewrite Hnone. eexists. reflexivity.
  - intros r Hkey.
    destruct (wf_registered s Hwf key r Hkey) as (ctx & Hctx & Hopen & Hproc).
    pose proof (wellFormed_listenAt s r ctx Hwf Hctx) as Hwf1.
    unfold StreamLogs. rewrite Hkey, Hctx.
    unfold listenAt, AddLogListener in *. cbn [fst] in Hwf1.
    pose proof (is_fresh (dom (chans s))) as Hfresh.
    set (ch := fresh (dom (chans s))) in *.
    match type of Hwf1 with wellFormed ?t => set (s1 := t) in * end.
    exists s1, ch. split; [reflexivity |]. split; [exact Hfresh |].
    split; [apply lookup_insert_eq |].
    intros logLine.
    assert (Hctx1 : exists ctx1, ctxs s1 !! r = Some ctx1 /\
              LogListeners (processInfo ctx1) = LogListeners (processInfo ctx) ++ [ch]).
    { eexists. split; [apply lookup_insert_eq | reflexivity]. }
    destruct Hctx1 as (ctx1 & Hctx1 & Hls1).
    assert (Hch1 : chans s1 !! ch = Some newChan) by apply lookup_insert_eq.
    assert (Hin1 : ch ∈ LogListeners (processInfo ctx1)).
    { rewrite Hls1. apply elem_of_app. right. left. }
    destruct (wellFormed_collectLine s1 r logLine Hwf1) as (s2 & Hrun2 & Hwf2).
    exists s2.
    assert (Hs2 : exists ctx2,
              processes s2 !! key = Some r /\ ctxs s2 !! r = Some ctx2 /\
              ch ∈ LogListeners (processInfo ctx2) /\
              chans s2 !! ch = Some {| buf := [logLine]; cap := 100; closed := false |}).
    { unfold collectLine in Hrun2. rewrite Hctx1 in Hrun2.
      destruct (AddLog_keeps_hub (chans s1) (processInfo ctx1) logLine
                  (wf_hubs s1 Hwf1 r ctx1 Hctx1)) as (chans2 & HAdd & _ & Hin & _).
      rewrite HAdd in Hrun2. cbn in Hrun2. injection Hrun2 as <-.
      eexists. cbn [processes ctxs chans withRegistry].
      split; [exact Hkey |]. split; [apply lookup_insert_eq |].
      split; [exact Hin1 |].
      rewrite (Hin ch newChan Hin1 Hch1). reflexivity. }
    destruct Hs2 as (ctx2 & Hkey2 & Hctx2 & Hin2 & Hch2).
    destruct (Stop_registered s2 key r ctx2 Hwf2 Hkey2 Hctx2)
      as (s3 & Hrun3 & _ & _ & _ & Hin3 & _).
    exists s3. split; [exact Hrun2 |]. split; [exact Hch2 |].
    split; [exact Hrun3 |].
    rewrite (Hin3 ch _ Hin2 Hch2). reflexivity.
Qed.

Lemma StreamLogs_delivers_until_stop_witness :
  exists s1 ch s2 s3,
    StreamLogs started "client-1" = (s1, Ok ch) /\
    collectLine s1 handle "ready" = Done s2 /\
    Stop s2 "client-1" = Done (s3, None) /\
    chans s3 !! ch = Some {| buf := ["ready"]; cap := 100; closed := true |}.
Proof.
  destruct started_handle as (Hreg & _).
  destruct (StreamLogs_delivers_until_stop started "client-1" wellFormed_started)
    as [_ Hok].
  destruct (Hok handle Hreg) as (s1 & ch & Hstream & _ & _ & Hlines).
  destruct (Hlines "ready") as (s2 & s3 & H2 & _ & H3 & Hch).
  exists s1, ch, s2, s3. repeat split; assumption.
Defined.

End SupervisorMoreFacts.

(** ** Decoding and enriching event files: precedence and fallbacks *)

Module DecodeMoreFacts.
Import GoStrings Json Event EventRepo EventShapes DecodeSpec DecodeSamples DecodeFacts.

Lemma nonEmpty_true (s : string) : nonEmpty s = true <-> s <> "".
Proof.
  unfold nonEmpty. destruct (String.eqb_spec s ""); cbn; split; congruence.
Qed.

Lemma nonEmpty_false (s : string) : nonEmpty s = false <-> s = "".
Proof.
  unfold nonEmpty. destruct (String.eqb_spec s ""); cbn; split; congruence.
Qed.

Section AnyLibrary.

Variable Sprint : json -> string.
Variable Marshal : json -> string.
Variable parseRFC3339 : string -> option Z.
Variable parseTimestampFromEventID : string -> option Z.

(** The first key that holds a non-blank value decides. *)
Lemma firstNonEmptyString_first (raw : gmap string json) (key : string)
    (keys : list string) (v : json) :
  raw !! key = Some v -> toString Sprint v <> "" ->
  firstNonEmptyString Sprint raw (key :: keys) = toString Sprint v.
Proof.
  intros Hkey Hfull. cbn [firstNonEmptyString]. unfold extractString. rewrite Hkey.
  apply nonEmpty_true in Hfull. rewrite Hfull. reflexivity.
Qed.

Lemma firstNonZeroInt_first (raw : gmap string json) (key : string)
    (keys : list string) (v : json) :
  raw !! key = Some v -> toInt v <> 0 ->
  firstNonZeroInt raw (key :: keys) = toInt v.
Proof.
  intros Hkey Hnz. cbn [firstNonZeroInt]. rewrite Hkey.
  destruct (Z.eqb_spec (toInt v) 0); [contradiction | reflexivity].
Qed.

(** X23: a status written in the file is taken as it is: when the
    [status] field holds a non-blank string, the event read from the file
    has that string, trimmed, as its status, whatever the status code and
    the [forward_status] field say, and whether or not the string is one
    of the three known statuses. *)
Theorem written_status_is_kept (f : FileFacts) (raw : gmap string json) (s : string) :
  f_doc f = Some (JObj raw) ->
  raw !! "status" = Some (JStr s) ->
  TrimSpace s <> "" ->
  exists ev,
    readEventFile Sprint Marshal parseRFC3339 parseTimestampFromEventID (Some f) = Ok ev /\
    Status ev = TrimSpace s.
Proof.
  intros Hdoc Hstatus Hfull. unfold readEventFile. rewrite Hdoc. cbn [mbind option_bind asRawMap].
  eexists. split; [reflexivity |].
  rewrite enrich_status, decode_status.
  rewrite (firstNonEmptyString_first raw "status" ["forward_status"] (JStr s) Hstatus Hfull).
  cbn [toString]. unfold inferStatus.
  apply nonEmpty_true in Hfull. rewrite Hfull. cbn. rewrite Hfull. reflexivity.
Qed.

(** X24: where a document carries a field under both its canonical
    and its legacy name, the canonical one is read: [clientId] before
    [client_id], [eventType] before [event_type], and a non-zero
    top-level [statusCode] before [status_code] and before the code
    nested under [response]; a status code written as a numeric string
    counts like a number. *)
Theorem canonical_names_take_precedence (e : Event) (raw : gmap string json) :
  (forall v, raw !! "clientId" = Some v -> toString Sprint v <> "" ->
     ClientID (UnmarshalJSON Sprint Marshal parseRFC3339 e raw) = toString Sprint v) /\
  (forall v, raw !! "eventType" = Some v -> toString Sprint v <> "" ->
     EventType (UnmarshalJSON Sprint Marshal parseRFC3339 e raw) = toString Sprint v) /\
  (forall v, raw !! "statusCode" = Some v -> toInt v <> 0 ->
     StatusCode (UnmarshalJSON Sprint Marshal parseRFC3339 e raw) = toInt v) /\
  (forall v, raw !! "latencyMs" = Some v -> toInt v <> 0 ->
     LatencyMs (UnmarshalJSON Sprint Marshal parseRFC3339 e raw) = toInt v).
Proof.
  repeat split; intros v Hkey Hv; cbn [UnmarshalJSON ClientID EventType StatusCode LatencyMs].
  - apply firstNonEmptyString_first; assumption.
  - apply firstNonEmptyString_first; assumption.
  - rewrite (firstNonZeroInt_first raw "statusCode" ["status_code"] v Hkey Hv).
    destruct (Z.eqb_spec (toInt v) 0); [contradiction |].
    rewrite andb_false_r. reflexivity.
  - rewrite (firstNonZeroInt_first raw "latencyMs" ["latency_ms"] v Hkey Hv).
    destruct (Z.eqb_spec (toInt v) 0); [contradiction |].
    rewrite andb_false_r. reflexivity.
Qed.

Lemma stamp_twice (id : string) (modTime : option Z) (t : Z) :
  let stamp t :=
    let t1 :=
      if IsZero t
      then match parseTimestampFromEventID id with Some ts => ts | None => t end
      else t in
    if IsZero t1 then match modTime with Some mt => mt | None => t1 end else t1 in
  stamp (stamp t) = stamp t.
Proof.
  cbv zeta. unfold IsZero.
  destruct (Z.eqb_spec t 0) as [-> | Ht].
  - destruct (parseTimestampFromEventID id) as [ts |] eqn:Hp.
    + destruct (Z.eqb_spec ts 0) as [-> | Hts].
      * destruct modTime as [mt |].
        -- destruct (Z.eqb_spec mt 0) as [-> | Hmt]; cbn; [reflexivity |].
           destruct (Z.eqb_spec mt 0); [contradiction | reflexivity].
        -- cbn. reflexivity.
      * destruct (Z.eqb_spec ts 0); [contradiction |].
        destruct (Z.eqb_spec ts 0); [contradiction | reflexivity].
    + cbn. destruct modTime as [mt |]; [| reflexivity].
      destruct (Z.eqb_spec mt 0) as [-> | Hmt]; cbn; [reflexivity |].
      destruct (Z.eqb_spec mt 0); [contradiction | reflexivity].
  - destruct (Z.eqb_spec t 0); [contradiction |].
    destruct (Z.eqb_spec t 0); [contradiction |].
    destruct (Z.eqb_spec t 0); [contradiction | reflexivity].
Qed.

Lemma fill_twice (s d : string) :
  (if nonEmpty (if nonEmpty s then s else d) then (if nonEmpty s then s else d) else d)
  = if nonEmpty s then s else d.
Proof.
  destruct (nonEmpty s) eqn:Hs; [rewrite Hs; reflexivity |].
  destruct (nonEmpty d); reflexivity.
Qed.

(** X25: enriching an event from its file is idempotent: the path,
    the modification time, the file content and the script headers only
    fill fields that are empty, so enriching an enriched event again
    changes nothing. *)
Theorem enrichEventFromPath_idempotent (e : Event) (f : FileFacts) :
  enrichEventFromPath parseTimestampFromEventID
    (enrichEventFromPath parseTimestampFromEventID e f) f
  = enrichEventFromPath parseTimestampFromEventID e f.
Proof.
  unfold enrichEventFromPath at 1.
  set (e1 := enrichEventFromPath parseTimestampFromEventID e f).
  assert (HID : (if nonEmpty (ID e1) then ID e1 else f_stem f) = ID e1).
  { unfold e1. cbn [enrichEventFromPath ID]. apply fill_twice. }
  assert (HClient : (if nonEmpty (ClientID e1) then ClientID e1 else f_clientDir f)
                    = ClientID e1).
  { unfold e1. cbn [enrichEventFromPath ClientID]. apply fill_twice. }
  assert (HPayload : (if nonEmpty (Payload e1) then Payload e1 else TrimSpace (f_data f))
                     = Payload e1).
  { unfold e1. cbn [enrichEventFromPath Payload]. apply fill_twice. }
  assert (HStatus : (if nonEmpty (Status e1) then Status e1 else EventStatusNotReplayed)
                    = Status e1).
  { unfold e1. cbn [enrichEventFromPath Status]. apply fill_twice. }
  assert (HHeaders : (if (size (Headers e1) =? 0)%nat then f_scriptHeaders f
                      else Headers e1) = Headers e1).
  { unfold e1. cbn [enrichEventFromPath Headers].
    destruct (size (Headers e) =? 0)%nat eqn:Hh; [| rewrite Hh; reflexivity].
    destruct (size (f_scriptHeaders f) =? 0)%nat; reflexivity. }
  rewrite HID, HClient, HPayload, HStatus, HHeaders.
  assert (HTime :
    (if IsZero
          (if IsZero (Timestamp e1)
           then match parseTimestampFromEventID (ID e1) with
                | Some ts => ts
                | None => Timestamp e1
                end
           else Timestamp e1)
     then match f_modTime f with
          | Some mt => mt
          | None =>
            if IsZero (Timestamp e1)
            then match parseTimestampFromEventID (ID e1) with
                 | Some ts => ts
                 | None => Timestamp e1
                 end
            else Timestamp e1
          end
     else if IsZero (Timestamp e1)
          then match parseTimestampFromEventID (ID e1) with
               | Some ts => ts
               | None => Timestamp e1
               end
          else Timestamp e1) = Timestamp e1).
  { unfold e1. cbn [enrichEventFromPath ID Timestamp].
    apply (stamp_twice (if nonEmpty (ID e) then ID e else f_stem f) (f_modTime f)
             (Timestamp e)). }
  rewrite HTime. destruct e1; reflexivity.
Qed.

(** X26: a readable event file is never rejected: whatever its
    content, reading it yields an event whose status is not empty and
    whose identifier and client are at least the file stem and the client
    directory; a file that is not a JSON object is kept as a raw event,
    not replayed, with the trimmed content as payload and the headers of
    its companion script. *)
Theorem readEventFile_accepts_any_content (f : FileFacts) :
  exists ev,
    readEventFile Sprint Marshal parseRFC3339 parseTimestampFromEventID (Some f) = Ok ev /\
    Status ev <> "" /\
    (f_stem f <> "" -> ID ev <> "") /\
    (f_clientDir f <> "" -> ClientID ev <> "") /\
    (f_doc f ≫= asRawMap = None ->
     ID ev = f_stem f /\ ClientID ev = f_clientDir f /\
     Status ev = EventStatusNotReplayed /\ Payload ev = TrimSpace (f_data f) /\
     Headers ev = f_scriptHeaders f /\ StatusCode ev = 0).
Proof.
  assert (Hfill : forall s d, d <> "" -> (if nonEmpty s then s else d) <> "").
  { intros s d Hd. destruct (nonEmpty s) eqn:Hs; [apply nonEmpty_true; exact Hs | exact Hd]. }
  unfold readEventFile.
  destruct (f_doc f ≫= asRawMap) as [raw |] eqn:Hdoc.
  - eexists. split; [reflexivity |].
    split; [rewrite enrich_status; apply Hfill; discriminate |].
    split; [intros Hs; cbn [enrichEventFromPath ID]; apply Hfill; exact Hs |].
    split; [intros Hs; cbn [enrichEventFromPath ClientID]; apply Hfill; exact Hs |].
    discriminate.
  - eexists. split; [reflexivity |].
    unfold buildEventFromRaw.
    cbn [enrichEventFromPath ID ClientID Status Payload Headers StatusCode].
    cbn [nonEmpty String.eqb negb]. rewrite map_size_empty. cbn [Nat.eqb].
    split; [discriminate |]. split; [tauto |]. split; [tauto |].
    intros _. repeat split.
    destruct (nonEmpty (TrimSpace (f_data f))); reflexivity.
Qed.

End AnyLibrary.

Lemma written_status_is_kept_witness :
  exists ev,
    readEventFile plainSprint plainSprint noTime noTime (Some oddStatusFile) = Ok ev /\
    Status ev = "queued".
Proof.
  destruct (written_status_is_kept plainSprint plainSprint noTime noTime oddStatusFile
              (<["status" := JStr " queued "]> (<["statusCode" := jint 200]> ∅))
              " queued " eq_refl) as (ev & Hrun & Hstatus).
  - apply lookup_insert_eq.
  - vm_compute. discriminate.
  - exists ev. split; [exact Hrun |]. rewrite Hstatus. vm_compute. reflexivity.
Defined.

Lemma canonical_names_take_precedence_witness :
  ClientID (UnmarshalJSON plainSprint plainSprint noTime zeroEvent bothNames) = "c-new" /\
  StatusCode (UnmarshalJSON plainSprint plainSprint noTime zeroEvent bothNames) = 201.
Proof.
  destruct (canonical_names_take_precedence plainSprint plainSprint noTime zeroEvent
              bothNames) as (Hclient & _ & Hcode & _).
  split.
  - apply (Hclient (JStr "c-new")); [reflexivity | vm_compute; discriminate].
  - apply (Hcode (JStr "201")); [reflexivity | vm_compute; discriminate].
Defined.

Lemma readEventFile_accepts_any_content_witness :
  exists ev,
    readEventFile plainSprint plainSprint noTime noTime (Some rawFile) = Ok ev /\
    ID ev = "ev-5" /\ Status ev = EventStatusNotReplayed /\ Payload ev = "not json".
Proof.
  destruct (readEventFile_accepts_any_content plainSprint plainSprint noTime noTime rawFile)
    as (ev & Hrun & _ & _ & _ & Hraw).
  destruct (Hraw eq_refl) as (Hid & _ & Hstatus & Hpayload & _).
  exists ev. split; [exact Hrun |]. repeat split; assumption.
Defined.

End DecodeMoreFacts.

(** ** Listing events: what is selected, in which order, on which page *)

Module ListMoreFacts.
Import GoStrings Json Event EventRepo ListSpec SortSpec ListFacts SortFacts PageFacts.

Section Filter.

Variable ToLower : string -> string.

Lemma keepEvent_true (req : EventListRequest) (e : Event) :
  keepEvent ToLower req e = true <->
  (q_EventType req = "" \/ EventType e = q_EventType req) /\
  (q_Status req = "" \/ Status e = q_Status req) /\
  (Search req = "" \/ Contains (ToLower (Source e)) (ToLower (Search req)) = true) /\
  (DateFrom req = 0 \/ DateFrom req <= Timestamp e) /\
  (DateTo req = 0 \/ Timestamp e <= DateTo req).
Proof.
  unfold keepEvent, nonEmpty, IsZero.
  destruct (String.eqb_spec (q_EventType req) "") as [Ht | Ht];
    destruct (String.eqb_spec (EventType e) (q_EventType req)) as [Het | Het];
    destruct (String.eqb_spec (q_Status req) "") as [Hs | Hs];
    destruct (String.eqb_spec (Status e) (q_Status req)) as [Hes | Hes];
    destruct (String.eqb_spec (Search req) "") as [Hq | Hq];
    destruct (Contains (ToLower (Source e)) (ToLower (Search req))) eqn:Hc;
    destruct (Z.eqb_spec (DateFrom req) 0) as [Hf | Hf];
    destruct (Z.ltb_spec (Timestamp e) (DateFrom req)) as [Hef | Hef];
    destruct (Z.eqb_spec (DateTo req) 0) as [Hto | Hto];
    destruct (Z.ltb_spec (DateTo req) (Timestamp e)) as [Het2 | Het2];
    cbn [negb andb]; split; intros H; try reflexivity; try discriminate;
    try (repeat split; first [now left | right; first [assumption | reflexivity | lia]]);
    try (exfalso; destruct H as (H1 & H2 & H3 & H4 & H5);
         first [ destruct H1 as [H1 | H1]; congruence
               | destruct H2 as [H2 | H2]; congruence
               | destruct H3 as [H3 | H3]; congruence
               | destruct H4 as [H4 | H4]; [congruence | lia]
               | destruct H5 as [H5 | H5]; [congruence | lia] ]).
Qed.

Lemma filterEvents_sublist (events : list Event) (req : EventListRequest) :
  sublist (filterEvents ToLower events req) events.
Proof.
  induction events as [| e events IH]; cbn [filterEvents]; [constructor |].
  destruct (keepEvent ToLower req e); [apply sublist_skip | apply sublist_cons]; exact IH.
Qed.

(** X27: the criteria of a listing are conjunctive and each one
    counts only when set: an event is listed exactly when it is stored and
    its type equals the requested type, its status equals the requested
    status (both compared as written), its source, lower-cased by
    [strings.ToLower], contains the search term lower-cased the same way,
    and its timestamp is within the inclusive bounds; the listed events
    keep their stored order. *)
Theorem filterEvents_selects_by_all_criteria (events : list Event)
    (req : EventListRequest) (e : Event) :
  sublist (filterEvents ToLower events req) events /\
  (e ∈ filterEvents ToLower events req <->
   e ∈ events /\
   (q_EventType req = "" \/ EventType e = q_EventType req) /\
   (q_Status req = "" \/ Status e = q_Status req) /\
   (Search req = "" \/ Contains (ToLower (Source e)) (ToLower (Search req)) = true) /\
   (DateFrom req = 0 \/ DateFrom req <= Timestamp e) /\
   (DateTo req = 0 \/ Timestamp e <= DateTo req)).
Proof.
  split; [apply filterEvents_sublist |].
  rewrite filterEvents_filter, <- keepEvent_true.
  rewrite !list_elem_of_In, List.filter_In. reflexivity.
Qed.

End Filter.

(** *** The order of the result *)

Section InsertionSorted.

Context {A : Type}.
Variable less : A -> A -> bool.

Hypothesis less_irrefl : forall a, less a a = false.
Hypothesis less_trans :
  forall a b c, less a b = true -> less b c = true -> less a c = true.
Hypothesis less_split :
  forall a b c, less a b = true -> less a c = true \/ less c b = true.

Lemma insertLeft_Permutation (cmp : A -> A -> bool) (x : A) (rp : list A) :
  insertLeft cmp x rp ≡ₚ x :: rp.
Proof.
  induction rp as [| y rp IH]; cbn [insertLeft]; [reflexivity |].
  destruct (cmp x y); [| reflexivity].
  rewrite IH. apply Permutation_swap.
Qed.

Lemma run_Permutation (cmp : A -> A -> bool) (data rp : list A) :
  run cmp data rp ≡ₚ data ++ rp.
Proof.
  revert rp. induction data as [| x data IH]; intros rp; cbn; [reflexivity |].
  unfold run in IH. rewrite IH, insertLeft_Permutation.
  symmetry. apply Permutation_middle.
Qed.

Lemma insertionSort_Permutation (cmp : A -> A -> bool) (data : list A) :
  insertionSortLessFunc cmp data ≡ₚ data.
Proof.
  unfold insertionSortLessFunc. rewrite <- Permutation_rev.
  change (run cmp data [] ≡ₚ data). rewrite run_Permutation, app_nil_r. reflexivity.
Qed.

Lemma less_asym (a b : A) : less a b = true -> less b a = false.
Proof.
  intros Hab. destruct (less b a) eqn:Hba; [| reflexivity].
  rewrite <- (less_irrefl a). symmetry. exact (less_trans a b a Hab Hba).
Qed.

Lemma descending_insertLeft (x : A) (rp : list A) :
  descending less rp -> descending less (insertLeft less x rp).
Proof.
  unfold descending. induction rp as [| y rp IH]; intros Hs; cbn [insertLeft].
  - repeat constructor.
  - apply StronglySorted_inv in Hs as [Hrest Hy].
    rewrite List.Forall_forall in Hy.
    destruct (less x y) eqn:Hxy.
    + constructor; [apply IH; exact Hrest |].
      apply List.Forall_forall. intros z Hz. apply In_insertLeft in Hz as [-> | Hz].
      * apply less_asym. exact Hxy.
      * apply Hy. exact Hz.
    + constructor; [constructor; [exact Hrest | apply List.Forall_forall; exact Hy] |].
      apply List.Forall_forall. intros z [<- | Hz]; [exact Hxy |].
      destruct (less x z) eqn:Hxz; [| reflexivity].
      destruct (less_split x z y Hxz) as [H | H]; [congruence |].
      rewrite (Hy z Hz) in H. discriminate.
Qed.

Lemma descending_run (data rp : list A) :
  descending less rp -> descending less (run less data rp).
Proof.
  revert rp. induction data as [| x data IH]; intros rp Hs; cbn; [exact Hs |].
  apply IH, descending_insertLeft, Hs.
Qed.

Lemma StronglySorted_snoc (R : A -> A -> Prop) (l : list A) (x : A) :
  StronglySorted R l -> (forall a, In a l -> R a x) -> StronglySorted R (l ++ [x]).
Proof.
  induction l as [| y l IH]; intros Hs Hx; cbn [app].
  - repeat constructor.
  - apply StronglySorted_inv in Hs as [Hrest Hy].
    constructor; [apply IH; [exact Hrest | intros a Ha; apply Hx; now right] |].
    apply Forall_app. split; [exact Hy |].
    constructor; [apply Hx; now left | constructor].
Qed.

Lemma StronglySorted_rev_flip (R : A -> A -> Prop) (l : list A) :
  StronglySorted R l -> StronglySorted (fun a b => R b a) (rev l).
Proof.
  induction l as [| y l IH]; intros Hs; cbn [rev]; [constructor |].
  apply StronglySorted_inv in Hs as [Hrest Hy].
  apply StronglySorted_snoc; [apply IH; exact Hrest |].
  intros a Ha. apply in_rev in Ha. rewrite List.Forall_forall in Hy. apply Hy. exact Ha.
Qed.

Lemma insertionSort_ascending (data : list A) :
  ascending less (insertionSortLessFunc less data).
Proof.
  unfold insertionSortLessFunc, ascending.
  apply (StronglySorted_rev_flip (fun a b => less a b = false)).
  apply (descending_run data []). constructor.
Qed.

Lemma insertionSort_descending (data : list A) :
  descending less (insertionSortLessFunc (greaterEq less) data).
Proof.
  unfold insertionSortLessFunc, descending.
  apply (StronglySorted_rev_flip (fun a b => less b a = false)).
  destruct data as [| x data]; [constructor |].
  apply (run_desc less less_irrefl less_trans less_split x (x :: data) []).
  constructor.
Qed.

End InsertionSorted.

Section Listing.

Variable ToLower : string -> string.
Variable pdqsortLong : (Event -> Event -> bool) -> list Event -> list Event.

(** X28: up to twelve events are sorted by an insertion sort and
    come out as a rearrangement of the input, none lost or repeated,
    ordered by the requested field: never decreasing for the order
    [asc], never increasing for any other order; an unknown sort field
    means the timestamp. *)
Theorem sortEvents_orders_short_lists (events : list Event) (sortBy sortOrder : string) :
  (length events <= maxInsertion)%nat ->
  sortEvents pdqsortLong events sortBy sortOrder ≡ₚ events /\
  (sortOrder = "asc" ->
   ascending (fieldLess sortBy) (sortEvents pdqsortLong events sortBy sortOrder)) /\
  (sortOrder <> "asc" ->
   descending (fieldLess sortBy) (sortEvents pdqsortLong events sortBy sortOrder)) /\
  (sortBy <> "eventType" -> sortBy <> "status" ->
   forall a b, fieldLess sortBy a b = (Timestamp a <? Timestamp b)).
Proof.
  intros Hlen. rewrite sortEvents_short by exact Hlen.
  split; [apply insertionSort_Permutation |]. split; [| split].
  - intros ->.
    rewrite (insertionSort_ext (sortLess sortBy "asc") (fieldLess sortBy))
      by reflexivity.
    apply insertionSort_ascending.
    + apply fieldLess_irrefl.
    + apply fieldLess_trans.
    + apply fieldLess_split.
  - intros Hdesc.
    rewrite (insertionSort_ext (sortLess sortBy sortOrder) (greaterEq (fieldLess sortBy))).
    + apply insertionSort_descending.
      * apply fieldLess_irrefl.
      * apply fieldLess_trans.
      * apply fieldLess_split.
    + intros a b. unfold sortLess, greaterEq.
      destruct (String.eqb_spec sortOrder "asc"); [contradiction | reflexivity].
  - intros H1 H2 a b. unfold fieldLess.
    destruct (String.eqb_spec sortBy "eventType"); [contradiction |].
    destruct (String.eqb_spec sortBy "status"); [contradiction | reflexivity].
Qed.

(** The page cut out of the sorted result, as long as the end offset
    page*size stays within the 64-bit range. *)
Lemma GetByClientID_page (events : list Event) (req : EventListRequest) :
  1 <= Page req -> 0 <= PageSize req -> Page req * PageSize req < 2 ^ 63 ->
  let sorted :=
    sortEvents pdqsortLong (filterEvents ToLower events req) (SortBy req)
      (SortOrder req) in
  GetByClientID ToLower pdqsortLong (Walked events) req
  = ListOk {| Total := Z.of_nat (length sorted);
              r_Page := Page req; r_PageSize := PageSize req;
              Events :=
                map ToSummary
                  (firstn (Z.to_nat (PageSize req))
                     (skipn (Z.to_nat ((Page req - 1) * PageSize req)) sorted)) |}.
Proof.
  intros Hp Hs Hb sorted. unfold GetByClientID. fold sorted.
  assert (H0 : 0 <= (Page req - 1) * PageSize req) by nia.
  assert (H1 : (Page req - 1) * PageSize req + PageSize req < 2 ^ 63) by nia.
  rewrite (wrap64_small ((Page req - 1) * PageSize req)) by lia.
  rewrite (wrap64_small ((Page req - 1) * PageSize req + PageSize req)) by lia.
  set (total := Z.of_nat (length sorted)).
  set (start := (Page req - 1) * PageSize req) in *.
  destruct (Z.leb_spec total start) as [Hpast | Hin].
  - assert (Ht : (total <? 0) = false) by (apply Z.ltb_ge; subst total; lia).
    rewrite Ht. rewrite sliceRange_ok by (subst total; lia).
    rewrite (skipn_all2 sorted (n := Z.to_nat start)) by (subst total; lia).
    rewrite firstn_nil. reflexivity.
  - destruct (Z.ltb_spec total (start + PageSize req)).
    + rewrite sliceRange_ok by (subst total; lia).
      rewrite !firstn_all2; [reflexivity | |]; rewrite length_skipn; subst total; lia.
    + rewrite sliceRange_ok by (subst total; lia).
      replace (start + PageSize req - start) with (PageSize req) by lia. reflexivity.
Qed.

(** X29: a page is a run of consecutive events of the sorted result:
    with a page number of at least one, a page size that is not negative
    and a product page*size below 2^63 (so that the offsets do not
    overflow), the response holds the summaries of the events from offset
    (page-1)*size on, at most size of them, in sorted order, and its
    total is the number of all events in the sorted result, the same for
    every such page. *)
Theorem page_is_consecutive_slice (events : list Event) (req : EventListRequest) :
  1 <= Page req -> 0 <= PageSize req -> Page req * PageSize req < 2 ^ 63 ->
  let sorted :=
    sortEvents pdqsortLong (filterEvents ToLower events req) (SortBy req)
      (SortOrder req) in
  GetByClientID ToLower pdqsortLong (Walked events) req
  = ListOk {| Total := Z.of_nat (length sorted);
              r_Page := Page req; r_PageSize := PageSize req;
              Events :=
                map ToSummary
                  (firstn (Z.to_nat (PageSize req))
                     (skipn (Z.to_nat ((Page req - 1) * PageSize req)) sorted)) |}.
Proof.
  intros Hp Hs Hb sorted. apply GetByClientID_page; assumption.
Qed.

Lemma wrap64_below (z : Z) : - 2 ^ 63 <= z -> wrap64 z <= z.
Proof.
  intros H. unfold wrap64.
  pose proof (Z.mod_le (z + 2 ^ 63) (2 ^ 64) ltac:(lia) ltac:(lia)). lia.
Qed.

Lemma sliceRange_length {A} (s paged : list A) (lo hi : Z) :
  sliceRange s lo hi = Some paged -> 0 <= lo /\ Z.of_nat (length paged) <= hi - lo.
Proof.
  unfold sliceRange.
  destruct (Z.leb_spec 0 lo); [| discriminate].
  destruct (Z.leb_spec lo hi); [| discriminate].
  destruct (Z.leb_spec hi (Z.of_nat (length s))); [| discriminate].
  cbn [andb]. intros [= <-]. split; [assumption |].
  pose proof (firstn_le_length (Z.to_nat (hi - lo)) (skipn (Z.to_nat lo) s)). lia.
Qed.

(** X30: behind the handler's defaults (page size 20 when none is
    given, and no more than 100) a listing that returns at all never
    returns more than a hundred events, whatever page and page size were
    asked for. *)
Theorem List_page_never_exceeds_hundred (dir : DirRead) (req : EventListRequest)
    (resp : EventListResponse) :
  minInt64 <= PageSize req ->
  List ToLower pdqsortLong dir req = ListOk resp ->
  (length (Events resp) <= 100)%nat.
Proof.
  intros Hmin. unfold List, GetByClientID.
  destruct dir as [| cause | events]; [intros [= <-]; cbn; lia | discriminate |].
  set (req' := withDefaults req).
  assert (Hsize : minInt64 <= PageSize req' <= 100).
  { unfold req', withDefaults. cbn [PageSize]. unfold minInt64 in *.
    destruct (Z.eqb_spec (PageSize req) 0);
      [destruct (Z.ltb_spec 100 20); lia |].
    destruct (Z.ltb_spec 100 (PageSize req)); lia. }
  set (sorted := sortEvents pdqsortLong (filterEvents ToLower events req') (SortBy req')
                   (SortOrder req')).
  set (total := Z.of_nat (length sorted)).
  set (start := wrap64 ((Page req' - 1) * PageSize req')).
  destruct (Z.leb_spec total start) as [Hpast | Hin].
  - destruct (Z.ltb_spec total 0); [subst total; lia |].
    destruct (sliceRange sorted 0 0) as [paged |] eqn:Hslice; [| discriminate].
    intros [= <-]. cbn [Events]. rewrite length_map.
    apply sliceRange_length in Hslice. lia.
  - match goal with
    | |- context [sliceRange sorted start ?hi] =>
      destruct (sliceRange sorted start hi) as [paged |] eqn:Hslice; [| discriminate];
      assert (Hhi : 0 <= start -> hi <= start + 100)
    end.
    { intros Hstart.
      pose proof (wrap64_below (start + PageSize req')
                    ltac:(unfold minInt64 in *; lia)) as Hw.
      destruct (total <? wrap64 (start + PageSize req')) eqn:E.
      - apply Z.ltb_lt in E. lia.
      - lia. }
    intros [= <-]. cbn [Events]. rewrite length_map.
    apply sliceRange_length in Hslice. lia.
Qed.

End Listing.

Lemma sortEvents_orders_short_lists_witness :
  sortEvents unsorted [eventAt "b" 9; eventAt "a" 3; eventAt "c" 5] "timestamp" "desc"
  ≡ₚ [eventAt "b" 9; eventAt "a" 3; eventAt "c" 5] /\
  descending (fieldLess "timestamp")
    (sortEvents unsorted [eventAt "b" 9; eventAt "a" 3; eventAt "c" 5] "timestamp" "desc").
Proof.
  destruct (sortEvents_orders_short_lists unsorted
              [eventAt "b" 9; eventAt "a" 3; eventAt "c" 5] "timestamp" "desc")
    as (Hperm & _ & Hdesc & _).
  - cbn. unfold maxInsertion. lia.
  - split; [exact Hperm |]. apply Hdesc. discriminate.
Defined.

Lemma page_is_consecutive_slice_witness :
  GetByClientID asciiLower unsorted
    (Walked [eventAt "a" 1; eventAt "b" 2; eventAt "c" 3]) (rangeRequest 2 2 0 0 "asc")
  = ListOk {| Total := 3; r_Page := 2; r_PageSize := 2;
              Events := [ToSummary (eventAt "c" 3)] |}.
Proof.
  rewrite (page_is_consecutive_slice asciiLower unsorted
             [eventAt "a" 1; eventAt "b" 2; eventAt "c" 3] (rangeRequest 2 2 0 0 "asc"));
    [reflexivity | cbn; lia | cbn; lia | vm_compute; reflexivity].
Defined.

Lemma List_page_never_exceeds_hundred_witness :
  exists resp,
    List asciiLower unsorted (Walked [eventAt "a" 1; eventAt "b" 2])
      (rangeRequest 1 5000 0 0 "asc")
    = ListOk resp /\
    (length (Events resp) <= 100)%nat.
Proof.
  eexists. split; [reflexivity |].
  eapply (List_page_never_exceeds_hundred asciiLower unsorted
            (Walked [eventAt "a" 1; eventAt "b" 2]) (rangeRequest 1 5000 0 0 "asc"));
    [vm_compute; discriminate | reflexivity].
Defined.

End ListMoreFacts.

(** ** Listing by timestamp range *)

Module RangeFacts.
Import GoStrings Json Event EventRepo ListSpec SortSpec.
Import ListFacts SortFacts PageFacts ListMoreFacts.

Lemma withDefaults_in_range (req : EventListRequest) :
  1 <= Page req -> 1 <= PageSize req <= 100 -> withDefaults req = req.
Proof.
  intros Hp Hs. destruct req as [page size type status search from to by_ order].
  unfold withDefaults. cbn [Page PageSize q_EventType q_Status Search DateFrom DateTo
    SortBy SortOrder] in *.
  destruct (Z.eqb_spec page 0); [lia |].
  destruct (Z.eqb_spec size 0); [lia |].
  destruct (Z.ltb_spec 100 size); [lia |]. reflexivity.
Qed.

Section Range.

Variable ToLower : string -> string.
Variable pdqsortLong : (Event -> Event -> bool) -> list Event -> list Event.

(** C4, amended: [List] with only a timestamp range in the request
    selects the events with [from <= t <= to], both ends included, a zero
    [from] or [to] leaving that side open.  For up to twelve such events,
    a page number of at least one, a page size from 1 to 100 and a
    product page*size below 2^63, the total of the response is their
    number and its events are the summaries of the requested page of
    these events in the requested sort order, a rearrangement of them; a
    first page large enough lists every one of them exactly once. *)
Theorem C4_List_range_is_inclusive (events : list Event) (req : EventListRequest) :
  q_EventType req = "" -> q_Status req = "" -> Search req = "" ->
  1 <= Page req -> 1 <= PageSize req <= 100 -> Page req * PageSize req < 2 ^ 63 ->
  let inRange :=
    List.filter
      (fun e => inRangeInclusive (DateFrom req) (DateTo req) (Timestamp e)) events in
  (length inRange <= maxInsertion)%nat ->
  let sorted := sortEvents pdqsortLong inRange (SortBy req) (SortOrder req) in
  sorted ≡ₚ inRange /\
  List ToLower pdqsortLong (Walked events) req
  = ListOk {| Total := Z.of_nat (length inRange);
              r_Page := Page req; r_PageSize := PageSize req;
              Events :=
                map ToSummary
                  (firstn (Z.to_nat (PageSize req))
                     (skipn (Z.to_nat ((Page req - 1) * PageSize req)) sorted)) |} /\
  (Page req = 1 -> Z.of_nat (length inRange) <= PageSize req ->
   exists resp,
     List ToLower pdqsortLong (Walked events) req = ListOk resp /\
     Events resp ≡ₚ map ToSummary inRange).
Proof.
  intros Ht Hs Hq Hp Hsize Hb inRange Hlen sorted.
  assert (Hperm : sorted ≡ₚ inRange).
  { unfold sorted. rewrite sortEvents_short by exact Hlen.
    apply insertionSort_Permutation. }
  assert (Hrun :
    List ToLower pdqsortLong (Walked events) req
    = ListOk {| Total := Z.of_nat (length inRange);
                r_Page := Page req; r_PageSize := PageSize req;
                Events :=
                  map ToSummary
                    (firstn (Z.to_nat (PageSize req))
                       (skipn (Z.to_nat ((Page req - 1) * PageSize req)) sorted)) |}).
  { unfold List. rewrite (withDefaults_in_range req Hp Hsize).
    assert (H0 : 0 <= PageSize req) by lia.
    pose proof (GetByClientID_page ToLower pdqsortLong events req Hp H0 Hb) as Hpage.
    cbv zeta in Hpage.
    rewrite (filterEvents_range_only ToLower events req Ht Hs Hq) in Hpage.
    rewrite Hpage. subst sorted inRange.
    rewrite (Permutation_length Hperm). reflexivity. }
  split; [exact Hperm |]. split; [exact Hrun |].
  intros Hfirst Hfits. eexists. split; [exact Hrun |]. cbn [Events].
  rewrite Hfirst. replace ((1 - 1) * PageSize req) with 0 by lia.
  change (Z.to_nat 0) with 0%nat. rewrite drop_0.
  assert (Hl : length sorted = length inRange) by exact (Permutation_length Hperm).
  rewrite firstn_all2 by lia.
  apply Permutation_map. exact Hperm.
Qed.

End Range.

Lemma C4_List_range_is_inclusive_witness :
  List asciiLower unsorted
    (Walked [eventAt "a" 4; eventAt "b" 5; eventAt "c" 10; eventAt "d" 11])
    (rangeRequest 1 20 5 10 "desc")
  = ListOk {| Total := 2; r_Page := 1; r_PageSize := 20;
              Events := [ToSummary (eventAt "c" 10); ToSummary (eventAt "b" 5)] |}.
Proof.
  destruct (C4_List_range_is_inclusive asciiLower unsorted
              [eventAt "a" 4; eventAt "b" 5; eventAt "c" 10; eventAt "d" 11]
              (rangeRequest 1 20 5 10 "desc") eq_refl eq_refl eq_refl)
    as (_ & Hrun & _).
  - cbn. lia.
  - cbn. lia.
  - vm_compute. reflexivity.
  - cbn. unfold maxInsertion. lia.
  - rewrite Hrun. reflexivity.
Defined.

(** C4, as stated, fails: [List] returns an event stamped exactly [to],
    which the half-open range [from <= t < to] excludes. *)
Lemma C4_List_returns_upper_bound :
  List asciiLower unsorted (Walked [eventAt "c" 10]) (rangeRequest 1 20 5 10 "desc")
  = ListOk {| Total := 1; r_Page := 1; r_PageSize := 20;
              Events := [ToSummary (eventAt "c" 10)] |} /\
  inRangeHalfOpen 5 10 (Timestamp (eventAt "c" 10)) = false.
Proof. split; reflexivity. Qed.

End RangeFacts.

(** ** White space at the ends of a string *)

Module TrimFacts.
Import GoStrings TrimSamples.

(** A no-break space (C2 A0) in front and an ideographic space
    (E3 80 80) behind are trimmed like the ASCII ones. *)
Example TrimSpace_unicode :
  TrimSpace (bytes [194; 160; 9; 97; 32; 98; 227; 128; 128; 10]%nat) = bytes [97; 32; 98]%nat.
Proof. reflexivity. Qed.

(** A lone lead byte is no white space: it stays, and shields what
    follows it on the left. *)
Example TrimSpace_invalid_encoding :
  TrimSpace (bytes [194; 32; 97; 226; 128]%nat) = bytes [194; 32; 97; 226; 128]%nat
  /\ TrimSpace (bytes [32; 226; 194; 133]%nat) = bytes [226]%nat.
Proof. split; reflexivity. Qed.

Lemma TrimSpace_empty : TrimSpace "" = "".
Proof. reflexivity. Qed.

End TrimFacts.
